(** * OmniSciDB fragment: foreign-storage cache and baseline join hash table

    A shallow embedding of
      - DataMgr/ForeignStorage/ForeignStorageCache.cpp,
      - DataMgr/ForeignStorage/ForeignStorageMgr.cpp,
      - CachingForeignStorageMgr.cpp,
      - QueryEngine/JoinHashTable/BaselineJoinHashTable.cpp,
    followed by the properties of the specification that concern them.

    Conventions.  A [size_t] is a [Z] in [0, 2^64) and every arithmetic
    operation on it is reduced with [wrap].  A C++ call has one of three
    outcomes: it returns a result and a state ([Ok]), it throws and leaves a
    state behind ([Throw]), or a [CHECK] fails and the process stops
    ([Abort]). *)

From Stdlib Require Import ZArith List Bool Lia String Sorted.
Import ListNotations.
Open Scope Z_scope.

(* ================================================================== *)
(** ** Machine integers *)

Definition SIZE_MOD : Z := 2 ^ 64.
Definition wrap (x : Z) : Z := x mod SIZE_MOD.
Definition INT_MAX : Z := 2147483647.
Definition INT32_MAX : Z := 2147483647.

(* ================================================================== *)
(** ** Exceptions and outcomes *)

Inductive Exn : Type :=
| CacheTooSmallException (what : string)
| NoEntryFoundException
| OutOfRange
| PostEvictionRefreshException (cause : Exn)
| RuntimeError (what : string)
| TooManyHashEntries
| TableMustBeReplicated (what : string)
| HashJoinFail (what : string)
| FailedToFetchColumn
| FailedToJoinOnVirtualColumn
| ColumnarConversionNotSupported (what : string)
| OutOfMemory (what : string)
| OtherException (what : string).

Inductive Outcome (R S : Type) : Type :=
| Ok (r : R) (s : S)
| Throw (e : Exn) (s : S)
| Abort.
Arguments Ok {R S} r s.
Arguments Throw {R S} e s.
Arguments Abort {R S}.

(** The state a call leaves behind, when the process survives it. *)
Definition survivor {R S : Type} (o : Outcome R S) : option S :=
  match o with
  | Ok _ s => Some s
  | Throw _ s => Some s
  | Abort => None
  end.

(** [std::runtime_error] and the classes derived from it; [std::out_of_range]
    is a [std::logic_error]. *)
Definition is_runtime_error (e : Exn) : bool :=
  match e with
  | OutOfRange => false
  | OtherException _ => false
  | _ => true
  end.

(* ================================================================== *)
(** ** Chunk keys: [std::vector<int>] under [operator<] *)

Definition ChunkKey : Type := list Z.

Fixpoint chunk_key_compare (a b : ChunkKey) : comparison :=
  match a, b with
  | [], [] => Eq
  | [], _ :: _ => Lt
  | _ :: _, [] => Gt
  | x :: a', y :: b' =>
      match x ?= y with
      | Eq => chunk_key_compare a' b'
      | c => c
      end
  end.

Definition key_ltb (a b : ChunkKey) : bool :=
  match chunk_key_compare a b with Lt => true | _ => false end.

Definition key_eqb (a b : ChunkKey) : bool :=
  match chunk_key_compare a b with Eq => true | _ => false end.

Definition key_lt (a b : ChunkKey) : Prop := chunk_key_compare a b = Lt.

(** [is_table_key], [has_table_prefix], [get_table_key] of types.h. *)
Definition is_table_key (k : ChunkKey) : bool :=
  match k with [_; _] => true | _ => false end.

Definition get_table_key (k : ChunkKey) : option ChunkKey :=
  match k with
  | db :: tb :: _ => Some [db; tb]
  | _ => None
  end.

Definition is_varlen_key (k : ChunkKey) : bool :=
  match k with [_; _; _; _; _] => true | _ => false end.

Definition is_varlen_data_key (k : ChunkKey) : bool :=
  match k with [_; _; _; _; sub] => sub =? 1 | _ => false end.

Definition CHUNK_KEY_FRAGMENT_IDX : nat := 3.

(** The upper end of a prefix's range: the prefix with [INT_MAX] pushed. *)
Definition upper_prefix (chunk_prefix : ChunkKey) : ChunkKey :=
  chunk_prefix ++ [INT_MAX].

(** Keys [k] with [chunk_prefix <= k <= upper_prefix chunk_prefix]. *)
Definition in_prefix_range (chunk_prefix k : ChunkKey) : bool :=
  negb (key_ltb k chunk_prefix) && negb (key_ltb (upper_prefix chunk_prefix) k).

(* ================================================================== *)
(** ** [std::set<ChunkKey>] and [std::map<ChunkKey, V>] as ordered lists *)

Definition KeySet : Type := list ChunkKey.

Definition set_find (k : ChunkKey) (s : KeySet) : bool :=
  existsb (key_eqb k) s.

Fixpoint set_emplace (k : ChunkKey) (s : KeySet) : KeySet :=
  match s with
  | [] => [k]
  | x :: s' =>
      match chunk_key_compare k x with
      | Lt => k :: x :: s'
      | Eq => x :: s'
      | Gt => x :: set_emplace k s'
      end
  end.

Definition set_erase (k : ChunkKey) (s : KeySet) : KeySet :=
  filter (fun x => negb (key_eqb k x)) s.

(** The suffix that starts at [lower_bound(p)]. *)
Fixpoint from_lower_bound (p : ChunkKey) (s : KeySet) : KeySet :=
  match s with
  | [] => []
  | x :: s' => if key_ltb x p then from_lower_bound p s' else s
  end.

(** The part before [upper_bound(u)]. *)
Fixpoint until_upper_bound (u : ChunkKey) (s : KeySet) : KeySet :=
  match s with
  | [] => []
  | x :: s' => if key_ltb u x then [] else x :: until_upper_bound u s'
  end.

(** What [for (it = lower_bound(prefix); it != upper_bound(upper); ++it)]
    visits, in order. *)
Definition prefix_range (chunk_prefix : ChunkKey) (s : KeySet) : KeySet :=
  until_upper_bound (upper_prefix chunk_prefix) (from_lower_bound chunk_prefix s).

Definition KeyMap (V : Type) : Type := list (ChunkKey * V).

Fixpoint map_find {V : Type} (k : ChunkKey) (m : KeyMap V) : option V :=
  match m with
  | [] => None
  | (x, v) :: m' => if key_eqb k x then Some v else map_find k m'
  end.

Fixpoint map_set {V : Type} (k : ChunkKey) (v : V) (m : KeyMap V) : KeyMap V :=
  match m with
  | [] => [(k, v)]
  | (x, w) :: m' =>
      match chunk_key_compare k x with
      | Lt => (k, v) :: (x, w) :: m'
      | Eq => (x, v) :: m'
      | Gt => (x, w) :: map_set k v m'
      end
  end.

Definition map_erase {V : Type} (k : ChunkKey) (m : KeyMap V) : KeyMap V :=
  filter (fun kv => negb (key_eqb k (fst kv))) m.

Definition map_keys {V : Type} (m : KeyMap V) : KeySet := map fst m.

(* ================================================================== *)
(** ** Collaborators of the cache that are not part of the fragment *)

(** Modelled from the spec: the eviction algorithm (LRUEvictionAlgorithm) is
    not in the fragment.  It is "a per-table LRU over opaque chunk
    identifiers": if [touchChunk a] comes before [touchChunk b] with no
    further touches, eviction picks [a] before [b].  The queue is kept with
    the next victim at its head; evicting from an empty queue throws. *)
Definition LRU : Type := list ChunkKey.

Definition removeChunk (k : ChunkKey) (q : LRU) : LRU :=
  filter (fun x => negb (key_eqb k x)) q.

Definition touchChunk (k : ChunkKey) (q : LRU) : LRU :=
  removeChunk k q ++ [k].

Definition evictNextChunk (q : LRU) : option (ChunkKey * LRU) :=
  match q with
  | [] => None
  | k :: q' => Some (k, q')
  end.

(** Modelled from the spec: the page-backed file manager (GlobalFileMgr,
    FileBuffer) is not in the fragment.  It "maps a chunk identifier to a
    page-granular buffer" and "supports create/get/put/delete/checkpoint".
    A file buffer has a size and a number of pages; a buffer that carries
    metadata only has no pages.  [putBuffer] gives a buffer of [s] bytes
    the pages the cache counts for it, [freeChunkPages] releases the pages
    and returns how many they were, [removeTableRelatedDS] drops every
    buffer of a table, [getBuffer] on a missing chunk is a failed CHECK.
    [checkpoint] is the persistence fence and has no effect on this state. *)
Record FileBuffer : Type := mkFileBuffer {
  fb_size : Z;
  fb_pages : Z
}.

Record GlobalFileMgr : Type := mkGlobalFileMgr {
  default_page_size : Z;
  buffers : KeyMap FileBuffer
}.

Definition getDefaultPageSize (fm : GlobalFileMgr) : Z := default_page_size fm.

Definition isBufferOnDevice (fm : GlobalFileMgr) (k : ChunkKey) : bool :=
  match map_find k (buffers fm) with Some _ => true | None => false end.

Definition getBuffer (fm : GlobalFileMgr) (k : ChunkKey) : option FileBuffer :=
  map_find k (buffers fm).

Definition set_buffer (fm : GlobalFileMgr) (k : ChunkKey) (b : FileBuffer)
  : GlobalFileMgr :=
  mkGlobalFileMgr (default_page_size fm) (map_set k b (buffers fm)).

(** Pages of a chunk of [chunk_size] bytes, as the cache computes them:
    [(chunk_size + (page_size - 1)) / page_size] on [size_t]. *)
Definition num_pages_for_chunk (page_size chunk_size : Z) : Z :=
  wrap (chunk_size + wrap (page_size - 1)) / page_size.

Definition putBuffer (fm : GlobalFileMgr) (k : ChunkKey) (size : Z)
  : GlobalFileMgr :=
  set_buffer fm k
    (mkFileBuffer size (num_pages_for_chunk (default_page_size fm) size)).

Definition createBuffer (fm : GlobalFileMgr) (k : ChunkKey) : GlobalFileMgr :=
  set_buffer fm k (mkFileBuffer 0 0).

Definition deleteBuffer (fm : GlobalFileMgr) (k : ChunkKey) : GlobalFileMgr :=
  mkGlobalFileMgr (default_page_size fm) (map_erase k (buffers fm)).

Definition freeChunkPages (fm : GlobalFileMgr) (k : ChunkKey) (b : FileBuffer)
  : Z * GlobalFileMgr :=
  (fb_pages b, set_buffer fm k (mkFileBuffer (fb_size b) 0)).

Definition has_table_prefix_of (db tb : Z) (k : ChunkKey) : bool :=
  match k with
  | d :: t :: _ => (d =? db) && (t =? tb)
  | _ => false
  end.

Definition removeTableRelatedDS (fm : GlobalFileMgr) (db tb : Z)
  : GlobalFileMgr :=
  mkGlobalFileMgr (default_page_size fm)
    (filter (fun kv => negb (has_table_prefix_of db tb (fst kv))) (buffers fm)).

(** A buffer handed to the cache by a caller (AbstractBuffer). *)
Record AbstractBuffer : Type := mkAbstractBuffer {
  buf_bytes : list Z;
  buf_dirty : bool
}.

Definition buf_size (b : AbstractBuffer) : Z :=
  wrap (Z.of_nat (List.length (buf_bytes b))).

(* ================================================================== *)
(** ** ForeignStorageCache *)

Record TableEvictionTracker : Type := mkTracker {
  eviction_alg_ : LRU;
  num_pages_ : Z
}.

Record ForeignStorageCache : Type := mkCache {
  cached_chunks_ : KeySet;
  cached_metadata_ : KeySet;
  eviction_tracker_map_ : KeyMap TableEvictionTracker;
  global_file_mgr_ : GlobalFileMgr;
  max_pages_per_table_ : Z;
  max_cached_bytes_ : Z;
  num_chunks_added_ : Z;
  num_metadata_added_ : Z
}.

Definition set_cached_chunks (c : ForeignStorageCache) (v : KeySet) :=
  mkCache v (cached_metadata_ c) (eviction_tracker_map_ c) (global_file_mgr_ c)
    (max_pages_per_table_ c) (max_cached_bytes_ c) (num_chunks_added_ c)
    (num_metadata_added_ c).

Definition set_cached_metadata (c : ForeignStorageCache) (v : KeySet) :=
  mkCache (cached_chunks_ c) v (eviction_tracker_map_ c) (global_file_mgr_ c)
    (max_pages_per_table_ c) (max_cached_bytes_ c) (num_chunks_added_ c)
    (num_metadata_added_ c).

Definition set_tracker_map (c : ForeignStorageCache)
    (v : KeyMap TableEvictionTracker) :=
  mkCache (cached_chunks_ c) (cached_metadata_ c) v (global_file_mgr_ c)
    (max_pages_per_table_ c) (max_cached_bytes_ c) (num_chunks_added_ c)
    (num_metadata_added_ c).

Definition set_file_mgr (c : ForeignStorageCache) (v : GlobalFileMgr) :=
  mkCache (cached_chunks_ c) (cached_metadata_ c) (eviction_tracker_map_ c) v
    (max_pages_per_table_ c) (max_cached_bytes_ c) (num_chunks_added_ c)
    (num_metadata_added_ c).

Definition set_max_pages (c : ForeignStorageCache) (v : Z) :=
  mkCache (cached_chunks_ c) (cached_metadata_ c) (eviction_tracker_map_ c)
    (global_file_mgr_ c) v (max_cached_bytes_ c) (num_chunks_added_ c)
    (num_metadata_added_ c).

Definition set_max_cached_bytes (c : ForeignStorageCache) (v : Z) :=
  mkCache (cached_chunks_ c) (cached_metadata_ c) (eviction_tracker_map_ c)
    (global_file_mgr_ c) (max_pages_per_table_ c) v (num_chunks_added_ c)
    (num_metadata_added_ c).

Definition incr_chunks_added (c : ForeignStorageCache) :=
  mkCache (cached_chunks_ c) (cached_metadata_ c) (eviction_tracker_map_ c)
    (global_file_mgr_ c) (max_pages_per_table_ c) (max_cached_bytes_ c)
    (wrap (num_chunks_added_ c + 1)) (num_metadata_added_ c).

Definition incr_metadata_added (c : ForeignStorageCache) :=
  mkCache (cached_chunks_ c) (cached_metadata_ c) (eviction_tracker_map_ c)
    (global_file_mgr_ c) (max_pages_per_table_ c) (max_cached_bytes_ c)
    (num_chunks_added_ c) (wrap (num_metadata_added_ c + 1)).

(** The three parts of the cache that an eviction touches: the tracker of
    one table, the set of cached chunks and the file manager. *)
Definition set_eviction_parts (c : ForeignStorageCache) (table_key : ChunkKey)
    (tracker : TableEvictionTracker) (chunks : KeySet) (fm : GlobalFileMgr) :=
  set_file_mgr
    (set_cached_chunks
       (set_tracker_map c (map_set table_key tracker (eviction_tracker_map_ c)))
       chunks)
    fm.

(** [eraseChunk(chunk_key, tracker)]: [tracker] is seen through its page
    count, the only field the function writes. *)
Definition eraseChunk (chunk_key : ChunkKey) (num_pages : Z) (chunks : KeySet)
    (fm : GlobalFileMgr) : option (Z * KeySet * GlobalFileMgr) :=
  if set_find chunk_key chunks then
    match getBuffer fm chunk_key with
    | None => None
    | Some file_buffer =>
        let '(freed, fm') := freeChunkPages fm chunk_key file_buffer in
        Some (wrap (num_pages - freed), set_erase chunk_key chunks, fm')
    end
  else Some (num_pages, chunks, fm).

(** [while (over(num_pages)) eraseChunk(eviction_alg->evictNextChunk(), tracker)],
    the loop of [insertChunkIntoEvictionAlg] and of [setLimit]; every round
    takes the head of the queue, so the recursion is on the queue. *)
Fixpoint evict_while (over : Z -> bool) (queue : LRU) (num_pages : Z)
    (chunks : KeySet) (fm : GlobalFileMgr)
  : Outcome unit (TableEvictionTracker * KeySet * GlobalFileMgr) :=
  if over num_pages then
    match queue with
    | [] => Throw NoEntryFoundException (mkTracker [] num_pages, chunks, fm)
    | victim :: queue' =>
        match eraseChunk victim num_pages chunks fm with
        | None => Abort
        | Some (num_pages', chunks', fm') =>
            evict_while over queue' num_pages' chunks' fm'
        end
    end
  else Ok tt (mkTracker queue num_pages, chunks, fm).

Definition insertChunkIntoEvictionAlg (c : ForeignStorageCache)
    (chunk_key : ChunkKey) (chunk_size : Z) : Outcome bool ForeignStorageCache :=
  let page_size := getDefaultPageSize (global_file_mgr_ c) in
  match get_table_key chunk_key with
  | None => Abort
  | Some table_key =>
      match map_find table_key (eviction_tracker_map_ c) with
      | None => Abort
      | Some tracker =>
          let num_pages_for_chunk := num_pages_for_chunk page_size chunk_size in
          if num_pages_for_chunk >? max_pages_per_table_ c then Ok false c
          else
            match evict_while
                    (fun num_pages =>
                       wrap (num_pages + num_pages_for_chunk)
                       >? max_pages_per_table_ c)
                    (eviction_alg_ tracker) (num_pages_ tracker)
                    (cached_chunks_ c) (global_file_mgr_ c) with
            | Abort => Abort
            | Throw e (tracker', chunks, fm) =>
                Throw e (set_eviction_parts c table_key tracker' chunks fm)
            | Ok _ (tracker', chunks, fm) =>
                Ok true
                  (set_eviction_parts c table_key
                     (mkTracker (touchChunk chunk_key (eviction_alg_ tracker'))
                        (wrap (num_pages_ tracker' + num_pages_for_chunk)))
                     (set_emplace chunk_key chunks) fm)
            end
      end
  end.

Definition createTrackerMapEntryIfNoneExists (c : ForeignStorageCache)
    (table_key : ChunkKey) : Outcome unit ForeignStorageCache :=
  if negb (is_table_key table_key) then Abort
  else
    match map_find table_key (eviction_tracker_map_ c) with
    | None =>
        Ok tt (set_tracker_map c
                 (map_set table_key (mkTracker [] 0) (eviction_tracker_map_ c)))
    | Some _ => Ok tt c
    end.

Definition cacheChunk (c : ForeignStorageCache) (chunk_key : ChunkKey)
    (buffer : AbstractBuffer) : Outcome unit ForeignStorageCache :=
  if buf_dirty buffer then Abort
  else
    match insertChunkIntoEvictionAlg c chunk_key (buf_size buffer) with
    | Abort => Abort
    | Throw e c' => Throw e c'
    | Ok false c' => Ok tt c'
    | Ok true c' =>
        let c1 := incr_chunks_added c' in
        let c2 :=
          set_file_mgr c1
            (putBuffer (global_file_mgr_ c1) chunk_key (buf_size buffer)) in
        Ok tt (set_cached_metadata c2 (set_emplace chunk_key (cached_metadata_ c2)))
    end.

Fixpoint cacheTableChunks_loop (db_id table_id : Z) (chunk_keys : list ChunkKey)
    (c : ForeignStorageCache) : Outcome unit ForeignStorageCache :=
  match chunk_keys with
  | [] => Ok tt c
  | chunk_key :: rest =>
      match chunk_key with
      | d :: t :: _ =>
          if negb (d =? db_id) || negb (t =? table_id) then Abort
          else
            match getBuffer (global_file_mgr_ c) chunk_key with
            | None => Abort
            | Some file_buffer =>
                match insertChunkIntoEvictionAlg (incr_chunks_added c) chunk_key
                        (fb_size file_buffer) with
                | Abort => Abort
                | Throw e c' => Throw e c'
                | Ok _ c' => cacheTableChunks_loop db_id table_id rest c'
                end
            end
      | _ => Abort
      end
  end.

Definition cacheTableChunks (c : ForeignStorageCache)
    (chunk_keys : list ChunkKey) : Outcome unit ForeignStorageCache :=
  match chunk_keys with
  | (db_id :: table_id :: _) :: _ =>
      match createTrackerMapEntryIfNoneExists c [db_id; table_id] with
      | Abort => Abort
      | Throw e c' => Throw e c'
      | Ok _ c' => cacheTableChunks_loop db_id table_id chunk_keys c'
      end
  | _ => Abort
  end.

Definition getCachedChunkIfExists (c : ForeignStorageCache)
    (chunk_key : ChunkKey) : Outcome (option FileBuffer) ForeignStorageCache :=
  if negb (set_find chunk_key (cached_chunks_ c)) then Ok None c
  else
    match get_table_key chunk_key with
    | None => Abort
    | Some table_key =>
        let c' :=
          match map_find table_key (eviction_tracker_map_ c) with
          | Some tracker =>
              set_tracker_map c
                (map_set table_key
                   (mkTracker (touchChunk chunk_key (eviction_alg_ tracker))
                      (num_pages_ tracker))
                   (eviction_tracker_map_ c))
          | None => c
          end in
        match getBuffer (global_file_mgr_ c') chunk_key with
        | None => Abort
        | Some b => Ok (Some b) c'
        end
    end.

Definition isMetadataCached (c : ForeignStorageCache) (chunk_key : ChunkKey)
  : bool := set_find chunk_key (cached_metadata_ c).

Definition hasCachedMetadataForKeyPrefix (c : ForeignStorageCache)
    (chunk_prefix : ChunkKey) : bool :=
  match prefix_range chunk_prefix (cached_metadata_ c) with
  | [] => false
  | _ :: _ => true
  end.

Definition getCachedChunksForKeyPrefix (c : ForeignStorageCache)
    (chunk_prefix : ChunkKey) : list ChunkKey :=
  prefix_range chunk_prefix (cached_chunks_ c).

Definition eraseChunkByIterator (c : ForeignStorageCache) (chunk_key : ChunkKey)
  : Outcome unit ForeignStorageCache :=
  match get_table_key chunk_key with
  | None => Abort
  | Some table_key =>
      match map_find table_key (eviction_tracker_map_ c) with
      | None => Throw OutOfRange c
      | Some tracker =>
          match getBuffer (global_file_mgr_ c) chunk_key with
          | None => Abort
          | Some file_buffer =>
              let '(freed, fm') :=
                freeChunkPages (global_file_mgr_ c) chunk_key file_buffer in
              Ok tt
                (set_eviction_parts c table_key
                   (mkTracker (removeChunk chunk_key (eviction_alg_ tracker))
                      (wrap (num_pages_ tracker - freed)))
                   (set_erase chunk_key (cached_chunks_ c)) fm')
          end
      end
  end.

Fixpoint erase_chunks_in_order (visited : list ChunkKey)
    (c : ForeignStorageCache) : Outcome unit ForeignStorageCache :=
  match visited with
  | [] => Ok tt c
  | chunk_key :: rest =>
      match eraseChunkByIterator c chunk_key with
      | Ok _ c' => erase_chunks_in_order rest c'
      | Throw e c' => Throw e c'
      | Abort => Abort
      end
  end.

Definition erase_keys (visited : list ChunkKey) (s : KeySet) : KeySet :=
  fold_left (fun acc k => set_erase k acc) visited s.

Definition clearForTablePrefix (c : ForeignStorageCache)
    (chunk_prefix : ChunkKey) : Outcome unit ForeignStorageCache :=
  match chunk_prefix with
  | [db_id; table_id] =>
      match erase_chunks_in_order
              (prefix_range chunk_prefix (cached_chunks_ c)) c with
      | Abort => Abort
      | Throw e c' => Throw e c'
      | Ok _ c1 =>
          let c2 :=
            set_cached_metadata c1
              (erase_keys (prefix_range chunk_prefix (cached_metadata_ c1))
                 (cached_metadata_ c1)) in
          Ok tt
            (set_file_mgr c2
               (removeTableRelatedDS (global_file_mgr_ c2) db_id table_id))
      end
  | _ => Abort
  end.

(** The loop of [setLimit] over [eviction_tracker_map_], in key order. *)
Fixpoint evict_trackers (max_pages : Z) (trackers : KeyMap TableEvictionTracker)
    (chunks : KeySet) (fm : GlobalFileMgr)
  : Outcome unit (KeyMap TableEvictionTracker * KeySet * GlobalFileMgr) :=
  match trackers with
  | [] => Ok tt ([], chunks, fm)
  | (table_key, tracker) :: rest =>
      match evict_while (fun num_pages => num_pages >? max_pages)
              (eviction_alg_ tracker) (num_pages_ tracker) chunks fm with
      | Abort => Abort
      | Throw e (tracker', chunks', fm') =>
          Throw e ((table_key, tracker') :: rest, chunks', fm')
      | Ok _ (tracker', chunks', fm') =>
          match evict_trackers max_pages rest chunks' fm' with
          | Abort => Abort
          | Throw e (rest', chunks'', fm'') =>
              Throw e ((table_key, tracker') :: rest', chunks'', fm'')
          | Ok _ (rest', chunks'', fm'') =>
              Ok tt ((table_key, tracker') :: rest', chunks'', fm'')
          end
      end
  end.

(** [MAX_FILE_N_PAGES] is a macro of the file manager's headers; it is a
    parameter here. *)
Definition file_size_of (MAX_FILE_N_PAGES : Z) (fm : GlobalFileMgr) : Z :=
  wrap (getDefaultPageSize fm * MAX_FILE_N_PAGES).

(** [setLimit]: the message of [CacheTooSmallException] spells out the two
    sizes in the source; it is shortened here.  [checkpoint] has no effect
    on this state. *)
Definition setLimit (MAX_FILE_N_PAGES : Z) (c : ForeignStorageCache) (limit : Z)
  : Outcome unit ForeignStorageCache :=
  let file_size := file_size_of MAX_FILE_N_PAGES (global_file_mgr_ c) in
  if limit <? file_size then
    Throw (CacheTooSmallException "Could not create cache: below minimum cache size") c
  else
    let max_num_files := wrap (limit + wrap (file_size - 1)) / file_size in
    let c1 := set_max_pages c (wrap (max_num_files * MAX_FILE_N_PAGES)) in
    match evict_trackers (max_pages_per_table_ c1) (eviction_tracker_map_ c1)
            (cached_chunks_ c1) (global_file_mgr_ c1) with
    | Abort => Abort
    | Throw e (trackers, chunks, fm) =>
        Throw e (set_file_mgr (set_cached_chunks (set_tracker_map c1 trackers) chunks) fm)
    | Ok _ (trackers, chunks, fm) =>
        Ok tt
          (set_max_cached_bytes
             (set_file_mgr (set_cached_chunks (set_tracker_map c1 trackers) chunks) fm)
             limit)
    end.

(** [ChunkMetadata]: of its fields only [numBytes] is read by the code
    below; the SQL type, the element count and the chunk statistics are
    descriptive. *)
Record ChunkMetadata : Type := mkChunkMetadata { numBytes : Z }.

Definition ChunkMetadataVector : Type := list (ChunkKey * ChunkMetadata).

Definition evictThenEraseChunkUnlocked (c : ForeignStorageCache)
    (chunk_key : ChunkKey) : Outcome unit ForeignStorageCache :=
  match get_table_key chunk_key with
  | None => Abort
  | Some table_prefix =>
      match map_find table_prefix (eviction_tracker_map_ c) with
      | None => Ok tt c
      | Some tracker =>
          match eraseChunk chunk_key (num_pages_ tracker) (cached_chunks_ c)
                  (global_file_mgr_ c) with
          | None => Abort
          | Some (num_pages', chunks', fm') =>
              Ok tt
                (set_eviction_parts c table_prefix
                   (mkTracker (removeChunk chunk_key (eviction_alg_ tracker))
                      num_pages')
                   chunks' fm')
          end
      end
  end.

(** [set_metadata_for_buffer]: the buffer takes the size of the metadata. *)
Definition set_metadata_for_buffer (fm : GlobalFileMgr) (k : ChunkKey)
    (b : FileBuffer) (meta : ChunkMetadata) : GlobalFileMgr :=
  set_buffer fm k (mkFileBuffer (numBytes meta) (fb_pages b)).

Definition index_chunk_key_of (chunk_key : ChunkKey) : option ChunkKey :=
  match chunk_key with
  | [db; tb; col; frag; _] => Some [db; tb; col; frag; 2]
  | _ => None
  end.

(** One round of the loop of [cacheMetadataVec]. *)
Definition cacheMetadata_one (c : ForeignStorageCache) (chunk_key : ChunkKey)
    (metadata : ChunkMetadata) : Outcome unit ForeignStorageCache :=
  let c0 := set_cached_metadata c (set_emplace chunk_key (cached_metadata_ c)) in
  if is_varlen_key chunk_key && negb (is_varlen_data_key chunk_key) then Abort
  else
    let index_chunk_key :=
      if is_varlen_key chunk_key then index_chunk_key_of chunk_key else None in
    let fm := global_file_mgr_ c0 in
    let created :=
      if negb (isBufferOnDevice fm chunk_key) then
        match index_chunk_key with
        | Some ik =>
            if isBufferOnDevice fm ik then None
            else Some (createBuffer (createBuffer fm chunk_key) ik)
        | None => Some (createBuffer fm chunk_key)
        end
      else
        match index_chunk_key with
        | Some ik => if isBufferOnDevice fm ik then Some fm else None
        | None => Some fm
        end in
    match created with
    | None => Abort
    | Some fm1 =>
        match getBuffer fm1 chunk_key with
        | None => Abort
        | Some buf =>
            let c1 :=
              set_file_mgr c0 (set_metadata_for_buffer fm1 chunk_key buf metadata) in
            match evictThenEraseChunkUnlocked c1 chunk_key with
            | Abort => Abort
            | Throw e c2 => Throw e c2
            | Ok _ c2 =>
                match index_chunk_key with
                | None => Ok tt (incr_metadata_added c2)
                | Some ik =>
                    match evictThenEraseChunkUnlocked c2 ik with
                    | Abort => Abort
                    | Throw e c3 => Throw e c3
                    | Ok _ c3 => Ok tt (incr_metadata_added c3)
                    end
                end
            end
        end
    end.

Fixpoint cacheMetadataVec (c : ForeignStorageCache)
    (metadata_vec : ChunkMetadataVector) : Outcome unit ForeignStorageCache :=
  match metadata_vec with
  | [] => Ok tt c
  | (chunk_key, metadata) :: rest =>
      match cacheMetadata_one c chunk_key metadata with
      | Abort => Abort
      | Throw e c' => Throw e c'
      | Ok _ c' => cacheMetadataVec c' rest
      end
  end.

Definition fragment_id_of (chunk_key : ChunkKey) : option Z :=
  nth_error chunk_key CHUNK_KEY_FRAGMENT_IDX.

Definition cacheMetadataWithFragIdGreaterOrEqualTo (c : ForeignStorageCache)
    (metadata_vec : ChunkMetadataVector) (frag_id : Z)
  : Outcome unit ForeignStorageCache :=
  if forallb (fun km => match fragment_id_of (fst km) with
                        | Some _ => true | None => false end) metadata_vec
  then
    cacheMetadataVec c
      (filter (fun km => match fragment_id_of (fst km) with
                         | Some f => f >=? frag_id
                         | None => false
                         end) metadata_vec)
  else Abort.

(** The metadata the file manager holds for the buffers of a table, in key
    order ([GlobalFileMgr::getChunkMetadataVecForKeyPrefix] of the file
    manager modelled above). *)
Definition fm_metadata_for_prefix (fm : GlobalFileMgr) (table_key : ChunkKey)
  : ChunkMetadataVector :=
  match table_key with
  | [db; tb] =>
      map (fun kv => (fst kv, mkChunkMetadata (fb_size (snd kv))))
        (filter (fun kv => has_table_prefix_of db tb (fst kv)) (buffers fm))
  | _ => []
  end.

Fixpoint recover_loop (c : ForeignStorageCache) (meta_vec : ChunkMetadataVector)
  : Outcome unit ForeignStorageCache :=
  match meta_vec with
  | [] => Ok tt c
  | (chunk_key, _) :: rest =>
      let c1 := set_cached_metadata c (set_emplace chunk_key (cached_metadata_ c)) in
      match getBuffer (global_file_mgr_ c1) chunk_key with
      | None => Abort
      | Some buf =>
          if fb_pages buf >? 0 then
            match insertChunkIntoEvictionAlg c1 chunk_key (fb_size buf) with
            | Abort => Abort
            | Throw e c2 => Throw e c2
            | Ok _ c2 => recover_loop c2 rest
            end
          else recover_loop c1 rest
      end
  end.

Definition recoverCacheForTable (c : ForeignStorageCache) (table_key : ChunkKey)
  : Outcome (bool * ChunkMetadataVector) ForeignStorageCache :=
  match createTrackerMapEntryIfNoneExists c table_key with
  | Abort => Abort
  | Throw e c' => Throw e c'
  | Ok _ c1 =>
      let meta_vec := fm_metadata_for_prefix (global_file_mgr_ c1) table_key in
      match recover_loop c1 meta_vec with
      | Abort => Abort
      | Throw e c2 => Throw e c2
      | Ok _ c2 =>
          Ok (match meta_vec with [] => false | _ :: _ => true end, meta_vec) c2
      end
  end.

Definition getCachedMetadataVecForKeyPrefix (c : ForeignStorageCache)
    (chunk_prefix : ChunkKey) : option ChunkMetadataVector :=
  fold_right
    (fun chunk acc =>
       match getBuffer (global_file_mgr_ c) chunk, acc with
       | Some b, Some l => Some ((chunk, mkChunkMetadata (fb_size b)) :: l)
       | _, _ => None
       end)
    (Some []) (prefix_range chunk_prefix (cached_metadata_ c)).

(** [getChunkBuffersForCaching]: every key must be uncached, on device and
    without pages; its buffer is reset to empty. *)
Fixpoint getChunkBuffersForCaching (c : ForeignStorageCache)
    (chunk_keys : list ChunkKey) : Outcome unit ForeignStorageCache :=
  match chunk_keys with
  | [] => Ok tt c
  | chunk_key :: rest =>
      if set_find chunk_key (cached_chunks_ c) then Abort
      else
        match getBuffer (global_file_mgr_ c) chunk_key with
        | None => Abort
        | Some b =>
            if fb_pages b =? 0 then
              getChunkBuffersForCaching
                (set_file_mgr c
                   (set_buffer (global_file_mgr_ c) chunk_key (mkFileBuffer 0 0)))
                rest
            else Abort
        end
  end.

(* ================================================================== *)
(** ** ForeignStorageMgr and CachingForeignStorageMgr *)

Inductive DataWrapperType : Type := CSV | PARQUET | OTHER_WRAPPER.

(** What lies outside the managers: the catalog, the data wrappers (which
    read the foreign storage and may fail), the buffer copy and the wall
    clock of the refresh loop. *)
Record StorageEnv : Type := mkStorageEnv {
  (** [foreign_table->foreign_server->data_wrapper_type] *)
  env_data_wrapper_type : ChunkKey -> DataWrapperType;
  (** [ForeignTable::isAppendMode] of the table *)
  env_isAppendMode : ChunkKey -> bool;
  (** [ForeignTableSchema::getLogicalColumn]: column id and physical columns *)
  env_logical_column : Z -> Z -> Z -> Z * Z;
  (** [columnType.is_varlen_indeed()] of a column *)
  env_is_varlen_indeed : Z -> Z -> Z -> bool;
  (** [ForeignDataWrapper::populateChunkMetadata]: scans the storage *)
  env_populateChunkMetadata : ChunkKey -> Exn + ChunkMetadataVector;
  (** [ForeignDataWrapper::populateChunkBuffers]: the bytes it writes *)
  env_populateChunkBuffers : ChunkKey -> list ChunkKey -> Exn + list (ChunkKey * list Z);
  (** [serializeDataWrapperInternals] and [restoreDataWrapperInternals] *)
  env_serialize : ChunkKey -> option Exn;
  env_restore : ChunkKey -> ChunkMetadataVector -> option Exn;
  (** [AbstractBuffer::copyTo(destination, num_bytes)] *)
  env_copyTo : AbstractBuffer -> AbstractBuffer -> Z -> AbstractBuffer;
  (** seconds measured by the n-th reading of the refresh clock *)
  env_elapsed_seconds : nat -> Z
}.

Record ForeignStorageMgr : Type := mkMgr {
  data_wrapper_map_ : KeyMap DataWrapperType;
  temp_chunk_buffer_map_ : KeyMap AbstractBuffer
}.

Definition fetchBufferIfTempBufferMapEntryExists (env : StorageEnv)
    (m : ForeignStorageMgr) (chunk_key : ChunkKey)
    (destination_buffer : AbstractBuffer) (num_bytes : Z)
  : option (AbstractBuffer * ForeignStorageMgr) :=
  match map_find chunk_key (temp_chunk_buffer_map_ m) with
  | None => None
  | Some buffer =>
      Some (env_copyTo env buffer destination_buffer num_bytes,
            mkMgr (data_wrapper_map_ m)
              (map_erase chunk_key (temp_chunk_buffer_map_ m)))
  end.

Definition createDataWrapperIfNotExists (env : StorageEnv)
    (m : ForeignStorageMgr) (chunk_key : ChunkKey)
  : Outcome bool ForeignStorageMgr :=
  match get_table_key chunk_key with
  | None => Abort
  | Some table_key =>
      match map_find table_key (data_wrapper_map_ m) with
      | Some _ => Ok false m
      | None =>
          match env_data_wrapper_type env table_key with
          | OTHER_WRAPPER => Throw (RuntimeError "Unsupported data wrapper") m
          | ty =>
              Ok true
                (mkMgr (map_set table_key ty (data_wrapper_map_ m))
                   (temp_chunk_buffer_map_ m))
          end
      end
  end.

Definition hasDataWrapper (m : ForeignStorageMgr) (table_key : ChunkKey) : bool :=
  match map_find table_key (data_wrapper_map_ m) with
  | Some _ => true
  | None => false
  end.

Definition createAndPopulateDataWrapperIfNotExists (env : StorageEnv)
    (m : ForeignStorageMgr) (chunk_key : ChunkKey)
  : Outcome unit ForeignStorageMgr :=
  match get_table_key chunk_key with
  | None => Abort
  | Some table_key =>
      match createDataWrapperIfNotExists env m table_key with
      | Abort => Abort
      | Throw e m' => Throw e m'
      | Ok false m' => Ok tt m'
      | Ok true m' =>
          match env_populateChunkMetadata env table_key with
          | inl e => Throw e m'
          | inr _ => Ok tt m'
          end
      end
  end.

Fixpoint keys_for_columns (env : StorageEnv) (db_id table_id fragment_id : Z)
    (column_id : Z) (columns : nat) : list ChunkKey :=
  match columns with
  | O => []
  | S n =>
      (if env_is_varlen_indeed env db_id table_id column_id
       then [[db_id; table_id; column_id; fragment_id; 1];
             [db_id; table_id; column_id; fragment_id; 2]]
       else [[db_id; table_id; column_id; fragment_id]])
      ++ keys_for_columns env db_id table_id fragment_id (column_id + 1) n
  end.

Definition get_keys_vec_from_table (env : StorageEnv)
    (destination_chunk_key : ChunkKey) : option (list ChunkKey) :=
  match destination_chunk_key with
  | db_id :: table_id :: destination_column_id :: fragment_id :: _ =>
      let '(logical_column_id, physical_cols) :=
        env_logical_column env db_id table_id destination_column_id in
      Some (keys_for_columns env db_id table_id fragment_id logical_column_id
              (Z.to_nat (physical_cols + 1)))
  | _ => None
  end.

Definition get_keys_set_from_table (env : StorageEnv)
    (destination_chunk_key : ChunkKey) : option KeySet :=
  match get_keys_vec_from_table env destination_chunk_key with
  | Some keys => Some (fold_left (fun s k => set_emplace k s) keys [])
  | None => None
  end.

Definition ForeignStorageBuffer : AbstractBuffer := mkAbstractBuffer [] false.

Definition allocateTempBuffersForChunks (m : ForeignStorageMgr)
    (chunk_keys : KeySet) : ForeignStorageMgr :=
  mkMgr (data_wrapper_map_ m)
    (fold_left (fun t k => map_set k ForeignStorageBuffer t) chunk_keys
       (temp_chunk_buffer_map_ m)).

(** The wrapper writes through the pointers it is given: the temporary
    buffers are the objects held by [temp_chunk_buffer_map_]. *)
Definition write_temp_buffers (m : ForeignStorageMgr) (temp_keys : KeySet)
    (written : list (ChunkKey * list Z)) : ForeignStorageMgr :=
  mkMgr (data_wrapper_map_ m)
    (fold_left
       (fun t kb =>
          if set_find (fst kb) temp_keys
          then map_set (fst kb) (mkAbstractBuffer (snd kb) false) t
          else t)
       written (temp_chunk_buffer_map_ m)).

Definition write_destination (chunk_key : ChunkKey)
    (destination_buffer : AbstractBuffer) (written : list (ChunkKey * list Z))
  : AbstractBuffer :=
  match map_find chunk_key written with
  | Some bytes => mkAbstractBuffer bytes false
  | None => destination_buffer
  end.

(** The part of [fetchBuffer] after the temporary-buffer test. *)
Definition fetchBufferThroughDataWrapper (env : StorageEnv)
    (m : ForeignStorageMgr) (chunk_key : ChunkKey)
    (destination_buffer : AbstractBuffer)
  : Outcome AbstractBuffer ForeignStorageMgr :=
  match createAndPopulateDataWrapperIfNotExists env m chunk_key with
  | Abort => Abort
  | Throw e m' => Throw e m'
  | Ok _ m1 =>
      match get_keys_set_from_table env chunk_key, get_table_key chunk_key with
      | Some all_keys, Some table_key =>
          let chunk_keys := set_erase chunk_key all_keys in
          let m2 := allocateTempBuffersForChunks m1 chunk_keys in
          if hasDataWrapper m2 table_key then
            match env_populateChunkBuffers env table_key
                    (set_emplace chunk_key chunk_keys) with
            | inl e => Throw e m2
            | inr written =>
                Ok (write_destination chunk_key destination_buffer written)
                  (write_temp_buffers m2 chunk_keys written)
            end
          else Abort
      | _, _ => Abort
      end
  end.

Definition fetchBuffer (env : StorageEnv) (m : ForeignStorageMgr)
    (chunk_key : ChunkKey) (destination_buffer : AbstractBuffer) (num_bytes : Z)
  : Outcome AbstractBuffer ForeignStorageMgr :=
  if buf_dirty destination_buffer then Abort
  else
    match fetchBufferIfTempBufferMapEntryExists env m chunk_key
            destination_buffer num_bytes with
    | Some (destination_buffer', m') => Ok destination_buffer' m'
    | None => fetchBufferThroughDataWrapper env m chunk_key destination_buffer
    end.

Definition clearTempChunkBufferMapEntriesForTable (m : ForeignStorageMgr)
    (table_key : ChunkKey) : option ForeignStorageMgr :=
  if is_table_key table_key then
    Some (mkMgr (data_wrapper_map_ m)
            (fold_left (fun t k => map_erase k t)
               (prefix_range table_key (map_keys (temp_chunk_buffer_map_ m)))
               (temp_chunk_buffer_map_ m)))
  else None.

Definition ForeignStorageMgr_getChunkMetadataVecForKeyPrefix (env : StorageEnv)
    (m : ForeignStorageMgr) (keyPrefix : ChunkKey)
  : Outcome ChunkMetadataVector ForeignStorageMgr :=
  if negb (is_table_key keyPrefix) then Abort
  else
    match createDataWrapperIfNotExists env m keyPrefix with
    | Abort => Abort
    | Throw e m' => Throw e m'
    | Ok _ m' =>
        match env_populateChunkMetadata env keyPrefix with
        | inl e => Throw e m'
        | inr chunk_metadata => Ok chunk_metadata m'
        end
    end.

Definition removeTableRelatedDS_mgr (m : ForeignStorageMgr) (db_id table_id : Z)
  : option ForeignStorageMgr :=
  clearTempChunkBufferMapEntriesForTable
    (mkMgr (map_erase [db_id; table_id] (data_wrapper_map_ m))
       (temp_chunk_buffer_map_ m))
    [db_id; table_id].

Record CachingForeignStorageMgr : Type := mkCachingMgr {
  base_mgr : ForeignStorageMgr;
  disk_cache_ : ForeignStorageCache
}.

Definition MAX_REFRESH_TIME_IN_SECONDS : Z := 60 * 60.

Definition lift_mgr {R : Type} (cm : CachingForeignStorageMgr)
    (o : Outcome R ForeignStorageMgr) : Outcome R CachingForeignStorageMgr :=
  match o with
  | Ok r m => Ok r (mkCachingMgr m (disk_cache_ cm))
  | Throw e m => Throw e (mkCachingMgr m (disk_cache_ cm))
  | Abort => Abort
  end.

Definition lift_cache {R : Type} (cm : CachingForeignStorageMgr)
    (o : Outcome R ForeignStorageCache) : Outcome R CachingForeignStorageMgr :=
  match o with
  | Ok r c => Ok r (mkCachingMgr (base_mgr cm) c)
  | Throw e c => Throw e (mkCachingMgr (base_mgr cm) c)
  | Abort => Abort
  end.

(** [CachingForeignStorageMgr::getChunkMetadataVecForKeyPrefix]: the scan of
    the storage, then the serialisation of the wrapper's state. *)
Definition getChunkMetadataVecForKeyPrefix (env : StorageEnv)
    (cm : CachingForeignStorageMgr) (keyPrefix : ChunkKey)
  : Outcome ChunkMetadataVector CachingForeignStorageMgr :=
  match lift_mgr cm
          (ForeignStorageMgr_getChunkMetadataVecForKeyPrefix env (base_mgr cm)
             keyPrefix) with
  | Abort => Abort
  | Throw e cm' => Throw e cm'
  | Ok chunk_metadata cm' =>
      match env_serialize env keyPrefix with
      | Some e => Throw e cm'
      | None => Ok chunk_metadata cm'
      end
  end.

Definition createOrRecoverDataWrapperIfNotExists (env : StorageEnv)
    (cm : CachingForeignStorageMgr) (chunk_key : ChunkKey)
  : Outcome unit CachingForeignStorageMgr :=
  match get_table_key chunk_key with
  | None => Abort
  | Some table_key =>
      match lift_mgr cm
              (createDataWrapperIfNotExists env (base_mgr cm) table_key) with
      | Abort => Abort
      | Throw e cm' => Throw e cm'
      | Ok false cm' => Ok tt cm'
      | Ok true cm' =>
          if hasCachedMetadataForKeyPrefix (disk_cache_ cm') table_key then
            match getCachedMetadataVecForKeyPrefix (disk_cache_ cm') table_key with
            | None => Abort
            | Some chunk_metadata =>
                match env_restore env table_key chunk_metadata with
                | Some e => Throw e cm'
                | None => Ok tt cm'
                end
            end
          else
            match env_populateChunkMetadata env table_key with
            | inl e => Throw e cm'
            | inr _ => Ok tt cm'
            end
      end
  end.

(** The wrapper fills the cache's file buffers: the buffers are first
    obtained with [getChunkBuffersForCaching], then written. *)
Definition populate_cache_buffers (env : StorageEnv)
    (cm : CachingForeignStorageMgr) (table_key : ChunkKey)
    (chunk_keys : list ChunkKey) : Outcome unit CachingForeignStorageMgr :=
  match lift_cache cm (getChunkBuffersForCaching (disk_cache_ cm) chunk_keys) with
  | Abort => Abort
  | Throw e cm' => Throw e cm'
  | Ok _ cm1 =>
      if hasDataWrapper (base_mgr cm1) table_key then
        match env_populateChunkBuffers env table_key chunk_keys with
        | inl e => Throw e cm1
        | inr written =>
            let c := disk_cache_ cm1 in
            Ok tt
              (mkCachingMgr (base_mgr cm1)
                 (set_file_mgr c
                    (fold_left
                       (fun fm kb =>
                          if existsb (key_eqb (fst kb)) chunk_keys
                          then putBuffer fm (fst kb)
                                 (wrap (Z.of_nat (List.length (snd kb))))
                          else fm)
                       written (global_file_mgr_ c))))
        end
      else Abort
  end.

(** The [for] loop of [refreshChunksInCacheByFragment]; it returns the keys
    of the fragment in progress and the keys to be cached. *)
Fixpoint refresh_loop (env : StorageEnv) (table_key : ChunkKey)
    (start_frag_id : Z) (old_chunk_keys : list ChunkKey) (fragment_id : Z)
    (chunk_keys_in_fragment chunk_keys_to_be_cached : list ChunkKey)
    (total_time : Z) (reading : nat) (cm : CachingForeignStorageMgr)
  : Outcome (list ChunkKey * list ChunkKey) CachingForeignStorageMgr :=
  match old_chunk_keys with
  | [] => Ok (chunk_keys_in_fragment, chunk_keys_to_be_cached) cm
  | chunk_key :: rest =>
      match fragment_id_of chunk_key with
      | None => Abort
      | Some frag =>
          let collect fragment_id' in_fragment total_time' reading' cm' :=
            if is_varlen_key chunk_key then
              if is_varlen_data_key chunk_key then
                match index_chunk_key_of chunk_key with
                | Some index_chunk_key =>
                    refresh_loop env table_key start_frag_id rest fragment_id'
                      (in_fragment ++ [index_chunk_key; chunk_key])
                      (chunk_keys_to_be_cached ++ [index_chunk_key; chunk_key])
                      total_time' reading' cm'
                | None => Abort
                end
              else Abort
            else
              refresh_loop env table_key start_frag_id rest fragment_id'
                (in_fragment ++ [chunk_key])
                (chunk_keys_to_be_cached ++ [chunk_key])
                total_time' reading' cm' in
          if frag <? start_frag_id then
            refresh_loop env table_key start_frag_id rest fragment_id
              chunk_keys_in_fragment chunk_keys_to_be_cached total_time reading cm
          else if isMetadataCached (disk_cache_ cm) chunk_key then
            if negb (frag =? fragment_id) then
              match
                match chunk_keys_in_fragment with
                | [] => Ok tt cm
                | _ :: _ =>
                    populate_cache_buffers env cm table_key chunk_keys_in_fragment
                end
              with
              | Abort => Abort
              | Throw e cm' => Throw e cm'
              | Ok _ cm1 =>
                  let total_time' := total_time + env_elapsed_seconds env reading in
                  if total_time' >=? MAX_REFRESH_TIME_IN_SECONDS then
                    Ok ([], chunk_keys_to_be_cached) cm1
                  else collect frag [] total_time' (S reading) cm1
              end
            else collect fragment_id chunk_keys_in_fragment total_time reading cm
          else
            refresh_loop env table_key start_frag_id rest fragment_id
              chunk_keys_in_fragment chunk_keys_to_be_cached total_time reading cm
      end
  end.

Definition refreshChunksInCacheByFragment (env : StorageEnv)
    (cm : CachingForeignStorageMgr) (old_chunk_keys : list ChunkKey)
    (start_frag_id : Z) : Outcome unit CachingForeignStorageMgr :=
  match old_chunk_keys with
  | [] => Ok tt cm
  | first :: _ =>
      match fragment_id_of first, get_table_key first with
      | Some fragment_id, Some table_key =>
          match refresh_loop env table_key start_frag_id old_chunk_keys
                  fragment_id [] [] 0 O cm with
          | Abort => Abort
          | Throw e cm' => Throw e cm'
          | Ok (chunk_keys_in_fragment, chunk_keys_to_be_cached) cm1 =>
              match
                match chunk_keys_in_fragment with
                | [] => Ok tt cm1
                | _ :: _ =>
                    populate_cache_buffers env cm1 table_key chunk_keys_in_fragment
                end
              with
              | Abort => Abort
              | Throw e cm' => Throw e cm'
              | Ok _ cm2 =>
                  lift_cache cm2
                    (cacheTableChunks (disk_cache_ cm2) chunk_keys_to_be_cached)
              end
          end
      | _, _ => Abort
      end
  end.

(** [try { body } catch (std::runtime_error& e) { throw PostEvictionRefreshException(e); }] *)
Definition rethrow_post_eviction {R S : Type} (o : Outcome R S) : Outcome R S :=
  match o with
  | Throw e s =>
      if is_runtime_error e then Throw (PostEvictionRefreshException e) s
      else Throw e s
  | _ => o
  end.

Definition getHighestCachedFragId (c : ForeignStorageCache)
    (table_key : ChunkKey) : option Z :=
  if hasCachedMetadataForKeyPrefix c table_key then
    match getCachedMetadataVecForKeyPrefix c table_key with
    | None => None
    | Some cached_metadata =>
        fold_left
          (fun acc km =>
             match acc, fragment_id_of (fst km) with
             | Some last_frag_id, Some f => Some (Z.max last_frag_id f)
             | _, _ => None
             end)
          cached_metadata (Some 0)
    end
  else Some 0.

Definition refreshAppendTableInCache (env : StorageEnv)
    (cm : CachingForeignStorageMgr) (table_key : ChunkKey)
    (old_chunk_keys : list ChunkKey) : Outcome unit CachingForeignStorageMgr :=
  if negb (is_table_key table_key) then Abort
  else
    match createOrRecoverDataWrapperIfNotExists env cm table_key with
    | Abort => Abort
    | Throw e cm' => Throw e cm'
    | Ok _ cm1 =>
        match getHighestCachedFragId (disk_cache_ cm1) table_key with
        | None => Abort
        | Some last_frag_id =>
            match getChunkMetadataVecForKeyPrefix env cm1 table_key with
            | Abort => Abort
            | Throw e cm' => Throw e cm'
            | Ok storage_metadata cm2 =>
                rethrow_post_eviction
                  match lift_cache cm2
                          (cacheMetadataWithFragIdGreaterOrEqualTo
                             (disk_cache_ cm2) storage_metadata last_frag_id) with
                  | Abort => Abort
                  | Throw e cm' => Throw e cm'
                  | Ok _ cm3 =>
                      refreshChunksInCacheByFragment env cm3 old_chunk_keys
                        last_frag_id
                  end
            end
        end
    end.

(** The storage is scanned first; only when the scan has returned is the
    table's cached state cleared. *)
Definition refreshNonAppendTableInCache (env : StorageEnv)
    (cm : CachingForeignStorageMgr) (table_key : ChunkKey)
    (old_chunk_keys : list ChunkKey) : Outcome unit CachingForeignStorageMgr :=
  if negb (is_table_key table_key) then Abort
  else
    match getChunkMetadataVecForKeyPrefix env cm table_key with
    | Abort => Abort
    | Throw e cm' => Throw e cm'
    | Ok storage_metadata cm1 =>
        match lift_cache cm1 (clearForTablePrefix (disk_cache_ cm1) table_key) with
        | Abort => Abort
        | Throw e cm' => Throw e cm'
        | Ok _ cm2 =>
            rethrow_post_eviction
              match lift_cache cm2
                      (cacheMetadataVec (disk_cache_ cm2) storage_metadata) with
              | Abort => Abort
              | Throw e cm' => Throw e cm'
              | Ok _ cm3 =>
                  refreshChunksInCacheByFragment env cm3 old_chunk_keys 0
              end
        end
    end.

Definition refreshTableInCache (env : StorageEnv)
    (cm : CachingForeignStorageMgr) (table_key : ChunkKey)
  : Outcome unit CachingForeignStorageMgr :=
  if negb (is_table_key table_key) then Abort
  else
    match
      if negb (hasCachedMetadataForKeyPrefix (disk_cache_ cm) table_key) then
        match lift_cache cm (recoverCacheForTable (disk_cache_ cm) table_key) with
        | Abort => Abort
        | Throw e cm' => Throw e cm'
        | Ok _ cm' => Ok tt cm'
        end
      else Ok tt cm
    with
    | Abort => Abort
    | Throw e cm' => Throw e cm'
    | Ok _ cm1 =>
        let old_chunk_keys :=
          getCachedChunksForKeyPrefix (disk_cache_ cm1) table_key in
        if env_isAppendMode env table_key
        then refreshAppendTableInCache env cm1 table_key old_chunk_keys
        else refreshNonAppendTableInCache env cm1 table_key old_chunk_keys
    end.

Definition refreshTable (env : StorageEnv) (cm : CachingForeignStorageMgr)
    (table_key : ChunkKey) (evict_cached_entries : bool)
  : Outcome unit CachingForeignStorageMgr :=
  match clearTempChunkBufferMapEntriesForTable (base_mgr cm) table_key with
  | None => Abort
  | Some m1 =>
      let cm1 := mkCachingMgr m1 (disk_cache_ cm) in
      if evict_cached_entries
      then lift_cache cm1 (clearForTablePrefix (disk_cache_ cm1) table_key)
      else refreshTableInCache env cm1 table_key
  end.

(* ================================================================== *)
(** ** BaselineJoinHashTable: layouts, buffer regions, caches *)

Inductive HashType : Type := OneToOne | OneToMany | ManyToMany.

Definition HashType_eqb (a b : HashType) : bool :=
  match a, b with
  | OneToOne, OneToOne | OneToMany, OneToMany | ManyToMany, ManyToMany => true
  | _, _ => false
  end.

Inductive MemoryLevel : Type := CPU_LEVEL | GPU_LEVEL.

Inductive SQLOps : Type := kEQ | kBW_EQ | kOVERLAPS.

Definition SQLOps_eqb (a b : SQLOps) : bool :=
  match a, b with
  | kEQ, kEQ | kBW_EQ, kBW_EQ | kOVERLAPS, kOVERLAPS => true
  | _, _ => false
  end.

(** Modelled from the spec: [layoutRequiresAdditionalBuffers] is declared in
    a header that is not in the fragment; the offsets, counts and payload
    regions exist "only when layout is not OneToOne". *)
Definition layoutRequiresAdditionalBuffers (layout : HashType) : bool :=
  match layout with
  | OneToOne => false
  | OneToMany | ManyToMany => true
  end.

(** The region functions read four things of the object: [entry_count_],
    the number of column pairs, the component width and the layout of the
    table.  [getKeyBufferSize] checks that the width is 4 or 8. *)
Definition getKeyBufferSize (entry_count key_component_count
    key_component_width : Z) (layout : HashType) : option Z :=
  if (key_component_width =? 4) || (key_component_width =? 8) then
    if layoutRequiresAdditionalBuffers layout then
      Some (wrap (wrap (entry_count * key_component_count) * key_component_width))
    else
      Some (wrap (wrap (entry_count * wrap (key_component_count + 1))
                  * key_component_width))
  else None.

Definition getComponentBufferSize (entry_count : Z) : Z :=
  wrap (entry_count * 4).

Definition offsetBufferOff (entry_count key_component_count
    key_component_width : Z) (layout : HashType) : option Z :=
  getKeyBufferSize entry_count key_component_count key_component_width layout.

Definition countBufferOff (entry_count key_component_count
    key_component_width : Z) (layout : HashType) : option Z :=
  if layoutRequiresAdditionalBuffers layout then
    match offsetBufferOff entry_count key_component_count key_component_width
            layout with
    | Some off => Some (wrap (off + getComponentBufferSize entry_count))
    | None => None
    end
  else getKeyBufferSize entry_count key_component_count key_component_width layout.

Definition payloadBufferOff (entry_count key_component_count
    key_component_width : Z) (layout : HashType) : option Z :=
  if layoutRequiresAdditionalBuffers layout then
    match countBufferOff entry_count key_component_count key_component_width
            layout with
    | Some off => Some (wrap (off + getComponentBufferSize entry_count))
    | None => None
    end
  else getKeyBufferSize entry_count key_component_count key_component_width layout.

(** *** HashTypeCache *)

Definition HashTypeCache : Type := list (list ChunkKey * HashType).

Fixpoint chunk_keys_eqb (a b : list ChunkKey) : bool :=
  match a, b with
  | [], [] => true
  | x :: a', y :: b' => key_eqb x y && chunk_keys_eqb a' b'
  | _, _ => false
  end.

Fixpoint hash_type_find (key : list ChunkKey) (m : HashTypeCache)
  : option HashType :=
  match m with
  | [] => None
  | (k, v) :: m' => if chunk_keys_eqb key k then Some v else hash_type_find key m'
  end.

(** [hash_type_cache_[key] = hash_type] *)
Fixpoint hash_type_assign (key : list ChunkKey) (hash_type : HashType)
    (m : HashTypeCache) : HashTypeCache :=
  match m with
  | [] => [(key, hash_type)]
  | (k, v) :: m' =>
      if chunk_keys_eqb key k then (k, hash_type) :: m'
      else (k, v) :: hash_type_assign key hash_type m'
  end.

(** The loop that opens [HashTypeCache::set], [putHashTableOnCpuToCache] and
    [getApproximateTupleCountFromCache]: a key shorter than two components
    fails the CHECK, a negative table id makes the function return. *)
Inductive KeyScan : Type := AllTablesPersistent | TemporaryTable | ShortKey.

Fixpoint scan_chunk_keys (key : list ChunkKey) : KeyScan :=
  match key with
  | [] => AllTablesPersistent
  | chunk_key :: rest =>
      match chunk_key with
      | _ :: table_id :: _ =>
          if table_id <? 0 then TemporaryTable else scan_chunk_keys rest
      | _ => ShortKey
      end
  end.

Definition HashTypeCache_set (m : HashTypeCache) (key : list ChunkKey)
    (hash_type : HashType) : option HashTypeCache :=
  match scan_chunk_keys key with
  | ShortKey => None
  | TemporaryTable => Some m
  | AllTablesPersistent => Some (hash_type_assign key hash_type m)
  end.

Definition HashTypeCache_get (m : HashTypeCache) (key : list ChunkKey)
  : HashType * bool :=
  match hash_type_find key m with
  | None => (OneToOne, false)
  | Some hash_type => (hash_type, true)
  end.

(** *** The hash table and its builder *)

Definition CompositeKey : Type := list Z.
Definition JoinColumn : Type := list Z.

Definition num_elems (c : JoinColumn) : Z := wrap (Z.of_nat (List.length c)).

Inductive HashTableContents : Type :=
| KeySlots (slots : list (option (CompositeKey * Z)))
| KeyBuckets (buckets : list (CompositeKey * list Z)).

Record BaselineHashTable : Type := mkHashTable {
  ht_layout : HashType;
  ht_entry_count : Z;
  ht_emitted_keys_count : Z;
  ht_contents : HashTableContents
}.

(** The composite keys of the rows, row by row. *)
Definition composite_keys (join_columns : list JoinColumn) : list CompositeKey :=
  match join_columns with
  | [] => []
  | first :: _ =>
      map (fun i => map (fun col => nth i col 0) join_columns)
        (seq 0 (List.length first))
  end.

Fixpoint set_slot {A : Type} (pos : nat) (v : A) (l : list A) : list A :=
  match l, pos with
  | [], _ => []
  | _ :: l', O => v :: l'
  | x :: l', S p => x :: set_slot p v l'
  end.

(** Modelled from the spec: the builder (BaselineJoinHashTableBuilder) is not
    in the fragment.  For [OneToOne] it must "hash each input row's
    composite key into a slot using an open-addressing scheme with ...
    linear probing.  On collision of distinct keys, probe next.  On
    duplicate keys, report conflict"; the conflict is error [-1], a table
    without a free slot is error [-2].  The hash function is a parameter. *)
Fixpoint write_baseline_hash_slot (slots : list (option (CompositeKey * Z)))
    (key : CompositeKey) (row : Z) (pos tries : nat)
  : Z + list (option (CompositeKey * Z)) :=
  match tries with
  | O => inl (-2)
  | S tries' =>
      match nth_error slots pos with
      | None => inl (-2)
      | Some None => inr (set_slot pos (Some (key, row)) slots)
      | Some (Some (key', _)) =>
          if key_eqb key' key then inl (-1)
          else
            write_baseline_hash_slot slots key row
              (Nat.modulo (S pos) (List.length slots)) tries'
      end
  end.

Definition home_slot (key_hash : CompositeKey -> Z) (entries : nat)
    (key : CompositeKey) : nat :=
  Z.to_nat (key_hash key mod Z.of_nat entries).

Fixpoint fill_baseline_hash_join_buff (key_hash : CompositeKey -> Z)
    (slots : list (option (CompositeKey * Z))) (keys : list CompositeKey)
    (row : Z) : Z * list (option (CompositeKey * Z)) :=
  match keys with
  | [] => (0, slots)
  | key :: rest =>
      match write_baseline_hash_slot slots key row
              (home_slot key_hash (List.length slots) key) (List.length slots) with
      | inl err => (err, slots)
      | inr slots' => fill_baseline_hash_join_buff key_hash slots' rest (row + 1)
      end
  end.

(** Modelled from the spec: for the layouts with several rows per key the
    builder makes two passes, counting the rows of every key and then
    writing "each row's id" into the bucket of its key; "only the set
    membership" of a bucket is fixed.  It reports no conflict. *)
Fixpoint add_to_bucket (key : CompositeKey) (row : Z)
    (buckets : list (CompositeKey * list Z)) : list (CompositeKey * list Z) :=
  match buckets with
  | [] => [(key, [row])]
  | (k, rows) :: rest =>
      if key_eqb k key then (k, rows ++ [row]) :: rest
      else (k, rows) :: add_to_bucket key row rest
  end.

Fixpoint fill_one_to_many_baseline_hash_table (keys : list CompositeKey)
    (row : Z) (buckets : list (CompositeKey * list Z))
  : list (CompositeKey * list Z) :=
  match keys with
  | [] => buckets
  | key :: rest =>
      fill_one_to_many_baseline_hash_table rest (row + 1)
        (add_to_bucket key row buckets)
  end.

Definition initHashTableOnCpu (key_hash : CompositeKey -> Z)
    (join_columns : list JoinColumn) (entry_count emitted_keys_count : Z)
    (layout : HashType) : Z * BaselineHashTable :=
  match layout with
  | OneToOne =>
      let '(err, slots) :=
        fill_baseline_hash_join_buff key_hash
          (repeat None (Z.to_nat entry_count)) (composite_keys join_columns) 0 in
      (err, mkHashTable layout entry_count emitted_keys_count (KeySlots slots))
  | _ =>
      (0, mkHashTable layout entry_count emitted_keys_count
            (KeyBuckets
               (fill_one_to_many_baseline_hash_table
                  (composite_keys join_columns) 0 [])))
  end.

(** *** The join hash table *)

(** One pair of [inner_outer_pairs_], by what the code reads of it. *)
Record InnerOuter : Type := mkInnerOuter {
  inner_table_id : Z;
  inner_column_id : Z;
  inner_logical_size : Z;
  inner_is_virtual : bool;
  (** the generation of the outer dictionary, when the inner column is a
      string whose dictionary differs from the outer one *)
  outer_dict_generation : option Z;
  (** [needs_dictionary_translation] of the pair *)
  needs_dict_translation : bool;
  outer_is_array : bool
}.

Record HashTableCacheKey : Type := mkHashTableCacheKey {
  num_elements : Z;
  chunk_keys : list ChunkKey;
  optype : SQLOps
}.

Definition HashTableCacheKey_eqb (a b : HashTableCacheKey) : bool :=
  (num_elements a =? num_elements b)
  && chunk_keys_eqb (chunk_keys a) (chunk_keys b)
  && SQLOps_eqb (optype a) (optype b).

(** What the object is built from and what lies outside it: the condition,
    the catalog, the column fetcher, the distinct-count estimator and the
    hash function of the builder. *)
Record JoinEnv : Type := mkJoinEnv {
  env_db_id : Z;
  inner_outer_pairs_ : list InnerOuter;
  condition_optype : SQLOps;
  memory_level_ : MemoryLevel;
  device_count_ : Z;
  (** [query_info.getNumTuplesUpperBound()] and [query_info.fragments.empty()] *)
  num_tuples_upper_bound : Z;
  fragments_empty : bool;
  (** [fetchJoinColumn] for a device and a pair *)
  fetchJoinColumn : Z -> InnerOuter -> Exn + JoinColumn;
  (** the HyperLogLog estimate of the distinct tuples *)
  approximate_distinct_tuples : list JoinColumn -> Z;
  (** the hash of the builder *)
  key_hash : CompositeKey -> Z;
  (** [get_entries_per_device(total, shard_count, device_count, level)] *)
  get_entries_per_device : Z -> Z -> Z -> MemoryLevel -> Z;
  (** [get_shard_count] of a pair *)
  get_shard_count : InnerOuter -> Z;
  g_cluster : bool;
  inner_table_is_replicated : bool;
  inner_table_name : string
}.

Definition is_overlaps_oper (env : JoinEnv) : bool :=
  SQLOps_eqb (condition_optype env) kOVERLAPS.

Definition isBitwiseEq (env : JoinEnv) : bool :=
  SQLOps_eqb (condition_optype env) kBW_EQ.

Record BaselineJoinHashTable : Type := mkJoinHashTable {
  entry_count_ : Z;
  emitted_keys_count_ : Z;
  hash_tables_for_device_ : list (option BaselineHashTable)
}.

(** The object together with the two process-wide caches. *)
Record JoinState : Type := mkJoinState {
  table_ : BaselineJoinHashTable;
  hash_type_cache_ : HashTypeCache;
  hash_table_cache_ : list (HashTableCacheKey * BaselineHashTable)
}.

Definition set_table (s : JoinState) (t : BaselineJoinHashTable) : JoinState :=
  mkJoinState t (hash_type_cache_ s) (hash_table_cache_ s).

Definition getKeyComponentCount (env : JoinEnv) : Z :=
  wrap (Z.of_nat (List.length (inner_outer_pairs_ env))).

(** [None] when [CHECK_EQ(8, logical_size)] fails. *)
Fixpoint key_component_width_of (pairs : list InnerOuter) : option Z :=
  match pairs with
  | [] => Some 4
  | p :: rest =>
      if inner_logical_size p >? 4 then
        if inner_logical_size p =? 8 then Some 8 else None
      else key_component_width_of rest
  end.

Definition getKeyComponentWidth (env : JoinEnv) : option Z :=
  key_component_width_of (inner_outer_pairs_ env).

Fixpoint shard_count_for_pairs (env : JoinEnv) (pairs : list InnerOuter) : Z :=
  match pairs with
  | [] => 0
  | p :: rest =>
      if get_shard_count env p =? 0 then shard_count_for_pairs env rest
      else get_shard_count env p
  end.

Definition getShardCountForCondition (env : JoinEnv) : Z :=
  shard_count_for_pairs env (inner_outer_pairs_ env).

Definition shardCount (env : JoinEnv) : Z :=
  match memory_level_ env with
  | GPU_LEVEL => getShardCountForCondition env
  | CPU_LEVEL => 0
  end.

Definition getInnerTableId (env : JoinEnv) : option Z :=
  match inner_outer_pairs_ env with
  | [] => None
  | p :: _ => Some (inner_table_id p)
  end.

(** [cache_key_chunks] of [getCompositeKeyInfo]. *)
Definition cache_key_chunks (env : JoinEnv) : list ChunkKey :=
  map (fun p =>
         [env_db_id env; inner_table_id p; inner_column_id p]
         ++ match outer_dict_generation p with
            | Some generation => [generation]
            | None => []
            end)
    (inner_outer_pairs_ env).

Definition getEffectiveMemoryLevel (env : JoinEnv) : MemoryLevel :=
  if existsb needs_dict_translation (inner_outer_pairs_ env)
  then CPU_LEVEL
  else memory_level_ env.

Definition freeHashBufferMemory (s : JoinState) : JoinState :=
  set_table s
    (mkJoinHashTable (entry_count_ (table_ s)) (emitted_keys_count_ (table_ s))
       (repeat None (List.length (hash_tables_for_device_ (table_ s))))).

Fixpoint hash_table_cache_find (key : HashTableCacheKey)
    (m : list (HashTableCacheKey * BaselineHashTable)) : option BaselineHashTable :=
  match m with
  | [] => None
  | (k, v) :: m' =>
      if HashTableCacheKey_eqb k key then Some v else hash_table_cache_find key m'
  end.

Definition initHashTableOnCpuFromCache (s : JoinState) (key : HashTableCacheKey)
  : option BaselineHashTable := hash_table_cache_find key (hash_table_cache_ s).

Fixpoint hash_table_cache_put (key : HashTableCacheKey)
    (hash_table : BaselineHashTable)
    (m : list (HashTableCacheKey * BaselineHashTable))
  : list (HashTableCacheKey * BaselineHashTable) :=
  match m with
  | [] => [(key, hash_table)]
  | (k, v) :: m' =>
      if HashTableCacheKey_eqb k key then (k, hash_table) :: m'
      else (k, v) :: hash_table_cache_put key hash_table m'
  end.

Definition putHashTableOnCpuToCache (s : JoinState) (key : HashTableCacheKey)
    (hash_table : BaselineHashTable) : option JoinState :=
  match scan_chunk_keys (chunk_keys key) with
  | ShortKey => None
  | TemporaryTable => Some s
  | AllTablesPersistent =>
      Some (mkJoinState (table_ s) (hash_type_cache_ s)
              (hash_table_cache_put key hash_table (hash_table_cache_ s)))
  end.

(** [None] is the failed CHECK; otherwise the optional count and the
    emitted keys count. *)
Definition getApproximateTupleCountFromCache (s : JoinState)
    (key : HashTableCacheKey) : option (option Z * Z) :=
  match scan_chunk_keys (chunk_keys key) with
  | ShortKey => None
  | TemporaryTable => Some (None, 0)
  | AllTablesPersistent =>
      match hash_table_cache_find key (hash_table_cache_ s) with
      | Some t => Some (Some (ht_entry_count t / 2), ht_emitted_keys_count t)
      | None => Some (None, 0)
      end
  end.

Record ColumnsForDevice : Type := mkColumnsForDevice {
  join_columns : list JoinColumn
}.

Fixpoint fetch_pairs (env : JoinEnv) (device_id : Z) (pairs : list InnerOuter)
  : Exn + list JoinColumn :=
  match pairs with
  | [] => inr []
  | p :: rest =>
      if inner_is_virtual p then inl FailedToJoinOnVirtualColumn
      else
        match fetchJoinColumn env device_id p with
        | inl e => inl e
        | inr col =>
            match fetch_pairs env device_id rest with
            | inl e => inl e
            | inr cols => inr (col :: cols)
            end
        end
  end.

Definition fetchColumnsForDevice (env : JoinEnv) (device_id : Z)
  : Exn + ColumnsForDevice :=
  match fetch_pairs env device_id (inner_outer_pairs_ env) with
  | inl e => inl e
  | inr cols => inr (mkColumnsForDevice cols)
  end.

Fixpoint fetch_devices (env : JoinEnv) (device_id : Z) (devices : nat)
  : Exn + list ColumnsForDevice :=
  match devices with
  | O => inr []
  | S n =>
      match fetchColumnsForDevice env device_id with
      | inl e => inl e
      | inr c =>
          match fetch_devices env (device_id + 1) n with
          | inl e => inl e
          | inr cs => inr (c :: cs)
          end
      end
  end.

(** The build without CUDA: the GPU branches are [UNREACHABLE()]. *)
Definition approximateTupleCount (env : JoinEnv) (s : JoinState)
    (columns_per_device : list ColumnsForDevice) : option (Z * Z) :=
  match columns_per_device with
  | front :: _ =>
      match join_columns front with
      | first :: _ =>
          match getEffectiveMemoryLevel env with
          | CPU_LEVEL =>
              match getApproximateTupleCountFromCache s
                      (mkHashTableCacheKey (num_elems first)
                         (cache_key_chunks env) (condition_optype env)) with
              | None => None
              | Some (Some count, emitted) => Some (count, emitted)
              | Some (None, _) =>
                  Some (approximate_distinct_tuples env (join_columns front), 0)
              end
          | GPU_LEVEL => None
          end
      | [] => None
      end
  | [] => None
  end.

Definition ERR_FAILED_TO_FETCH_COLUMN : Z := -3.
Definition ERR_FAILED_TO_JOIN_ON_VIRTUAL_COLUMN : Z := -4.

(** [initHashTableForDevice], CPU branch; [None] is a failed CHECK. *)
Definition initHashTableForDevice (env : JoinEnv) (s : JoinState)
    (cols : list JoinColumn) (layout : HashType)
    (effective_memory_level : MemoryLevel) (device_id : Z)
  : option (Z * JoinState) :=
  match effective_memory_level with
  | GPU_LEVEL => None
  | CPU_LEVEL =>
      match cols with
      | [] => None
      | first :: _ =>
          let cache_key :=
            mkHashTableCacheKey (num_elems first) (cache_key_chunks env)
              (condition_optype env) in
          let tables := hash_tables_for_device_ (table_ s) in
          if (match memory_level_ env with
              | CPU_LEVEL => negb (device_id =? 0)
              | GPU_LEVEL => false
              end)
             || negb (device_id <? Z.of_nat (List.length tables))
             || (device_id <? 0)
          then None
          else
            let store t :=
              mkJoinHashTable (entry_count_ (table_ s))
                (emitted_keys_count_ (table_ s))
                (set_slot (Z.to_nat device_id) (Some t) tables) in
            let built :=
              match initHashTableOnCpuFromCache s cache_key with
              | Some hash_table => Some (0, set_table s (store hash_table))
              | None =>
                  match getKeyComponentWidth env with
                  | None => None
                  | Some _ =>
                      let '(err, hash_table) :=
                        initHashTableOnCpu (key_hash env) cols
                          (entry_count_ (table_ s)) (num_elems first) layout in
                      let s1 := set_table s (store hash_table) in
                      if err =? 0 then
                        match getInnerTableId env with
                        | None => None
                        | Some id =>
                            if id >? 0 then
                              match putHashTableOnCpuToCache s1 cache_key
                                      hash_table with
                              | None => None
                              | Some s2 => Some (err, s2)
                              end
                            else Some (err, s1)
                        end
                      else Some (err, s1)
                  end
              end in
            match built with
            | None => None
            | Some (err, s') =>
                match memory_level_ env with
                | GPU_LEVEL => if err =? 0 then None else Some (err, s')
                | CPU_LEVEL => Some (err, s')
                end
            end
      end
  end.

Definition reifyForDevice (env : JoinEnv) (s : JoinState)
    (columns_for_device : ColumnsForDevice) (layout : HashType) (device_id : Z)
  : Outcome unit JoinState :=
  match initHashTableForDevice env s (join_columns columns_for_device) layout
          (getEffectiveMemoryLevel env) device_id with
  | None => Abort
  | Some (err, s') =>
      if err =? 0 then Ok tt s'
      else if err =? ERR_FAILED_TO_FETCH_COLUMN then Throw FailedToFetchColumn s'
      else if err =? ERR_FAILED_TO_JOIN_ON_VIRTUAL_COLUMN
           then Throw FailedToJoinOnVirtualColumn s'
      else Throw (HashJoinFail "Unrecognized error when initializing baseline hash table") s'
  end.

(** The builds of the devices; every one runs, and the first exception in
    device order is the one that [init_thread.get()] rethrows. *)
Fixpoint reify_devices (env : JoinEnv) (s : JoinState)
    (columns_per_device : list ColumnsForDevice) (layout : HashType)
    (device_id : Z) (pending : option Exn) : Outcome unit JoinState :=
  match columns_per_device with
  | [] =>
      match pending with
      | Some e => Throw e s
      | None => Ok tt s
      end
  | c :: rest =>
      match reifyForDevice env s c layout device_id with
      | Abort => Abort
      | Ok _ s' => reify_devices env s' rest layout (device_id + 1) pending
      | Throw e s' =>
          reify_devices env s' rest layout (device_id + 1)
            (match pending with Some e0 => Some e0 | None => Some e end)
      end
  end.

Definition reifyWithLayout (env : JoinEnv) (s : JoinState) (layout : HashType)
  : Outcome unit JoinState :=
  if fragments_empty env then Ok tt s
  else
    match fetch_devices env 0 (Z.to_nat (device_count_ env)) with
    | inl e => Throw e s
    | inr columns_per_device =>
        let sized :=
          match layout with
          | OneToMany =>
              match columns_per_device with
              | front :: _ =>
                  match join_columns front with
                  | first :: _ =>
                      match approximateTupleCount env s columns_per_device with
                      | None => None
                      | Some (tuple_count, _) =>
                          let entry_count := wrap (2 * Z.max tuple_count 1) in
                          Some (set_table s
                                  (mkJoinHashTable
                                     (get_entries_per_device env entry_count
                                        (shardCount env) (device_count_ env)
                                        (memory_level_ env))
                                     (num_elems first)
                                     (hash_tables_for_device_ (table_ s))))
                      end
                  | [] => None
                  end
              | [] => None
              end
          | _ => Some s
          end in
        match sized with
        | None => Abort
        | Some s1 => reify_devices env s1 columns_per_device layout 0 None
        end
    end.

(** Every exception the build throws is a [std::exception]: the handler of
    [reify] catches all of them. *)
Definition reify (env : JoinEnv) (s : JoinState) (preferred_layout : HashType)
  : Outcome unit JoinState :=
  if negb (0 <? device_count_ env) then Abort
  else
    let type_and_found :=
      HashTypeCache_get (hash_type_cache_ s) (cache_key_chunks env) in
    let layout :=
      if snd type_and_found then fst type_and_found else preferred_layout in
    if is_overlaps_oper env then
      match inner_outer_pairs_ env with
      | [p] =>
          reifyWithLayout env s
            (if outer_is_array p then ManyToMany else OneToMany)
      | _ => Abort
      end
    else
      match reifyWithLayout env s layout with
      | Abort => Abort
      | Ok _ s' => Ok tt s'
      | Throw _ s1 =>
          let s2 := freeHashBufferMemory s1 in
          match HashTypeCache_set (hash_type_cache_ s2) (cache_key_chunks env)
                  OneToMany with
          | None => Abort
          | Some cache' =>
              reifyWithLayout env
                (mkJoinState (table_ s2) cache' (hash_table_cache_ s2))
                OneToMany
          end
      end.

Definition checkHashJoinReplicationConstraint (env : JoinEnv) (table_id : Z)
  : option Exn :=
  if negb (g_cluster env) then None
  else if table_id >=? 0 then
    if (shardCount env =? 0) && negb (inner_table_is_replicated env)
    then Some (TableMustBeReplicated (inner_table_name env))
    else None
  else None.

(** [e.what()] *)
Definition exn_what (e : Exn) : string :=
  match e with
  | CacheTooSmallException w | RuntimeError w | TableMustBeReplicated w
  | HashJoinFail w | ColumnarConversionNotSupported w | OutOfMemory w
  | OtherException w => w
  | NoEntryFoundException => "NoEntryFoundException"
  | OutOfRange => "out_of_range"
  | PostEvictionRefreshException _ => "PostEvictionRefreshException"
  | TooManyHashEntries => "TooManyHashEntries"
  | FailedToFetchColumn => "FailedToFetchColumn"
  | FailedToJoinOnVirtualColumn => "FailedToJoinOnVirtualColumn"
  end.

(** Modelled from the spec: the exception classes are declared in headers
    that are not in the fragment; [FailedToFetchColumn] is "converted to
    HashJoinFail" and [FailedToJoinOnVirtualColumn] is "surfaced as
    HashJoinFail": both are caught by the handler of [HashJoinFail]. *)
Definition is_HashJoinFail (e : Exn) : bool :=
  match e with
  | HashJoinFail _ | FailedToFetchColumn | FailedToJoinOnVirtualColumn => true
  | _ => false
  end.

(** The handlers of [getInstance], in their order. *)
Definition getInstance_catch (e : Exn) (s : JoinState) : Outcome unit JoinState :=
  match e with
  | TableMustBeReplicated w => Throw (RuntimeError w) (freeHashBufferMemory s)
  | ColumnarConversionNotSupported w =>
      Throw (HashJoinFail ("Could not build hash tables for equijoin | " ++ w)) s
  | OutOfMemory w =>
      Throw (HashJoinFail
               ("Ran out of memory while building hash tables for equijoin | " ++ w)) s
  | _ =>
      if is_HashJoinFail e then
        Throw (HashJoinFail
                 ("Could not build a 1-to-1 correspondence for columns involved in equijoin | "
                  ++ exn_what e))
          (freeHashBufferMemory s)
      else
        Throw (RuntimeError
                 ("Fatal error while attempting to build hash tables for join: "
                  ++ exn_what e)) s
  end.

Definition total_entries (env : JoinEnv) : Z :=
  wrap (2 * num_tuples_upper_bound env).

(** [getInstance]: the two process-wide caches come in and go out; the
    table is the object the call constructs, absent while the constructor
    has not run. *)
Definition getInstance (env : JoinEnv) (hash_type_cache : HashTypeCache)
    (hash_table_cache : list (HashTableCacheKey * BaselineHashTable))
    (preferred_hash_type : HashType)
  : Outcome unit (option BaselineJoinHashTable * HashTypeCache
                  * list (HashTableCacheKey * BaselineHashTable)) :=
  match getInnerTableId env with
  | None => Abort
  | Some inner_table_id =>
      if total_entries env >? INT32_MAX then
        Throw TooManyHashEntries (None, hash_type_cache, hash_table_cache)
      else
        let shard_count :=
          match memory_level_ env with
          | GPU_LEVEL => getShardCountForCondition env
          | CPU_LEVEL => 0
          end in
        let entries_per_device :=
          get_entries_per_device env (total_entries env) shard_count
            (device_count_ env) (memory_level_ env) in
        if negb (device_count_ env >? 0) then Abort
        else
          let join_hash_table :=
            mkJoinHashTable entries_per_device 0
              (repeat None (Z.to_nat (Z.max (device_count_ env) 1))) in
          let s := mkJoinState join_hash_table hash_type_cache hash_table_cache in
          let pack (s' : JoinState) :=
            (Some (table_ s'), hash_type_cache_ s', hash_table_cache_ s') in
          match checkHashJoinReplicationConstraint env inner_table_id with
          | Some e => Throw e (pack s)
          | None =>
              match reify env s preferred_hash_type with
              | Abort => Abort
              | Ok _ s' => Ok tt (pack s')
              | Throw e s' =>
                  match getInstance_catch e s' with
                  | Throw e' s'' => Throw e' (pack s'')
                  | Ok _ s'' => Ok tt (pack s'')
                  | Abort => Abort
                  end
              end
          end
  end.




(* ================================================================== *)
(** ** Concrete inputs for the examples *)

(** A join on two integer columns of a table of database 1, built on the
    CPU of a single node; [fetch] is the column fetcher. *)
Definition example_pair (table column : Z) : InnerOuter :=
  mkInnerOuter table column 4 false None false false.

Definition example_join_env_with (table : Z)
    (fetch : Z -> InnerOuter -> Exn + JoinColumn) (tuples : Z) : JoinEnv :=
  mkJoinEnv 1 [example_pair table 1; example_pair table 2] kEQ CPU_LEVEL 1
    tuples false fetch
    (fun cols => Z.of_nat (List.length (nodup (list_eq_dec Z.eq_dec)
                                          (composite_keys cols))))
    (fun key => fold_left Z.add key 0)
    (fun total _ _ _ => total)
    (fun _ => 0)
    false true "t".

Definition fetch_from (cols : list JoinColumn) (device_id : Z) (p : InnerOuter)
  : Exn + JoinColumn :=
  inr (nth (Z.to_nat (inner_column_id p - 1)) cols []).

(** Table 7 is a persistent table. *)
Definition example_join_env (cols : list JoinColumn) (tuples : Z) : JoinEnv :=
  example_join_env_with 7 (fetch_from cols) tuples.

(** The object as its constructor leaves it, with empty caches. *)
Definition fresh_join_state (entry_count : Z) : JoinState :=
  mkJoinState (mkJoinHashTable entry_count 0 [None]) [] [].


(** A cache with 4-byte pages and one tracked table, table 1 of database 1. *)
Definition example_cache (max_pages : Z) : ForeignStorageCache :=
  mkCache [] [] [([1; 1], mkTracker [] 0)] (mkGlobalFileMgr 4 []) max_pages 0 0 0.

Definition buffer_of_size (n : nat) : AbstractBuffer :=
  mkAbstractBuffer (repeat 0 n) false.

(** A foreign table with fixed-width columns whose storage answers a scan
    with [scan]. *)
Definition example_storage_env (scan : Exn + ChunkMetadataVector) : StorageEnv :=
  mkStorageEnv (fun _ => CSV) (fun _ => false) (fun _ _ col => (col, 0))
    (fun _ _ _ => false) (fun _ => scan)
    (fun _ keys => inr (map (fun k => (k, [7; 7; 7; 7])) keys))
    (fun _ => None) (fun _ _ => None)
    (fun src dst n => mkAbstractBuffer (firstn (Z.to_nat n) (buf_bytes src)) false)
    (fun _ => 0).

(** The cache after chunk [1; 1; 1; 0] (one page) has been cached. *)
Definition example_cached_table : ForeignStorageCache :=
  mkCache [[1; 1; 1; 0]] [[1; 1; 1; 0]] [([1; 1], mkTracker [[1; 1; 1; 0]] 1)]
    (mkGlobalFileMgr 4 [([1; 1; 1; 0], mkFileBuffer 4 1)]) 2 0 1 0.


(* ================================================================== *)
(** ** The page accounting of the cache *)

(** The pages the file manager holds for a chunk. *)
Definition pages_of (fm : GlobalFileMgr) (k : ChunkKey) : Z :=
  match getBuffer fm k with
  | Some b => fb_pages b
  | None => 0
  end.

Definition table_is (table_key k : ChunkKey) : bool :=
  match get_table_key k with
  | Some t => key_eqb t table_key
  | None => false
  end.

(** The pages held for the chunks of a table among [chunks]. *)
Fixpoint pages_sum (fm : GlobalFileMgr) (table_key : ChunkKey)
    (chunks : list ChunkKey) : Z :=
  match chunks with
  | [] => 0
  | k :: rest =>
      (if table_is table_key k then pages_of fm k else 0)
      + pages_sum fm table_key rest
  end.

(** A file buffer never has more pages than its size asks for. *)
Definition fm_ok (fm : GlobalFileMgr) : Prop :=
  0 <= default_page_size fm
  /\ forall k b,
       getBuffer fm k = Some b ->
       0 <= fb_pages b <= num_pages_for_chunk (default_page_size fm) (fb_size b).

(** The invariant of the cache: the cached set and the tracker map are
    ordered, the budget leaves a bit of headroom in [size_t], every cached
    chunk has the tracker of its table, the queue of a tracker holds chunks
    of its table, and the page count of a tracker lies between the pages
    held for the cached chunks of its table and the budget. *)
Definition trackers_ok (c : ForeignStorageCache) (sum : ChunkKey -> Z) : Prop :=
  forall t tr,
    map_find t (eviction_tracker_map_ c) = Some tr ->
    (forall k, In k (eviction_alg_ tr) -> get_table_key k = Some t)
    /\ sum t <= num_pages_ tr
    /\ num_pages_ tr <= max_pages_per_table_ c.

Definition chunks_tracked (c : ForeignStorageCache) : Prop :=
  forall k, In k (cached_chunks_ c) ->
    exists t, get_table_key k = Some t
              /\ map_find t (eviction_tracker_map_ c) <> None.

Definition cache_inv (c : ForeignStorageCache) : Prop :=
  StronglySorted key_lt (cached_chunks_ c)
  /\ StronglySorted key_lt (map_keys (eviction_tracker_map_ c))
  /\ fm_ok (global_file_mgr_ c)
  /\ 0 <= max_pages_per_table_ c < 2 ^ 63
  /\ chunks_tracked c
  /\ trackers_ok c
       (fun t => pages_sum (global_file_mgr_ c) t (cached_chunks_ c)).


(** The operations of the cache that cache and clear chunks. *)
Inductive CacheOp : Type :=
| OpCacheChunk (chunk_key : ChunkKey) (buffer : AbstractBuffer)
| OpCacheTableChunks (chunk_keys : list ChunkKey)
| OpClearForTablePrefix (chunk_prefix : ChunkKey).

Definition run_op (op : CacheOp) (c : ForeignStorageCache)
  : Outcome unit ForeignStorageCache :=
  match op with
  | OpCacheChunk chunk_key buffer => cacheChunk c chunk_key buffer
  | OpCacheTableChunks chunk_keys => cacheTableChunks c chunk_keys
  | OpClearForTablePrefix chunk_prefix => clearForTablePrefix c chunk_prefix
  end.

(** The caches a sequence of operations leads to: an operation that
    returns or throws leaves a cache behind for the next one. *)
Inductive reaches : ForeignStorageCache -> list CacheOp -> ForeignStorageCache -> Prop :=
| reaches_nil : forall c, reaches c [] c
| reaches_cons : forall c op c1 ops c2,
    survivor (run_op op c) = Some c1 ->
    reaches c1 ops c2 ->
    reaches c (op :: ops) c2.

(** Two tables in one cache: chunks of table 1 and of table 2 of database 1. *)
Definition example_two_tables : ForeignStorageCache :=
  mkCache [[1; 1; 1; 0]; [1; 1; 2; 0]; [1; 2; 1; 0]]
    [[1; 1; 1; 0]; [1; 1; 2; 0]; [1; 2; 1; 0]]
    [([1; 1], mkTracker [[1; 1; 1; 0]; [1; 1; 2; 0]] 2);
     ([1; 2], mkTracker [[1; 2; 1; 0]] 1)]
    (mkGlobalFileMgr 4
       [([1; 1; 1; 0], mkFileBuffer 4 1); ([1; 1; 2; 0], mkFileBuffer 4 1);
        ([1; 2; 1; 0], mkFileBuffer 4 1)])
    2 0 3 0.

(** The eviction scenario: three chunks of one page each are cached, in
    order and without touches, under a budget of two pages. *)
Definition eviction_scenario_ops : list CacheOp :=
  [OpCacheChunk [1; 1; 1; 0] (buffer_of_size 4);
   OpCacheChunk [1; 1; 2; 0] (buffer_of_size 4);
   OpCacheChunk [1; 1; 3; 0] (buffer_of_size 4)].

Definition eviction_scenario_result : ForeignStorageCache :=
  mkCache [[1; 1; 2; 0]; [1; 1; 3; 0]]
    [[1; 1; 1; 0]; [1; 1; 2; 0]; [1; 1; 3; 0]]
    [([1; 1], mkTracker [[1; 1; 2; 0]; [1; 1; 3; 0]] 2)]
    (mkGlobalFileMgr 4
       [([1; 1; 1; 0], mkFileBuffer 4 0); ([1; 1; 2; 0], mkFileBuffer 4 1);
        ([1; 1; 3; 0], mkFileBuffer 4 1)])
    2 0 3 0.

(* ================================================================== *)
(** ** The accounting that a change of the limit relies on *)





(* ================================================================== *)
(** ** The probe sequences of the hash table *)




(* ================================================================== *)
(** ** The rest of the cache's interface *)

(** [deleteBufferIfExists]: the chunk leaves the queue of its table, the
    file manager and both sets; [num_pages_] of the tracker is not written. *)
Definition deleteBufferIfExists (c : ForeignStorageCache) (chunk_key : ChunkKey)
  : Outcome unit ForeignStorageCache :=
  if set_find chunk_key (cached_metadata_ c) then
    match get_table_key chunk_key with
    | None => Abort
    | Some table_key =>
        let c1 :=
          match map_find table_key (eviction_tracker_map_ c) with
          | Some tracker =>
              set_tracker_map c
                (map_set table_key
                   (mkTracker (removeChunk chunk_key (eviction_alg_ tracker))
                      (num_pages_ tracker))
                   (eviction_tracker_map_ c))
          | None => c
          end in
        let c2 := set_file_mgr c1 (deleteBuffer (global_file_mgr_ c1) chunk_key) in
        let c3 := set_cached_chunks c2 (set_erase chunk_key (cached_chunks_ c2)) in
        Ok tt (set_cached_metadata c3 (set_erase chunk_key (cached_metadata_ c3)))
    end
  else Ok tt c.

(** The table keys that [clear] collects while it erases the metadata set;
    the second component of a key without two components is read out of
    bounds. *)
Fixpoint collect_table_keys (metadata : list ChunkKey) (table_keys : KeySet)
  : option KeySet :=
  match metadata with
  | [] => Some table_keys
  | (db :: tb :: _) :: rest =>
      collect_table_keys rest (set_emplace [db; tb] table_keys)
  | _ => None
  end.

Definition remove_tables (table_keys : KeySet) (fm : GlobalFileMgr)
  : GlobalFileMgr :=
  fold_left
    (fun fm table_key =>
       match table_key with
       | db :: tb :: _ => removeTableRelatedDS fm db tb
       | _ => fm
       end)
    table_keys fm.

(** [clear]: every cached chunk is erased through its iterator, the metadata
    set is emptied, and the data of every table that had metadata is removed
    from the file manager. *)
Definition clear (c : ForeignStorageCache) : Outcome unit ForeignStorageCache :=
  match erase_chunks_in_order (cached_chunks_ c) c with
  | Abort => Abort
  | Throw e c' => Throw e c'
  | Ok _ c1 =>
      match collect_table_keys (cached_metadata_ c1) [] with
      | None => Abort
      | Some table_keys =>
          Ok tt
            (set_file_mgr (set_cached_metadata c1 [])
               (remove_tables table_keys (global_file_mgr_ c1)))
      end
  end.

(** A foreign table whose columns are all of variable length: every column
    has a data chunk and an index chunk. *)
Definition example_varlen_storage_env : StorageEnv :=
  mkStorageEnv (fun _ => CSV) (fun _ => false) (fun _ _ col => (col, 0))
    (fun _ _ _ => true) (fun _ => inr [])
    (fun _ keys => inr (map (fun k => (k, [7; 7; 7; 7])) keys))
    (fun _ => None) (fun _ _ => None)
    (fun src dst n => mkAbstractBuffer (firstn (Z.to_nat n) (buf_bytes src)) false)
    (fun _ => 0).

(** A chunk key of a persistent table: it has its two leading components
    and the table id is not negative. *)
Definition persistent_chunk_key (chunk_key : ChunkKey) : Prop :=
  exists db_id table_id rest,
    chunk_key = db_id :: table_id :: rest /\ 0 <= table_id.

(** The first chunk key that is not one of a persistent table is one of a
    temporary table. *)
Definition names_temporary_table (key : list ChunkKey) : Prop :=
  exists before db_id table_id rest after,
    key = before ++ (db_id :: table_id :: rest) :: after
    /\ Forall persistent_chunk_key before
    /\ table_id < 0.

(* ================================================================== *)
(** ** Table functions *)

Definition INT32_MIN : Z := -2147483648.

(** What a conversion to [int32_t] keeps of a product computed on 64 bits
    (the low 32 bits are the same whether or not the product wraps). *)
Definition to_int32 (x : Z) : Z := (x + 2 ^ 31) mod 2 ^ 32 - 2 ^ 31.

(** [Column<T>] is a pointer with a size (OmniSciTypes.h, which is not in
    the fragment).  A column is the list of its elements; an element past
    the size is out of bounds, and an access to it has no result. *)
Definition Column (T : Type) : Type := list T.

Definition getSize {T : Type} (col : Column T) : Z :=
  Z.of_nat (List.length col).

Definition column_get {T : Type} (col : Column T) (index : Z) : option T :=
  if (0 <=? index) && (index <? getSize col)
  then nth_error col (Z.to_nat index)
  else None.

Definition column_set {T : Type} (col : Column T) (index : Z) (v : T)
  : option (Column T) :=
  if (0 <=? index) && (index <? getSize col)
  then Some (set_slot (Z.to_nat index) v col)
  else None.

(** [for (int c = 0; c < copy_multiplier; c++) output_col[i + c * stride] = v],
    from [c] on, with [copies] rounds to go; the right-hand side [v] is
    evaluated in every round, and has no value when it reads out of bounds. *)
Fixpoint write_copies {T : Type} (output_col : Column T) (i stride : Z)
    (v : option T) (c : Z) (copies : nat) : option (Column T) :=
  match copies with
  | O => Some output_col
  | S copies' =>
      match v with
      | None => None
      | Some x =>
          match column_set output_col (i + c * stride) x with
          | Some output_col' => write_copies output_col' i stride v (c + 1) copies'
          | None => None
          end
      end
  end.

(** [for (auto i = start; i < stop; i += step)] on the CPU, where [start] is
    0 and [step] is 1, from [i] on, with [rows] rounds to go; [value i] is
    the right-hand side of the assignment for row [i]. *)
Fixpoint fill_rows {T : Type} (value : Z -> option T) (stride copy_multiplier : Z)
    (output_col : Column T) (i : Z) (rows : nat) : option (Column T) :=
  match rows with
  | O => Some output_col
  | S rows' =>
      match write_copies output_col i stride (value i) 0
              (Z.to_nat copy_multiplier) with
      | Some output_col' =>
          fill_rows value stride copy_multiplier output_col' (i + 1) rows'
      | None => None
      end
  end.

(** [row_copier]: the result and the output column; no result when an
    access is out of bounds. *)
Definition row_copier {T : Type} (input_col : Column T) (copy_multiplier : Z)
    (output_col : Column T) : option (Z * Column T) :=
  let output_row_count := to_int32 (copy_multiplier * getSize input_col) in
  if output_row_count >? 100 then Some (-1, output_col)
  else if negb (getSize output_col =? output_row_count) then Some (-1, output_col)
  else
    match fill_rows (column_get input_col) (getSize input_col) copy_multiplier
            output_col 0 (Z.to_nat (getSize input_col)) with
    | Some output_col' => Some (output_row_count, output_col')
    | None => None
    end.

(** [row_adder]; [add] is the addition of [double]. *)
Definition row_adder {T : Type} (add : T -> T -> T) (copy_multiplier : Z)
    (input_col1 input_col2 output_col : Column T) : option (Z * Column T) :=
  let output_row_count := to_int32 (copy_multiplier * getSize input_col1) in
  if output_row_count >? 100 then Some (-1, output_col)
  else if negb (getSize output_col =? output_row_count) then Some (-1, output_col)
  else
    match fill_rows
            (fun i =>
               match column_get input_col1 i, column_get input_col2 i with
               | Some a, Some b => Some (add a b)
               | _, _ => None
               end)
            (getSize input_col1) copy_multiplier output_col 0
            (Z.to_nat (getSize input_col1)) with
    | Some output_col' => Some (output_row_count, output_col')
    | None => None
    end.

(** The inner loop of [row_addsub], which writes two output columns in
    every round. *)
Fixpoint write_copies2 {T : Type} (output_col1 output_col2 : Column T)
    (i stride : Z) (v : option (T * T)) (c : Z) (copies : nat)
  : option (Column T * Column T) :=
  match copies with
  | O => Some (output_col1, output_col2)
  | S copies' =>
      match v with
      | None => None
      | Some (x, y) =>
          match column_set output_col1 (i + c * stride) x with
          | None => None
          | Some output_col1' =>
              match column_set output_col2 (i + c * stride) y with
              | None => None
              | Some output_col2' =>
                  write_copies2 output_col1' output_col2' i stride v (c + 1)
                    copies'
              end
          end
      end
  end.

Fixpoint fill_rows2 {T : Type} (value : Z -> option (T * T))
    (stride copy_multiplier : Z) (output_col1 output_col2 : Column T) (i : Z)
    (rows : nat) : option (Column T * Column T) :=
  match rows with
  | O => Some (output_col1, output_col2)
  | S rows' =>
      match write_copies2 output_col1 output_col2 i stride (value i) 0
              (Z.to_nat copy_multiplier) with
      | Some (output_col1', output_col2') =>
          fill_rows2 value stride copy_multiplier output_col1' output_col2'
            (i + 1) rows'
      | None => None
      end
  end.

(** [row_addsub]; [add] and [sub] are the addition and the subtraction of
    [double]. *)
Definition row_addsub {T : Type} (add sub : T -> T -> T) (copy_multiplier : Z)
    (input_col1 input_col2 output_col1 output_col2 : Column T)
  : option (Z * Column T * Column T) :=
  let output_row_count := to_int32 (copy_multiplier * getSize input_col1) in
  if output_row_count >? 100 then Some (-1, output_col1, output_col2)
  else if negb (getSize output_col1 =? output_row_count)
          || negb (getSize output_col2 =? output_row_count)
  then Some (-1, output_col1, output_col2)
  else
    match fill_rows2
            (fun i =>
               match column_get input_col1 i, column_get input_col2 i with
               | Some a, Some b => Some (add a b, sub a b)
               | _, _ => None
               end)
            (getSize input_col1) copy_multiplier output_col1 output_col2 0
            (Z.to_nat (getSize input_col1)) with
    | Some (output_col1', output_col2') =>
        Some (output_row_count, output_col1', output_col2')
    | None => None
    end.

(** The loop of [get_max_with_row_offset] from row [i] on. *)
Fixpoint max_scan (input : list Z) (i curr_max curr_max_row : Z) : Z * Z :=
  match input with
  | [] => (curr_max, curr_max_row)
  | x :: rest =>
      if x >? curr_max then max_scan rest (i + 1) x i
      else max_scan rest (i + 1) curr_max curr_max_row
  end.

Definition get_max_with_row_offset (input_col output_max_col
    output_max_row_col : Column Z) : Z * Column Z * Column Z :=
  if negb (getSize output_max_col =? 1) || negb (getSize output_max_row_col =? 1)
  then (-1, output_max_col, output_max_row_col)
  else
    let '(curr_max, curr_max_row) := max_scan input_col 0 INT32_MIN (-1) in
    (1, [curr_max], [curr_max_row]).

(* ================================================================== *)
(** * Properties *)

(** ** The order on chunk keys *)

Lemma chunk_key_compare_refl : forall a, chunk_key_compare a a = Eq.
Proof.
  induction a as [|x a IH]; simpl; [reflexivity|].
  now rewrite Z.compare_refl.
Qed.

Lemma chunk_key_compare_eq : forall a b, chunk_key_compare a b = Eq -> a = b.
Proof.
  induction a as [|x a IH]; destruct b as [|y b]; simpl; try discriminate; auto.
  destruct (x ?= y) eqn:E; try discriminate.
  intros H. apply Z.compare_eq in E. subst. f_equal. now apply IH.
Qed.

Lemma chunk_key_compare_antisym :
  forall a b, chunk_key_compare b a = CompOpp (chunk_key_compare a b).
Proof.
  induction a as [|x a IH]; destruct b as [|y b]; simpl; auto.
  rewrite (Z.compare_antisym x y).
  destruct (x ?= y); simpl; auto.
Qed.

Lemma chunk_key_compare_trans :
  forall a b c,
    chunk_key_compare a b = Lt -> chunk_key_compare b c = Lt ->
    chunk_key_compare a c = Lt.
Proof.
  induction a as [|x a IH]; destruct b as [|y b]; destruct c as [|z c];
    simpl; try discriminate; auto.
  destruct (x ?= y) eqn:Exy; try discriminate;
    destruct (y ?= z) eqn:Eyz; try discriminate; intros H1 H2.
  - apply Z.compare_eq in Exy, Eyz. subst. rewrite Z.compare_refl. eauto.
  - apply Z.compare_eq in Exy. subst. now rewrite Eyz.
  - apply Z.compare_eq in Eyz. subst. now rewrite Exy.
  - assert (x < z) as Hlt.
    { assert (x < y) by exact Exy. assert (y < z) by exact Eyz. lia. }
    unfold Z.lt in Hlt. now rewrite Hlt.
Qed.

Lemma key_eqb_eq : forall a b, key_eqb a b = true <-> a = b.
Proof.
  unfold key_eqb. intros a b. split.
  - destruct (chunk_key_compare a b) eqn:E; try discriminate.
    intros _. now apply chunk_key_compare_eq.
  - intros ->. now rewrite chunk_key_compare_refl.
Qed.

Lemma key_eqb_refl : forall a, key_eqb a a = true.
Proof. intros a. now apply key_eqb_eq. Qed.

Lemma key_eqb_neq : forall a b, key_eqb a b = false <-> a <> b.
Proof.
  intros a b. split.
  - intros H ->. rewrite key_eqb_refl in H. discriminate.
  - intros H. destruct (key_eqb a b) eqn:E; auto.
    apply key_eqb_eq in E. contradiction.
Qed.

Lemma key_eqb_sym : forall a b, key_eqb a b = key_eqb b a.
Proof.
  intros a b. destruct (key_eqb a b) eqn:E.
  - apply key_eqb_eq in E. subst. now rewrite key_eqb_refl.
  - apply key_eqb_neq in E. symmetry. apply key_eqb_neq. auto.
Qed.

Lemma key_ltb_lt : forall a b, key_ltb a b = true <-> key_lt a b.
Proof.
  unfold key_ltb, key_lt. intros a b.
  destruct (chunk_key_compare a b); split; intros; congruence.
Qed.

Lemma key_lt_irrefl : forall a, ~ key_lt a a.
Proof. unfold key_lt. intros a. rewrite chunk_key_compare_refl. discriminate. Qed.

Lemma key_lt_trans : forall a b c, key_lt a b -> key_lt b c -> key_lt a c.
Proof. unfold key_lt. intros. eapply chunk_key_compare_trans; eauto. Qed.

Lemma key_lt_asym : forall a b, key_lt a b -> ~ key_lt b a.
Proof.
  intros a b H1 H2. apply (key_lt_irrefl a). eapply key_lt_trans; eauto.
Qed.

Lemma key_compare_gt_lt :
  forall a b, chunk_key_compare a b = Gt -> key_lt b a.
Proof.
  unfold key_lt. intros a b H. rewrite chunk_key_compare_antisym, H. reflexivity.
Qed.

Lemma key_ltb_false_le :
  forall a b, key_ltb a b = false -> a = b \/ key_lt b a.
Proof.
  unfold key_ltb. intros a b H.
  destruct (chunk_key_compare a b) eqn:E; try discriminate.
  - left. now apply chunk_key_compare_eq.
  - right. now apply key_compare_gt_lt.
Qed.

(** ** Membership in sets and maps *)

Lemma set_find_In : forall k s, set_find k s = true <-> In k s.
Proof.
  unfold set_find. intros k s. rewrite existsb_exists. split.
  - intros [x [Hin Heq]]. apply key_eqb_eq in Heq. now subst.
  - intros Hin. exists k. split; auto. apply key_eqb_refl.
Qed.

Lemma set_find_not_In : forall k s, set_find k s = false <-> ~ In k s.
Proof.
  intros k s. rewrite <- set_find_In. destruct (set_find k s); split; congruence.
Qed.

Lemma In_set_emplace :
  forall k x s, In x (set_emplace k s) <-> x = k \/ In x s.
Proof.
  induction s as [|y s IH]; simpl.
  - intuition.
  - destruct (chunk_key_compare k y) eqn:E; simpl.
    + apply chunk_key_compare_eq in E. subst. intuition.
    + intuition.
    + rewrite IH. intuition.
Qed.

Lemma In_set_erase :
  forall k x s, In x (set_erase k s) <-> x <> k /\ In x s.
Proof.
  unfold set_erase. intros k x s. rewrite filter_In, negb_true_iff, key_eqb_neq.
  intuition.
Qed.


Lemma map_find_set_same :
  forall (V : Type) k (v : V) m, map_find k (map_set k v m) = Some v.
Proof.
  induction m as [|[x w] m IH]; simpl.
  - now rewrite key_eqb_refl.
  - destruct (chunk_key_compare k x) eqn:E; simpl.
    + unfold key_eqb. now rewrite E.
    + now rewrite key_eqb_refl.
    + unfold key_eqb at 1. now rewrite E.
Qed.

Lemma map_find_set_other :
  forall (V : Type) k j (v : V) m,
    j <> k -> map_find j (map_set k v m) = map_find j m.
Proof.
  induction m as [|[x w] m IH]; simpl; intros Hne.
  - apply key_eqb_neq in Hne. now rewrite Hne.
  - destruct (chunk_key_compare k x) eqn:E; simpl.
    + apply chunk_key_compare_eq in E. subst x.
      apply key_eqb_neq in Hne. now rewrite Hne.
    + apply key_eqb_neq in Hne. now rewrite Hne.
    + destruct (key_eqb j x); auto.
Qed.

Lemma map_find_erase_same :
  forall (V : Type) k (m : KeyMap V), map_find k (map_erase k m) = None.
Proof.
  unfold map_erase. induction m as [|[x w] m IH]; simpl; auto.
  destruct (key_eqb k x) eqn:E; simpl; auto.
  now rewrite E.
Qed.

Lemma map_find_erase_other :
  forall (V : Type) k j (m : KeyMap V),
    j <> k -> map_find j (map_erase k m) = map_find j m.
Proof.
  unfold map_erase. induction m as [|[x w] m IH]; simpl; intros Hne; auto.
  destruct (key_eqb k x) eqn:E; simpl.
  - apply key_eqb_eq in E. subst x.
    pose proof Hne as Hb. apply key_eqb_neq in Hb. rewrite Hb. auto.
  - destruct (key_eqb j x); auto.
Qed.

(** ** Machine arithmetic *)

Lemma wrap_small : forall x, 0 <= x < 2 ^ 64 -> wrap x = x.
Proof. intros x H. unfold wrap, SIZE_MOD. now apply Z.mod_small. Qed.


(** ** The regions of the hash-table buffer *)

(** C8.  For every entry count, number of key components and component
    width 4 or 8 whose regions are addressable (their end fits a [size_t]):
    the key region is [entry_count * (key_component_count + 1) * width]
    bytes for [OneToOne] and [entry_count * key_component_count * width]
    bytes otherwise; the offsets start where the keys end, the counts
    [entry_count * 4] bytes later and the payload [entry_count * 4] bytes
    after the counts; for [OneToOne] the three offsets are the key buffer
    size. *)
Theorem buffer_region_offsets :
  forall entry_count key_component_count key_component_width layout,
    0 <= entry_count -> 0 <= key_component_count ->
    key_component_width = 4 \/ key_component_width = 8 ->
    entry_count * (key_component_count + 1) * key_component_width
      + 2 * (entry_count * 4) < 2 ^ 64 ->
    key_component_count + 1 < 2 ^ 64 ->
    let key_size :=
      if HashType_eqb layout OneToOne
      then entry_count * (key_component_count + 1) * key_component_width
      else entry_count * key_component_count * key_component_width in
    getKeyBufferSize entry_count key_component_count key_component_width layout
      = Some key_size
    /\ offsetBufferOff entry_count key_component_count key_component_width layout
       = Some key_size
    /\ countBufferOff entry_count key_component_count key_component_width layout
       = Some (if HashType_eqb layout OneToOne then key_size
               else key_size + entry_count * 4)
    /\ payloadBufferOff entry_count key_component_count key_component_width layout
       = Some (if HashType_eqb layout OneToOne then key_size
               else key_size + entry_count * 4 + entry_count * 4).
Proof.
  intros ec kc w layout Hec Hkc Hw Hfit Hkc1 key_size.
  assert (Hwpos : 4 <= w <= 8) by (destruct Hw; lia).
  assert (Hwb : (w =? 4) || (w =? 8) = true).
  { destruct Hw; subst; reflexivity. }
  assert (H1 : wrap (kc + 1) = kc + 1) by (apply wrap_small; lia).
  assert (H2 : wrap (ec * (kc + 1)) = ec * (kc + 1)) by (apply wrap_small; nia).
  assert (H3 : wrap (ec * (kc + 1) * w) = ec * (kc + 1) * w)
    by (apply wrap_small; nia).
  assert (H4 : wrap (ec * kc) = ec * kc) by (apply wrap_small; nia).
  assert (H5 : wrap (ec * kc * w) = ec * kc * w) by (apply wrap_small; nia).
  assert (H6 : wrap (ec * 4) = ec * 4) by (apply wrap_small; nia).
  assert (H7 : wrap (ec * kc * w + ec * 4) = ec * kc * w + ec * 4)
    by (apply wrap_small; nia).
  assert (H8 : wrap (ec * kc * w + ec * 4 + ec * 4) = ec * kc * w + ec * 4 + ec * 4)
    by (apply wrap_small; nia).
  unfold payloadBufferOff, countBufferOff, offsetBufferOff, getKeyBufferSize,
    getComponentBufferSize.
  rewrite Hwb.
  destruct layout; simpl; subst key_size; simpl;
    rewrite ?H1, ?H2, ?H3, ?H4, ?H5, ?H6, ?H7, ?H8; auto.
Qed.

Lemma buffer_region_offsets_witness :
  getKeyBufferSize 8 2 4 OneToMany = Some 64
  /\ offsetBufferOff 8 2 4 OneToMany = Some 64
  /\ countBufferOff 8 2 4 OneToMany = Some 96
  /\ payloadBufferOff 8 2 4 OneToMany = Some 128.
Proof.
  apply (buffer_region_offsets 8 2 4 OneToMany); [lia | lia | left; reflexivity | lia | lia].
Defined.

Example buffer_region_offsets_one_to_one :
  getKeyBufferSize 8 2 4 OneToOne = Some 96
  /\ countBufferOff 8 2 4 OneToOne = Some 96
  /\ payloadBufferOff 8 2 4 OneToOne = Some 96.
Proof. repeat split; reflexivity. Qed.

(** ** The entry limit of [getInstance] *)

Lemma getInstance_catch_never_TooManyHashEntries :
  forall e s s', getInstance_catch e s <> Throw TooManyHashEntries s'.
Proof.
  intros e s s'. unfold getInstance_catch.
  destruct e; simpl; discriminate.
Qed.

(** C5.  For a condition with at least one column pair whose inner table
    has a tuple upper bound [N] with [2 * N] representable in [size_t]:
    when [2 * N > INT32_MAX], [getInstance] throws [TooManyHashEntries] and
    no table has been constructed; when [2 * N <= INT32_MAX] it does not
    throw that exception. *)
Theorem getInstance_entry_limit :
  forall env hash_type_cache hash_table_cache preferred,
    inner_outer_pairs_ env <> [] ->
    0 <= num_tuples_upper_bound env ->
    2 * num_tuples_upper_bound env < 2 ^ 64 ->
    (2 * num_tuples_upper_bound env > INT32_MAX ->
     getInstance env hash_type_cache hash_table_cache preferred
     = Throw TooManyHashEntries (None, hash_type_cache, hash_table_cache))
    /\ (2 * num_tuples_upper_bound env <= INT32_MAX ->
        forall s,
          getInstance env hash_type_cache hash_table_cache preferred
          <> Throw TooManyHashEntries s).
Proof.
  intros env htc tc pref Hpairs H0 Hrep.
  assert (Htot : total_entries env = 2 * num_tuples_upper_bound env).
  { unfold total_entries. apply wrap_small. lia. }
  unfold getInstance, getInnerTableId.
  destruct (inner_outer_pairs_ env) as [|p ps] eqn:Ep; [contradiction|].
  rewrite Htot. split.
  - intros Hgt.
    destruct (2 * num_tuples_upper_bound env >? INT32_MAX) eqn:E; auto.
    rewrite Z.gtb_ltb, Z.ltb_ge in E. lia.
  - intros Hle s.
    destruct (2 * num_tuples_upper_bound env >? INT32_MAX) eqn:E.
    { rewrite Z.gtb_ltb, Z.ltb_lt in E. lia. }
    destruct (negb (device_count_ env >? 0)); [discriminate|].
    destruct (checkHashJoinReplicationConstraint env (inner_table_id p)) as [e|] eqn:Ec.
    { unfold checkHashJoinReplicationConstraint in Ec.
      destruct (negb (g_cluster env)); [discriminate|].
      destruct (inner_table_id p >=? 0); [|discriminate].
      destruct ((shardCount env =? 0) && negb (inner_table_is_replicated env));
        inversion Ec; discriminate. }
    match goal with
    | |- context [reify ?a ?b ?c] => destruct (reify a b c) as [r s1|e s1|]
    end; try discriminate.
    destruct (getInstance_catch e s1) as [r s2|e2 s2|] eqn:Eg; try discriminate.
    intros Heq. inversion Heq; subst.
    eapply getInstance_catch_never_TooManyHashEntries; eauto.
Qed.

Lemma getInstance_entry_limit_witness :
  getInstance (example_join_env [[1; 2]; [3; 4]] 1073741824) [] [] OneToOne
  = Throw TooManyHashEntries (None, [], []).
Proof.
  apply (getInstance_entry_limit
           (example_join_env [[1; 2]; [3; 4]] 1073741824) [] [] OneToOne);
    simpl; unfold INT32_MAX; try lia; discriminate.
Defined.

Example getInstance_below_entry_limit :
  let built :=
    mkHashTable OneToOne 4 2
      (KeySlots [Some ([1; 3], 0); None; Some ([2; 4], 1); None]) in
  getInstance (example_join_env [[1; 2]; [3; 4]] 2) [] [] OneToOne
  = Ok tt (Some (mkJoinHashTable 4 0 [Some built]), [],
           [(mkHashTableCacheKey 2 [[1; 7; 1]; [1; 7; 2]] kEQ, built)]).
Proof. reflexivity. Qed.

(** ** Rejected chunks *)

Lemma cacheChunk_too_large :
  forall c chunk_key buffer table_key tracker,
    buf_dirty buffer = false ->
    get_table_key chunk_key = Some table_key ->
    map_find table_key (eviction_tracker_map_ c) = Some tracker ->
    num_pages_for_chunk (getDefaultPageSize (global_file_mgr_ c)) (buf_size buffer)
      > max_pages_per_table_ c ->
    cacheChunk c chunk_key buffer = Ok tt c.
Proof.
  intros c k b t tr Hd Ht Htr Hbig.
  unfold cacheChunk, insertChunkIntoEvictionAlg.
  rewrite Hd, Ht, Htr.
  destruct (_ >? _) eqn:E; auto.
  rewrite Z.gtb_ltb, Z.ltb_ge in E. lia.
Qed.

(** C3.  A chunk of three pages offered to a table whose budget is two
    pages: [cacheChunk] returns, the cache is what it was, and the key has
    not been recorded in [cached_metadata_]. *)
Theorem cacheChunk_rejected_records_no_metadata :
  exists c',
    cacheChunk (example_cache 2) [1; 1; 1; 0] (buffer_of_size 12) = Ok tt c'
    /\ c' = example_cache 2
    /\ set_find [1; 1; 1; 0] (cached_chunks_ c') = false
    /\ isBufferOnDevice (global_file_mgr_ c') [1; 1; 1; 0] = false
    /\ isMetadataCached c' [1; 1; 1; 0] = false.
Proof. eexists. repeat split; reflexivity. Qed.

(** ** Temporary buffers of the uncached manager *)



Example second_fetch_reads_the_storage :
  fetchBuffer (example_storage_env (inr [])) (mkMgr [([1; 1], CSV)] [])
    [1; 1; 2; 0] ForeignStorageBuffer 4
  = Ok (mkAbstractBuffer [7; 7; 7; 7] false) (mkMgr [([1; 1], CSV)] []).
Proof. reflexivity. Qed.

(** ** Refresh of a table that is not in append mode *)

Lemma is_table_key_inv :
  forall k, is_table_key k = true -> exists db tb, k = [db; tb].
Proof.
  intros [|db [|tb [|x k]]]; simpl; try discriminate. eauto.
Qed.

(** The scan of the storage, when the wrapper fails to read it: the
    exception leaves the manager with the cache it had. *)
Lemma scan_failure_keeps_cache :
  forall env cm table_key e,
    is_table_key table_key = true ->
    env_populateChunkMetadata env table_key = inl e ->
    hasDataWrapper (base_mgr cm) table_key = true
    \/ env_data_wrapper_type env table_key <> OTHER_WRAPPER ->
    exists cm',
      getChunkMetadataVecForKeyPrefix env cm table_key = Throw e cm'
      /\ disk_cache_ cm' = disk_cache_ cm.
Proof.
  intros env cm k e Hk Hscan Hw.
  destruct (is_table_key_inv k Hk) as [db [tb ->]].
  unfold getChunkMetadataVecForKeyPrefix,
    ForeignStorageMgr_getChunkMetadataVecForKeyPrefix,
    createDataWrapperIfNotExists, hasDataWrapper in *.
  simpl.
  destruct (map_find [db; tb] (data_wrapper_map_ (base_mgr cm))) eqn:Ef.
  - simpl. rewrite Hscan. simpl. eauto.
  - destruct Hw as [Hw|Hw]; [discriminate|].
    destruct (env_data_wrapper_type env [db; tb]) eqn:Et;
      try contradiction; simpl; rewrite Hscan; simpl; eauto.
Qed.

(** C1.  For a table with cached metadata that is not in append mode, when
    the scan of the storage metadata throws, [refreshTable(T, false)]
    throws that exception and the cache (with it [cached_chunks_] and
    [cached_metadata_]) is what it was before the call: the scan comes
    before [clearForTablePrefix]. *)
Theorem refreshTable_scan_failure_keeps_cache :
  forall env cm table_key e,
    is_table_key table_key = true ->
    hasCachedMetadataForKeyPrefix (disk_cache_ cm) table_key = true ->
    env_isAppendMode env table_key = false ->
    env_populateChunkMetadata env table_key = inl e ->
    hasDataWrapper (base_mgr cm) table_key = true
    \/ env_data_wrapper_type env table_key <> OTHER_WRAPPER ->
    exists cm',
      refreshTable env cm table_key false = Throw e cm'
      /\ disk_cache_ cm' = disk_cache_ cm
      /\ cached_chunks_ (disk_cache_ cm') = cached_chunks_ (disk_cache_ cm)
      /\ cached_metadata_ (disk_cache_ cm') = cached_metadata_ (disk_cache_ cm).
Proof.
  intros env cm k e Hk Hmeta Happend Hscan Hw.
  unfold refreshTable, clearTempChunkBufferMapEntriesForTable.
  rewrite Hk.
  set (cm1 := mkCachingMgr _ (disk_cache_ cm)).
  assert (Hw1 : hasDataWrapper (base_mgr cm1) k = true
                \/ env_data_wrapper_type env k <> OTHER_WRAPPER).
  { destruct Hw as [Hw|Hw]; [left|right]; auto. }
  destruct (scan_failure_keeps_cache env cm1 k e Hk Hscan Hw1) as [cm' [Hthrow Hc]].
  unfold refreshTableInCache. rewrite Hk. simpl.
  rewrite Hmeta. simpl. rewrite Happend.
  unfold refreshNonAppendTableInCache. rewrite Hk. simpl.
  rewrite Hthrow.
  exists cm'. simpl in Hc. rewrite Hc. auto.
Qed.

Example example_cached_table_is_cached :
  cacheChunk (example_cache 2) [1; 1; 1; 0] (buffer_of_size 4)
  = Ok tt example_cached_table.
Proof. vm_compute. reflexivity. Qed.

Lemma refreshTable_scan_failure_keeps_cache_witness :
  exists cm',
    refreshTable
      (example_storage_env (inl (RuntimeError "storage unreachable")))
      (mkCachingMgr (mkMgr [] []) example_cached_table) [1; 1] false
    = Throw (RuntimeError "storage unreachable") cm'
    /\ disk_cache_ cm' = example_cached_table
    /\ cached_chunks_ (disk_cache_ cm') = [[1; 1; 1; 0]]
    /\ cached_metadata_ (disk_cache_ cm') = [[1; 1; 1; 0]].
Proof.
  apply (refreshTable_scan_failure_keeps_cache
           (example_storage_env (inl (RuntimeError "storage unreachable")))
           (mkCachingMgr (mkMgr [] []) example_cached_table) [1; 1]
           (RuntimeError "storage unreachable"));
    try (vm_compute; reflexivity).
  right. discriminate.
Defined.

(** With a storage that answers, the same call replaces the table's
    metadata and caches the old chunk again. *)
Example refreshTable_with_reachable_storage :
  exists cm',
    refreshTable
      (example_storage_env
         (inr [([1; 1; 1; 0], mkChunkMetadata 4); ([1; 1; 1; 1], mkChunkMetadata 4)]))
      (mkCachingMgr (mkMgr [] []) example_cached_table) [1; 1] false
    = Ok tt cm'
    /\ cached_chunks_ (disk_cache_ cm') = [[1; 1; 1; 0]]
    /\ cached_metadata_ (disk_cache_ cm') = [[1; 1; 1; 0]; [1; 1; 1; 1]].
Proof. eexists. split; [vm_compute; reflexivity|]. split; reflexivity. Qed.

(** ** The OneToOne builder reports duplicated keys *)

Lemma set_slot_length :
  forall (A : Type) pos (v : A) l, List.length (set_slot pos v l) = List.length l.
Proof.
  intros A pos v l. revert pos.
  induction l as [|x l IH]; intros [|p]; simpl; auto.
Qed.

Lemma nth_error_set_slot_same :
  forall (A : Type) pos (v : A) l,
    (pos < List.length l)%nat -> nth_error (set_slot pos v l) pos = Some v.
Proof.
  intros A pos v l. revert pos.
  induction l as [|x l IH]; intros [|p]; simpl; intros H; auto; try lia.
  apply IH. lia.
Qed.

Lemma nth_error_set_slot_other :
  forall (A : Type) pos pos' (v : A) l,
    pos <> pos' -> nth_error (set_slot pos v l) pos' = nth_error l pos'.
Proof.
  intros A pos pos' v l. revert pos pos'.
  induction l as [|x l IH]; intros [|p] [|p']; simpl; intros H; auto;
    try contradiction.
Qed.








Lemma initHashTableOnCpu_one_to_many :
  forall key_hash cols entry_count emitted,
    exists contents,
      initHashTableOnCpu key_hash cols entry_count emitted OneToMany
      = (0, mkHashTable OneToMany entry_count emitted contents).
Proof. intros. eexists. reflexivity. Qed.

(** ** Layout escalation in [reify] *)

Lemma chunk_keys_eqb_refl : forall a, chunk_keys_eqb a a = true.
Proof.
  induction a as [|x a IH]; simpl; auto.
  now rewrite key_eqb_refl, IH.
Qed.

Lemma chunk_keys_eqb_eq : forall a b, chunk_keys_eqb a b = true -> a = b.
Proof.
  induction a as [|x a IH]; destruct b as [|y b]; simpl; try discriminate; auto.
  intros H. apply andb_true_iff in H. destruct H as [H1 H2].
  apply key_eqb_eq in H1. subst. f_equal. auto.
Qed.

Lemma hash_type_find_assign_same :
  forall key hash_type m,
    hash_type_find key (hash_type_assign key hash_type m) = Some hash_type.
Proof.
  induction m as [|[k v] m IH]; simpl.
  - now rewrite chunk_keys_eqb_refl.
  - destruct (chunk_keys_eqb key k) eqn:E; simpl; rewrite E; auto.
Qed.

Lemma hash_type_find_assign_other :
  forall key key' hash_type m,
    key' <> key ->
    hash_type_find key' (hash_type_assign key hash_type m) = hash_type_find key' m.
Proof.
  induction m as [|[k v] m IH]; simpl; intros Hne.
  - destruct (chunk_keys_eqb key' key) eqn:E; auto.
    apply chunk_keys_eqb_eq in E. contradiction.
  - destruct (chunk_keys_eqb key k) eqn:E; simpl.
    + apply chunk_keys_eqb_eq in E. subst k.
      destruct (chunk_keys_eqb key' key) eqn:E'; auto.
      apply chunk_keys_eqb_eq in E'. contradiction.
    + destruct (chunk_keys_eqb key' k); auto.
Qed.


Lemma fetch_devices_single_failure :
  forall env e,
    device_count_ env = 1 ->
    fetch_pairs env 0 (inner_outer_pairs_ env) = inl e ->
    fetch_devices env 0 (Z.to_nat (device_count_ env)) = inl e.
Proof.
  intros env e Hd Hf. rewrite Hd. simpl.
  unfold fetchColumnsForDevice. now rewrite Hf.
Qed.










(** S2 of the specification: inner keys 1, 1, 2. *)
Example reify_S2 :
  reify (example_join_env_with 7 (fun _ _ => inr [1; 1; 2]) 3)
    (fresh_join_state 6) OneToOne
  = Ok tt
      (mkJoinState
         (mkJoinHashTable 4 3
            [Some (mkHashTable OneToMany 4 3
                     (KeyBuckets [([1; 1], [0; 1]); ([2; 2], [2])]))])
         [([[1; 7; 1]; [1; 7; 2]], OneToMany)]
         [(mkHashTableCacheKey 3 [[1; 7; 1]; [1; 7; 2]] kEQ,
           mkHashTable OneToMany 4 3
             (KeyBuckets [([1; 1], [0; 1]); ([2; 2], [2])]))]).
Proof. vm_compute. reflexivity. Qed.


(** ** [TableMustBeReplicated] in [reify] and [getInstance] *)





(** On the overlaps path [reify] is the build itself: an exception is
    rethrown as it is. *)
Lemma reify_overlaps_rethrows :
  forall env s preferred p,
    0 < device_count_ env ->
    is_overlaps_oper env = true ->
    inner_outer_pairs_ env = [p] ->
    reify env s preferred
    = reifyWithLayout env s (if outer_is_array p then ManyToMany else OneToMany).
Proof.
  intros env s preferred p Hd Hov Hp. unfold reify.
  apply Z.ltb_lt in Hd. rewrite Hd, Hov, Hp. reflexivity.
Qed.





(** ** Ordered sets: ranges of a prefix *)

Lemma sorted_set_emplace :
  forall k s, StronglySorted key_lt s -> StronglySorted key_lt (set_emplace k s).
Proof.
  induction s as [|x s IH]; simpl; intros Hs.
  - repeat constructor.
  - apply StronglySorted_inv in Hs. destruct Hs as [Hs Hx].
    destruct (chunk_key_compare k x) eqn:E.
    + constructor; auto.
    + constructor; [constructor; auto|].
      constructor; [exact E|].
      rewrite Forall_forall in *. intros y Hy.
      eapply key_lt_trans; [exact E|]. auto.
    + constructor; auto.
      rewrite Forall_forall in *. intros y Hy.
      apply In_set_emplace in Hy. destruct Hy as [->|Hy]; auto.
      now apply key_compare_gt_lt.
Qed.

Lemma sorted_filter :
  forall (f : ChunkKey -> bool) s,
    StronglySorted key_lt s -> StronglySorted key_lt (filter f s).
Proof.
  induction s as [|x s IH]; simpl; intros Hs; auto.
  apply StronglySorted_inv in Hs. destruct Hs as [Hs Hx].
  destruct (f x); auto.
  constructor; auto.
  rewrite Forall_forall in *. intros y Hy. apply filter_In in Hy. apply Hx, Hy.
Qed.

Lemma sorted_set_erase :
  forall k s, StronglySorted key_lt s -> StronglySorted key_lt (set_erase k s).
Proof. intros. now apply sorted_filter. Qed.


Lemma sorted_set_emplace_present :
  forall k s, StronglySorted key_lt s -> In k s -> set_emplace k s = s.
Proof.
  induction s as [|x s IH]; simpl; intros Hs Hin; [contradiction|].
  apply StronglySorted_inv in Hs. destruct Hs as [Hs Hx].
  destruct (chunk_key_compare k x) eqn:E; auto.
  - destruct Hin as [->|Hin].
    + rewrite chunk_key_compare_refl in E. discriminate.
    + rewrite Forall_forall in Hx. exfalso.
      exact (key_lt_asym _ _ E (Hx k Hin)).
  - f_equal. apply IH; auto.
    destruct Hin as [->|Hin]; auto.
    rewrite chunk_key_compare_refl in E. discriminate.
Qed.


Lemma In_from_lower_bound :
  forall p x s,
    StronglySorted key_lt s ->
    (In x (from_lower_bound p s) <-> In x s /\ key_ltb x p = false).
Proof.
  induction s as [|y s IH]; simpl; intros Hs; [tauto|].
  apply StronglySorted_inv in Hs. destruct Hs as [Hs Hy].
  destruct (key_ltb y p) eqn:E.
  - rewrite (IH Hs). split.
    + tauto.
    + intros [[->|Hin] Hx]; [congruence|tauto].
  - simpl. split.
    + intros [->|Hin]; [tauto|]. split; auto.
      destruct (key_ltb x p) eqn:Ex; auto.
      rewrite Forall_forall in Hy. apply key_ltb_lt in Ex.
      assert (key_lt y p) by (eapply key_lt_trans; eauto).
      apply key_ltb_lt in H. congruence.
    + tauto.
Qed.

Lemma sorted_from_lower_bound :
  forall p s, StronglySorted key_lt s -> StronglySorted key_lt (from_lower_bound p s).
Proof.
  induction s as [|y s IH]; simpl; intros Hs; auto.
  destruct (key_ltb y p); auto.
  apply IH. now apply StronglySorted_inv in Hs.
Qed.

Lemma In_until_upper_bound :
  forall u x s,
    StronglySorted key_lt s ->
    (In x (until_upper_bound u s) <-> In x s /\ key_ltb u x = false).
Proof.
  induction s as [|y s IH]; simpl; intros Hs; [tauto|].
  apply StronglySorted_inv in Hs. destruct Hs as [Hs Hy].
  destruct (key_ltb u y) eqn:E.
  - simpl. split; [tauto|].
    intros [[->|Hin] Hx]; [congruence|].
    rewrite Forall_forall in Hy. apply key_ltb_lt in E.
    assert (key_lt u x) by (eapply key_lt_trans; eauto).
    apply key_ltb_lt in H. congruence.
  - simpl. rewrite (IH Hs). split.
    + intros [->|Hin]; tauto.
    + tauto.
Qed.

(** On an ordered set the loop over a prefix visits the keys of the closed
    interval from the prefix to the prefix with [INT_MAX] pushed. *)
Lemma In_prefix_range :
  forall p x s,
    StronglySorted key_lt s ->
    (In x (prefix_range p s) <-> In x s /\ in_prefix_range p x = true).
Proof.
  intros p x s Hs. unfold prefix_range, in_prefix_range.
  rewrite In_until_upper_bound by (now apply sorted_from_lower_bound).
  rewrite In_from_lower_bound by assumption.
  rewrite andb_true_iff, !negb_true_iff. tauto.
Qed.

(** A key of the interval begins with the prefix. *)
Lemma in_prefix_range_table :
  forall db tb k,
    in_prefix_range [db; tb] k = true -> has_table_prefix_of db tb k = true.
Proof.
  intros db tb k H. unfold in_prefix_range in H.
  apply andb_true_iff in H. destruct H as [Hlo Hhi].
  apply negb_true_iff in Hlo, Hhi.
  unfold key_ltb, upper_prefix in *. simpl in *.
  destruct k as [|d [|t k]]; simpl in *; try discriminate.
  - destruct (Z.compare_spec d db) as [Heq|Hlt|Hgt]; try discriminate.
    assert (E : (db ?= d) = Lt) by (apply Z.compare_lt_iff; lia).
    rewrite E in Hhi. discriminate.
  - destruct (Z.compare_spec d db) as [Heq|Hlt|Hgt]; try discriminate.
    + subst d. rewrite Z.compare_refl in Hhi. rewrite Z.eqb_refl. simpl.
      destruct (Z.compare_spec t tb) as [Heq|Hlt|Hgt]; try discriminate.
      * subst t. apply Z.eqb_refl.
      * assert (E : (tb ?= t) = Lt) by (apply Z.compare_lt_iff; lia).
        rewrite E in Hhi. discriminate.
    + assert (E : (db ?= d) = Lt) by (apply Z.compare_lt_iff; lia).
      rewrite E in Hhi. discriminate.
Qed.

Lemma has_table_prefix_of_get_table_key :
  forall db tb k,
    has_table_prefix_of db tb k = true <-> get_table_key k = Some [db; tb].
Proof.
  intros db tb [|d [|t k]]; simpl; split; try discriminate.
  - intros H. apply andb_true_iff in H. destruct H as [H1 H2].
    apply Z.eqb_eq in H1, H2. now subst.
  - intros H. inversion H. now rewrite !Z.eqb_refl.
Qed.

Lemma In_erase_keys :
  forall visited x s, In x (erase_keys visited s) <-> In x s /\ ~ In x visited.
Proof.
  unfold erase_keys. induction visited as [|k visited IH]; simpl; intros x s.
  - tauto.
  - rewrite IH, In_set_erase. intuition.
Qed.

Lemma sorted_erase_keys :
  forall visited s,
    StronglySorted key_lt s -> StronglySorted key_lt (erase_keys visited s).
Proof.
  unfold erase_keys. induction visited as [|k visited IH]; simpl; intros s Hs; auto.
  apply IH. now apply sorted_set_erase.
Qed.

(** ** [clearForTablePrefix] *)

Lemma getBuffer_set_buffer_same :
  forall fm k b, getBuffer (set_buffer fm k b) k = Some b.
Proof. intros. unfold getBuffer, set_buffer. simpl. apply map_find_set_same. Qed.

Lemma getBuffer_set_buffer_other :
  forall fm k j b, j <> k -> getBuffer (set_buffer fm k b) j = getBuffer fm j.
Proof.
  intros. unfold getBuffer, set_buffer. simpl. now apply map_find_set_other.
Qed.

Lemma erase_chunks_in_order_ok :
  forall prefix visited c,
    (forall k, In k visited ->
       get_table_key k = Some prefix /\ getBuffer (global_file_mgr_ c) k <> None) ->
    (visited <> [] -> map_find prefix (eviction_tracker_map_ c) <> None) ->
    exists c',
      erase_chunks_in_order visited c = Ok tt c'
      /\ cached_chunks_ c' = erase_keys visited (cached_chunks_ c)
      /\ cached_metadata_ c' = cached_metadata_ c
      /\ (forall k, ~ In k visited ->
            getBuffer (global_file_mgr_ c') k = getBuffer (global_file_mgr_ c) k)
      /\ (forall t, t <> prefix ->
            map_find t (eviction_tracker_map_ c')
            = map_find t (eviction_tracker_map_ c))
      /\ max_pages_per_table_ c' = max_pages_per_table_ c.
Proof.
  intros prefix visited.
  induction visited as [|k visited IH]; intros c Hkeys Htr.
  - exists c. simpl. repeat split; auto.
  - simpl. unfold eraseChunkByIterator.
    destruct (Hkeys k (or_introl eq_refl)) as [Ht Hb].
    rewrite Ht.
    destruct (map_find prefix (eviction_tracker_map_ c)) as [tr|] eqn:Etr.
    2:{ exfalso. apply Htr; [discriminate|reflexivity]. }
    destruct (getBuffer (global_file_mgr_ c) k) as [b|] eqn:Eb; [|contradiction].
    simpl.
    set (c1 := set_eviction_parts c prefix _ _ _).
    destruct (IH c1) as [c' (Hrun & Hch & Hmeta & Hbuf & Htrk & Hmax)].
    + intros k' Hin. destruct (Hkeys k' (or_intror Hin)) as [Ht' Hb'].
      split; auto. subst c1. simpl.
      destruct (list_eq_dec Z.eq_dec k' k) as [->|Hne].
      * rewrite getBuffer_set_buffer_same. discriminate.
      * now rewrite getBuffer_set_buffer_other.
    + intros _. subst c1. simpl. rewrite map_find_set_same. discriminate.
    + exists c'. rewrite Hrun. repeat split; auto.
      * intros k' Hnin. rewrite Hbuf by tauto. subst c1. simpl.
        apply getBuffer_set_buffer_other. intros ->. apply Hnin. now left.
      * intros t Hne. rewrite Htrk by auto. subst c1. simpl.
        now apply map_find_set_other.
Qed.

Lemma getBuffer_removeTableRelatedDS :
  forall fm db tb k,
    getBuffer (removeTableRelatedDS fm db tb) k
    = if has_table_prefix_of db tb k then None else getBuffer fm k.
Proof.
  intros fm db tb k. unfold getBuffer, removeTableRelatedDS. simpl.
  induction (buffers fm) as [|[x b] m IH]; simpl.
  - now destruct (has_table_prefix_of db tb k).
  - destruct (has_table_prefix_of db tb x) eqn:Ex; simpl.
    + rewrite IH. destruct (key_eqb k x) eqn:E; auto.
      apply key_eqb_eq in E. subst. now rewrite Ex.
    + destruct (key_eqb k x) eqn:E; auto.
      apply key_eqb_eq in E. subst. now rewrite Ex.
Qed.

(** C9.  For a table prefix [[db; tb]] on a cache whose sets are ordered
    and whose cached chunks of the prefix have their tracker and their file
    buffer: [clearForTablePrefix] returns; [cached_chunks_] and
    [cached_metadata_] lose exactly the keys between the prefix and the
    prefix extended with [INT_MAX]; the file manager holds no buffer of the
    table any more; the cached entries and the buffers of every other
    table are what they were. *)
Theorem clearForTablePrefix_removes_prefix_range :
  forall c db tb,
    StronglySorted key_lt (cached_chunks_ c) ->
    StronglySorted key_lt (cached_metadata_ c) ->
    (forall k, In k (cached_chunks_ c) -> in_prefix_range [db; tb] k = true ->
       map_find [db; tb] (eviction_tracker_map_ c) <> None
       /\ getBuffer (global_file_mgr_ c) k <> None) ->
    exists c',
      clearForTablePrefix c [db; tb] = Ok tt c'
      /\ (forall k, In k (cached_chunks_ c')
                    <-> In k (cached_chunks_ c) /\ in_prefix_range [db; tb] k = false)
      /\ (forall k, In k (cached_metadata_ c')
                    <-> In k (cached_metadata_ c) /\ in_prefix_range [db; tb] k = false)
      /\ (forall k, has_table_prefix_of db tb k = true ->
            getBuffer (global_file_mgr_ c') k = None)
      /\ (forall k, has_table_prefix_of db tb k = false ->
            (In k (cached_chunks_ c') <-> In k (cached_chunks_ c))
            /\ (In k (cached_metadata_ c') <-> In k (cached_metadata_ c))
            /\ getBuffer (global_file_mgr_ c') k = getBuffer (global_file_mgr_ c) k).
Proof.
  intros c db tb Hsc Hsm Hcons.
  set (prefix := [db; tb]) in *.
  set (visited := prefix_range prefix (cached_chunks_ c)).
  assert (Hvis : forall k, In k visited <->
                   In k (cached_chunks_ c) /\ in_prefix_range prefix k = true).
  { intros k. apply In_prefix_range. exact Hsc. }
  destruct (erase_chunks_in_order_ok prefix visited c)
    as [c1 (Hrun & Hch & Hmeta & Hbuf & Htrk & Hmax)].
  { intros k Hin. apply Hvis in Hin. destruct Hin as [Hin Hr]. split.
    - apply has_table_prefix_of_get_table_key. now apply in_prefix_range_table.
    - apply (Hcons k Hin Hr). }
  { intros Hne. destruct visited as [|k v] eqn:Ev; [contradiction|].
    assert (Hin : In k (k :: v)) by now left.
    apply Hvis in Hin. destruct Hin as [Hin Hr]. apply (Hcons k Hin Hr). }
  assert (Hchunks : forall k, In k (erase_keys visited (cached_chunks_ c))
                      <-> In k (cached_chunks_ c) /\ in_prefix_range prefix k = false).
  { intros k. rewrite In_erase_keys, Hvis.
    destruct (in_prefix_range prefix k); intuition congruence. }
  assert (Hmetas : forall k,
             In k (erase_keys (prefix_range prefix (cached_metadata_ c))
                     (cached_metadata_ c))
             <-> In k (cached_metadata_ c) /\ in_prefix_range prefix k = false).
  { intros k. rewrite In_erase_keys, (In_prefix_range prefix k _ Hsm).
    destruct (in_prefix_range prefix k); intuition congruence. }
  assert (Hother : forall k, has_table_prefix_of db tb k = false ->
                     in_prefix_range prefix k = false).
  { intros k Hk. destruct (in_prefix_range prefix k) eqn:E; auto.
    apply in_prefix_range_table in E. congruence. }
  eexists. split.
  - unfold clearForTablePrefix. fold prefix. fold visited. rewrite Hrun.
    reflexivity.
  - simpl. rewrite Hmeta, Hch.
    split; [exact Hchunks|]. split; [exact Hmetas|]. split.
    + intros k Hk. rewrite getBuffer_removeTableRelatedDS. now rewrite Hk.
    + intros k Hk. pose proof (Hother k Hk) as Ho. split; [|split].
      * rewrite Hchunks. tauto.
      * rewrite Hmetas. tauto.
      * rewrite getBuffer_removeTableRelatedDS, Hk. apply Hbuf.
        intros Hin. apply Hvis in Hin. destruct Hin as [_ Hr]. congruence.
Qed.

Lemma clearForTablePrefix_removes_prefix_range_witness :
  exists c',
    clearForTablePrefix example_two_tables [1; 1] = Ok tt c'
    /\ (forall k, In k (cached_chunks_ c')
                  <-> In k (cached_chunks_ example_two_tables)
                      /\ in_prefix_range [1; 1] k = false)
    /\ (forall k, In k (cached_metadata_ c')
                  <-> In k (cached_metadata_ example_two_tables)
                      /\ in_prefix_range [1; 1] k = false)
    /\ (forall k, has_table_prefix_of 1 1 k = true ->
          getBuffer (global_file_mgr_ c') k = None)
    /\ (forall k, has_table_prefix_of 1 1 k = false ->
          (In k (cached_chunks_ c') <-> In k (cached_chunks_ example_two_tables))
          /\ (In k (cached_metadata_ c')
              <-> In k (cached_metadata_ example_two_tables))
          /\ getBuffer (global_file_mgr_ c') k
             = getBuffer (global_file_mgr_ example_two_tables) k).
Proof.
  apply (clearForTablePrefix_removes_prefix_range example_two_tables 1 1).
  - repeat constructor.
  - repeat constructor.
  - intros k Hin _. simpl in Hin.
    destruct Hin as [<-|[<-|[<-|[]]]]; split; discriminate.
Defined.

Example clearForTablePrefix_two_tables :
  clearForTablePrefix example_two_tables [1; 1]
  = Ok tt
      (mkCache [[1; 2; 1; 0]] [[1; 2; 1; 0]]
         [([1; 1], mkTracker [] 0); ([1; 2], mkTracker [[1; 2; 1; 0]] 1)]
         (mkGlobalFileMgr 4 [([1; 2; 1; 0], mkFileBuffer 4 1)]) 2 0 3 0).
Proof. vm_compute. reflexivity. Qed.

(** ** The page budget of a table *)















Lemma map_find_set_present :
  forall (V : Type) k j (v : V) m,
    map_find j m <> None -> map_find j (map_set k v m) <> None.
Proof.
  intros V k j v m H. destruct (list_eq_dec Z.eq_dec j k) as [->|Hne].
  - rewrite map_find_set_same. discriminate.
  - now rewrite map_find_set_other.
Qed.















Lemma sorted_until_upper_bound :
  forall u s, StronglySorted key_lt s -> StronglySorted key_lt (until_upper_bound u s).
Proof.
  induction s as [|y s IH]; simpl; intros Hs; auto.
  apply StronglySorted_inv in Hs. destruct Hs as [Hs Hy].
  destruct (key_ltb u y); [constructor|].
  constructor; auto.
  rewrite Forall_forall in *. intros x Hx.
  apply In_until_upper_bound in Hx; auto. apply Hy. tauto.
Qed.

Lemma sorted_prefix_range :
  forall p s, StronglySorted key_lt s -> StronglySorted key_lt (prefix_range p s).
Proof.
  intros. unfold prefix_range.
  now apply sorted_until_upper_bound, sorted_from_lower_bound.
Qed.






(** A cache that has just been constructed satisfies the invariant. *)
Lemma cache_inv_fresh :
  forall page_size max_pages max_bytes,
    0 <= page_size -> 0 <= max_pages < 2 ^ 63 ->
    cache_inv (mkCache [] [] [] (mkGlobalFileMgr page_size []) max_pages
                 max_bytes 0 0).
Proof.
  intros ps mp mb Hps Hmp. unfold cache_inv, chunks_tracked, trackers_ok. simpl.
  split; [constructor|]. split; [constructor|].
  split; [split; [exact Hps|discriminate]|].
  split; [exact Hmp|]. split; [intros k []|discriminate].
Qed.





Lemma eviction_scenario_reaches :
  reaches (example_cache 2) eviction_scenario_ops eviction_scenario_result.
Proof.
  unfold eviction_scenario_ops.
  eapply reaches_cons; [vm_compute; reflexivity|].
  eapply reaches_cons; [vm_compute; reflexivity|].
  eapply reaches_cons; [vm_compute; reflexivity|].
  apply reaches_nil.
Qed.



(** The eviction scenario: after [A], [B] and [C] of one page each under a
    budget of two pages, the cache holds [B] and [C] and counts two pages. *)
Example eviction_scenario :
  reaches (example_cache 2) eviction_scenario_ops eviction_scenario_result
  /\ cached_chunks_ eviction_scenario_result = [[1; 1; 2; 0]; [1; 1; 3; 0]]
  /\ map_find [1; 1] (eviction_tracker_map_ eviction_scenario_result)
     = Some (mkTracker [[1; 1; 2; 0]; [1; 1; 3; 0]] 2).
Proof.
  split; [exact eviction_scenario_reaches|]. split; reflexivity.
Qed.

(** The count of a tracker can exceed the pages its table holds: caching a
    cached chunk again counts its pages twice, and an insertion that would
    fit once the table is emptied then finds the queue empty; with the
    queue as it is modelled here, the eviction from the empty queue throws. *)
Example cacheChunk_recounts_a_cached_chunk :
  exists c1 c2 c3,
    cacheChunk (example_cache 2) [1; 1; 1; 0] (buffer_of_size 4) = Ok tt c1
    /\ cacheChunk c1 [1; 1; 1; 0] (buffer_of_size 4) = Ok tt c2
    /\ map_find [1; 1] (eviction_tracker_map_ c2)
       = Some (mkTracker [[1; 1; 1; 0]] 2)
    /\ cacheChunk c2 [1; 1; 2; 0] (buffer_of_size 8)
       = Throw NoEntryFoundException c3
    /\ cached_chunks_ c3 = []
    /\ map_find [1; 1] (eviction_tracker_map_ c3) = Some (mkTracker [] 1).
Proof.
  do 3 eexists. split; [vm_compute; reflexivity|].
  split; [vm_compute; reflexivity|].
  split; [vm_compute; reflexivity|].
  split; [vm_compute; reflexivity|].
  split; vm_compute; reflexivity.
Qed.

(* ================================================================== *)
(** ** Changing the limit of the cache *)










(** [setLimit] on the cache of two tables: the limit of one file of one
    page evicts the older chunk of table 1 and leaves table 2 alone. *)
Example setLimit_two_tables :
  setLimit 1 example_two_tables 4
  = Ok tt
      (mkCache [[1; 1; 2; 0]; [1; 2; 1; 0]]
         [[1; 1; 1; 0]; [1; 1; 2; 0]; [1; 2; 1; 0]]
         [([1; 1], mkTracker [[1; 1; 2; 0]] 1);
          ([1; 2], mkTracker [[1; 2; 1; 0]] 1)]
         (mkGlobalFileMgr 4
            [([1; 1; 1; 0], mkFileBuffer 4 0); ([1; 1; 2; 0], mkFileBuffer 4 1);
             ([1; 2; 1; 0], mkFileBuffer 4 1)])
         1 4 3 0).
Proof. vm_compute. reflexivity. Qed.

(** Where a tracker counts more pages than its queue holds (a chunk that
    was cached three times), the loop of [setLimit] empties the queue with
    the count still above the bound; with the queue as it is modelled here,
    the eviction from the empty queue throws. *)
Example setLimit_on_a_recounted_tracker :
  exists c1 c2 c3 c4,
    cacheChunk (example_cache 3) [1; 1; 1; 0] (buffer_of_size 4) = Ok tt c1
    /\ cacheChunk c1 [1; 1; 1; 0] (buffer_of_size 4) = Ok tt c2
    /\ cacheChunk c2 [1; 1; 1; 0] (buffer_of_size 4) = Ok tt c3
    /\ map_find [1; 1] (eviction_tracker_map_ c3)
       = Some (mkTracker [[1; 1; 1; 0]] 3)
    /\ setLimit 1 c3 4 = Throw NoEntryFoundException c4
    /\ max_pages_per_table_ c4 = 1
    /\ map_find [1; 1] (eviction_tracker_map_ c4) = Some (mkTracker [] 2).
Proof.
  do 4 eexists. split; [vm_compute; reflexivity|].
  split; [vm_compute; reflexivity|].
  split; [vm_compute; reflexivity|].
  split; [vm_compute; reflexivity|].
  split; [vm_compute; reflexivity|].
  split; vm_compute; reflexivity.
Qed.

(* ================================================================== *)
(** * Further properties of the code *)

(** ** The range of a key prefix *)

(** The keys between a prefix and the prefix with [INT_MAX] pushed are the
    prefix itself and its extensions whose next component is below
    [INT_MAX], together with the upper end. *)
Lemma in_prefix_range_iff :
  forall p k,
    in_prefix_range p k = true
    <-> exists rest,
          k = p ++ rest
          /\ (rest = []
              \/ exists x r,
                   rest = x :: r /\ (x < INT_MAX \/ (x = INT_MAX /\ r = []))).
Proof.
  unfold in_prefix_range, upper_prefix, key_ltb.
  generalize INT_MAX. intros M.
  induction p as [|y p IH]; intros k.
  - destruct k as [|x r]; simpl.
    + split; [intros _; exists []; auto|reflexivity].
    + destruct (Z.compare_spec M x) as [E|E|E].
      * subst x. destruct r as [|z r]; simpl.
        -- split; [intros _|reflexivity].
           exists [M]. split; [reflexivity|]. right. exists M, []. auto.
        -- split; [discriminate|].
           intros [rest [E H]]. simpl in E. subst rest.
           destruct H as [H|[x' [r' [E2 [H|[H1 H2]]]]]];
             [discriminate|inversion E2; lia|inversion E2; subst; discriminate].
      * split; [discriminate|].
        intros [rest [E1 H]]. simpl in E1. subst rest.
        destruct H as [H|[x' [r' [E2 [H|[H1 H2]]]]]];
          [discriminate|inversion E2; lia|inversion E2; lia].
      * split; [intros _|reflexivity].
        exists (x :: r). split; [reflexivity|]. right. exists x, r.
        split; [reflexivity|]. left. lia.
  - destruct k as [|x k]; simpl.
    + split; [discriminate|]. intros [rest [E _]]. discriminate.
    + rewrite (Z.compare_antisym x y).
      destruct (x ?= y) eqn:E; simpl.
      * apply Z.compare_eq in E. subst y. rewrite IH.
        split; intros [rest [E H]]; exists rest; split; auto.
        -- now subst.
        -- now inversion E.
      * split; [discriminate|]. intros [rest [E1 _]]. inversion E1; subst.
        rewrite Z.compare_refl in E. discriminate.
      * split; [discriminate|]. intros [rest [E1 _]]. inversion E1; subst.
        rewrite Z.compare_refl in E. discriminate.
Qed.

(** X1.  On an ordered set of cached chunks, [getCachedChunksForKeyPrefix]
    returns, in ascending order, exactly the cached chunks that are the
    prefix, the prefix followed by [INT_MAX], or an extension of the prefix
    whose next component is below [INT_MAX]; a cached key that continues
    past a component equal to [INT_MAX] is not returned. *)
Theorem getCachedChunksForKeyPrefix_range :
  forall c chunk_prefix,
    StronglySorted key_lt (cached_chunks_ c) ->
    StronglySorted key_lt (getCachedChunksForKeyPrefix c chunk_prefix)
    /\ forall k,
         In k (getCachedChunksForKeyPrefix c chunk_prefix)
         <-> In k (cached_chunks_ c)
             /\ exists rest,
                  k = chunk_prefix ++ rest
                  /\ (rest = []
                      \/ exists x r,
                           rest = x :: r
                           /\ (x < INT_MAX \/ (x = INT_MAX /\ r = []))).
Proof.
  intros c p Hs. unfold getCachedChunksForKeyPrefix. split.
  - now apply sorted_prefix_range.
  - intros k. rewrite In_prefix_range by assumption.
    now rewrite in_prefix_range_iff.
Qed.

Lemma getCachedChunksForKeyPrefix_range_witness :
  StronglySorted key_lt (getCachedChunksForKeyPrefix example_two_tables [1; 1])
  /\ forall k,
       In k (getCachedChunksForKeyPrefix example_two_tables [1; 1])
       <-> In k (cached_chunks_ example_two_tables)
           /\ exists rest,
                k = [1; 1] ++ rest
                /\ (rest = []
                    \/ exists x r,
                         rest = x :: r
                         /\ (x < INT_MAX \/ (x = INT_MAX /\ r = []))).
Proof.
  apply (getCachedChunksForKeyPrefix_range example_two_tables [1; 1]).
  repeat constructor.
Defined.

(** A key of the table that continues past a column id of [INT_MAX] lies
    outside the range of the table's prefix. *)
Example getCachedChunksForKeyPrefix_misses_INT_MAX :
  getCachedChunksForKeyPrefix
    (mkCache [[1; 1; 5; 0]; [1; 1; INT_MAX; 0]] [] [] (mkGlobalFileMgr 4 []) 2 0 0 0)
    [1; 1]
  = [[1; 1; 5; 0]].
Proof. vm_compute. reflexivity. Qed.

(** X2.  On an ordered metadata set, [hasCachedMetadataForKeyPrefix] is true
    exactly when some cached metadata key is the prefix, the prefix followed
    by [INT_MAX], or an extension of the prefix whose next component is
    below [INT_MAX]. *)
Theorem hasCachedMetadataForKeyPrefix_iff :
  forall c chunk_prefix,
    StronglySorted key_lt (cached_metadata_ c) ->
    (hasCachedMetadataForKeyPrefix c chunk_prefix = true
     <-> exists k rest,
           In k (cached_metadata_ c)
           /\ k = chunk_prefix ++ rest
           /\ (rest = []
               \/ exists x r,
                    rest = x :: r /\ (x < INT_MAX \/ (x = INT_MAX /\ r = [])))).
Proof.
  intros c p Hs. unfold hasCachedMetadataForKeyPrefix.
  assert (Hin : forall k,
             In k (prefix_range p (cached_metadata_ c))
             <-> In k (cached_metadata_ c)
                 /\ exists rest,
                      k = p ++ rest
                      /\ (rest = []
                          \/ exists x r,
                               rest = x :: r
                               /\ (x < INT_MAX \/ (x = INT_MAX /\ r = [])))).
  { intros k. rewrite In_prefix_range by assumption.
    now rewrite in_prefix_range_iff. }
  destruct (prefix_range p (cached_metadata_ c)) as [|x l].
  - split; [discriminate|]. intros [k [rest [H1 H2]]].
    destruct (proj2 (Hin k)); eauto.
  - split; [intros _|reflexivity].
    destruct (proj1 (Hin x) (or_introl eq_refl)) as [H1 [rest H2]].
    exists x, rest. tauto.
Qed.

Lemma hasCachedMetadataForKeyPrefix_iff_witness :
  hasCachedMetadataForKeyPrefix example_two_tables [1; 2] = true
  <-> exists k rest,
        In k (cached_metadata_ example_two_tables)
        /\ k = [1; 2] ++ rest
        /\ (rest = []
            \/ exists x r,
                 rest = x :: r /\ (x < INT_MAX \/ (x = INT_MAX /\ r = []))).
Proof.
  apply (hasCachedMetadataForKeyPrefix_iff example_two_tables [1; 2]).
  repeat constructor.
Defined.

(** ** Lookups and removals of the cache *)

(** X3.  [getCachedChunkIfExists] never throws.  On a miss it returns no
    buffer and leaves the cache as it was.  On a hit it returns the buffer
    the file manager holds for the key, and changes nothing but the queue of
    the key's table, where the key becomes the last one to be evicted: the
    two sets, the file manager, the budget and every page count stay. *)
Theorem getCachedChunkIfExists_touches_only_the_queue :
  forall c chunk_key,
    (forall e c', getCachedChunkIfExists c chunk_key <> Throw e c')
    /\ (set_find chunk_key (cached_chunks_ c) = false ->
          getCachedChunkIfExists c chunk_key = Ok None c)
    /\ forall r c',
         set_find chunk_key (cached_chunks_ c) = true ->
         getCachedChunkIfExists c chunk_key = Ok r c' ->
         r = getBuffer (global_file_mgr_ c) chunk_key
         /\ r <> None
         /\ cached_chunks_ c' = cached_chunks_ c
         /\ cached_metadata_ c' = cached_metadata_ c
         /\ global_file_mgr_ c' = global_file_mgr_ c
         /\ max_pages_per_table_ c' = max_pages_per_table_ c
         /\ forall t,
              (get_table_key chunk_key <> Some t ->
                 map_find t (eviction_tracker_map_ c')
                 = map_find t (eviction_tracker_map_ c))
              /\ (get_table_key chunk_key = Some t ->
                    map_find t (eviction_tracker_map_ c')
                    = match map_find t (eviction_tracker_map_ c) with
                      | Some tracker =>
                          Some (mkTracker
                                  (removeChunk chunk_key (eviction_alg_ tracker)
                                   ++ [chunk_key])
                                  (num_pages_ tracker))
                      | None => None
                      end).
Proof.
  intros c k. unfold getCachedChunkIfExists.
  destruct (set_find k (cached_chunks_ c)) eqn:Ef; simpl.
  2:{ split; [discriminate|]. split; [reflexivity|discriminate]. }
  destruct (get_table_key k) as [t0|] eqn:Et.
  2:{ split; [discriminate|]. split; discriminate. }
  destruct (map_find t0 (eviction_tracker_map_ c)) as [tr|] eqn:Etr; simpl;
    destruct (getBuffer (global_file_mgr_ c) k) as [b|] eqn:Eb;
    (split; [discriminate|]; split; [discriminate|]);
    intros r c' _ H; inversion H; subst r c'; clear H; simpl;
    (split; [reflexivity|]; split; [discriminate|]);
    (split; [reflexivity|]; split; [reflexivity|]);
    (split; [reflexivity|]; split; [reflexivity|]);
    intros t; split.
  - intros Hne. apply map_find_set_other. congruence.
  - intros E. inversion E; subst t0. rewrite map_find_set_same, Etr.
    reflexivity.
  - reflexivity.
  - intros E. inversion E; subst t0. now rewrite Etr.
Qed.

Lemma evict_while_page_size :
  forall over q num_pages chunks fm tr' chunks' fm',
    survivor (evict_while over q num_pages chunks fm) = Some (tr', chunks', fm') ->
    default_page_size fm' = default_page_size fm.
Proof.
  induction q as [|victim q IH]; intros np chunks fm tr' chunks' fm' H;
    simpl in H.
  - destruct (over np); simpl in H; inversion H; subst; reflexivity.
  - destruct (over np).
    + unfold eraseChunk in H.
      destruct (set_find victim chunks).
      * destruct (getBuffer fm victim) as [b|]; [|discriminate]. simpl in H.
        apply IH in H. exact H.
      * apply IH in H. exact H.
    + simpl in H. inversion H; subst. reflexivity.
Qed.

(** X4.  A [cacheChunk] that returns has either rejected the chunk (its pages
    alone exceed the budget; the cache is as it was) or cached it: then its
    metadata is cached, it is a cached chunk, and a following
    [getCachedChunkIfExists] for the key returns a file buffer of the size
    of the cached buffer with the pages that size needs. *)
Theorem cacheChunk_then_lookup :
  forall c chunk_key buffer c',
    cacheChunk c chunk_key buffer = Ok tt c' ->
    let n :=
      num_pages_for_chunk (default_page_size (global_file_mgr_ c))
        (buf_size buffer) in
    (n > max_pages_per_table_ c /\ c' = c)
    \/ (n <= max_pages_per_table_ c
        /\ isMetadataCached c' chunk_key = true
        /\ In chunk_key (cached_chunks_ c')
        /\ exists c'',
             getCachedChunkIfExists c' chunk_key
             = Ok (Some (mkFileBuffer (buf_size buffer) n)) c'').
Proof.
  intros c k buffer c' H n. unfold cacheChunk in H.
  destruct (buf_dirty buffer); [discriminate|].
  unfold insertChunkIntoEvictionAlg, getDefaultPageSize in H.
  destruct (get_table_key k) as [t|] eqn:Et; [|discriminate].
  destruct (map_find t (eviction_tracker_map_ c)) as [tr|] eqn:Etr;
    [|discriminate].
  fold n in H.
  destruct (n >? max_pages_per_table_ c) eqn:En.
  { inversion H; subst c'. left. rewrite Z.gtb_ltb, Z.ltb_lt in En.
    split; [lia|reflexivity]. }
  rewrite Z.gtb_ltb, Z.ltb_ge in En.
  destruct (evict_while _ (eviction_alg_ tr) (num_pages_ tr) (cached_chunks_ c)
              (global_file_mgr_ c)) as [r [[tr' chunks'] fm']|e [[tr' chunks'] fm']|]
    eqn:Ee; try discriminate.
  assert (Hps : default_page_size fm' = default_page_size (global_file_mgr_ c)).
  { eapply evict_while_page_size. rewrite Ee. reflexivity. }
  inversion H; subst c'; clear H. right.
  split; [exact En|]. unfold isMetadataCached. simpl.
  split; [apply set_find_In, In_set_emplace; now left|].
  split; [apply In_set_emplace; now left|].
  unfold getCachedChunkIfExists. simpl.
  assert (Hf : set_find k (set_emplace k chunks') = true)
    by (apply set_find_In, In_set_emplace; now left).
  rewrite Hf, Et. simpl. rewrite map_find_set_same. simpl.
  unfold putBuffer. rewrite getBuffer_set_buffer_same.
  rewrite Hps. fold n. eexists. reflexivity.
Qed.

Lemma cacheChunk_then_lookup_witness :
  let c' :=
    mkCache [[1; 1; 1; 0]] [[1; 1; 1; 0]] [([1; 1], mkTracker [[1; 1; 1; 0]] 1)]
      (mkGlobalFileMgr 4 [([1; 1; 1; 0], mkFileBuffer 4 1)]) 2 0 1 0 in
  (1 > 2 /\ c' = example_cache 2)
  \/ (1 <= 2
      /\ isMetadataCached c' [1; 1; 1; 0] = true
      /\ In [1; 1; 1; 0] (cached_chunks_ c')
      /\ exists c'',
           getCachedChunkIfExists c' [1; 1; 1; 0]
           = Ok (Some (mkFileBuffer 4 1)) c'').
Proof.
  exact (cacheChunk_then_lookup (example_cache 2) [1; 1; 1; 0] (buffer_of_size 4)
           _ eq_refl).
Defined.

(** X5.  [deleteBufferIfExists] does nothing for a key whose metadata is not
    cached.  For a key whose metadata is cached it removes the key from the
    cached chunks, the cached metadata and the file manager and from the
    queue of its table, leaves every other key alone, and leaves the page
    count of every tracker as it was: the pages of the deleted chunk are not
    given back. *)
Theorem deleteBufferIfExists_effect :
  forall c chunk_key,
    (isMetadataCached c chunk_key = false ->
       deleteBufferIfExists c chunk_key = Ok tt c)
    /\ forall c',
         isMetadataCached c chunk_key = true ->
         deleteBufferIfExists c chunk_key = Ok tt c' ->
         ~ In chunk_key (cached_chunks_ c')
         /\ ~ In chunk_key (cached_metadata_ c')
         /\ getBuffer (global_file_mgr_ c') chunk_key = None
         /\ (forall k, k <> chunk_key ->
               (In k (cached_chunks_ c') <-> In k (cached_chunks_ c))
               /\ (In k (cached_metadata_ c') <-> In k (cached_metadata_ c))
               /\ getBuffer (global_file_mgr_ c') k
                  = getBuffer (global_file_mgr_ c) k)
         /\ forall t,
              (get_table_key chunk_key <> Some t ->
                 map_find t (eviction_tracker_map_ c')
                 = map_find t (eviction_tracker_map_ c))
              /\ (get_table_key chunk_key = Some t ->
                    map_find t (eviction_tracker_map_ c')
                    = match map_find t (eviction_tracker_map_ c) with
                      | Some tracker =>
                          Some (mkTracker
                                  (removeChunk chunk_key (eviction_alg_ tracker))
                                  (num_pages_ tracker))
                      | None => None
                      end).
Proof.
  intros c k. unfold deleteBufferIfExists, isMetadataCached.
  destruct (set_find k (cached_metadata_ c)) eqn:Ef.
  2:{ split; [reflexivity|discriminate]. }
  split; [discriminate|]. intros c' _.
  destruct (get_table_key k) as [t0|] eqn:Et; [|discriminate].
  assert (Hsets : forall s x, x <> k -> (In x (set_erase k s) <-> In x s))
    by (intros s x Hx; rewrite In_set_erase; tauto).
  assert (Hgone : forall s, ~ In k (set_erase k s))
    by (intros s Hin; apply In_set_erase in Hin; tauto).
  destruct (map_find t0 (eviction_tracker_map_ c)) as [tr|] eqn:Etr; simpl;
    intros H; inversion H; subst c'; clear H; simpl;
    (split; [apply Hgone|]; split; [apply Hgone|]);
    (split; [apply map_find_erase_same|]);
    (split;
     [intros x Hx; split; [now apply Hsets|]; split; [now apply Hsets|];
      unfold getBuffer, deleteBuffer; simpl; now apply map_find_erase_other|]);
    intros t; split.
  - intros Hne. apply map_find_set_other. congruence.
  - intros E. inversion E; subst t0. now rewrite map_find_set_same, Etr.
  - reflexivity.
  - intros E. inversion E; subst t0. now rewrite Etr.
Qed.

Lemma erase_chunks_in_order_all :
  forall visited c,
    (forall k, In k visited ->
       exists t,
         get_table_key k = Some t
         /\ map_find t (eviction_tracker_map_ c) <> None
         /\ getBuffer (global_file_mgr_ c) k <> None) ->
    exists c',
      erase_chunks_in_order visited c = Ok tt c'
      /\ cached_chunks_ c' = erase_keys visited (cached_chunks_ c)
      /\ cached_metadata_ c' = cached_metadata_ c
      /\ max_pages_per_table_ c' = max_pages_per_table_ c
      /\ (forall t, map_find t (eviction_tracker_map_ c') <> None
                    <-> map_find t (eviction_tracker_map_ c) <> None)
      /\ (forall k, getBuffer (global_file_mgr_ c') k <> None
                    <-> getBuffer (global_file_mgr_ c) k <> None).
Proof.
  induction visited as [|k visited IH]; intros c Hall.
  - exists c. simpl. repeat split; auto.
  - destruct (Hall k (or_introl eq_refl)) as (t & Et & Htr & Hb).
    simpl. unfold eraseChunkByIterator. rewrite Et.
    destruct (map_find t (eviction_tracker_map_ c)) as [tr|] eqn:Etr;
      [|congruence].
    destruct (getBuffer (global_file_mgr_ c) k) as [b|] eqn:Eb; [|congruence].
    simpl.
    set (c1 := set_eviction_parts c t _ _ _).
    assert (Htr1 : forall t', map_find t' (eviction_tracker_map_ c1) <> None
                              <-> map_find t' (eviction_tracker_map_ c) <> None).
    { intros t'. unfold c1. simpl.
      destruct (list_eq_dec Z.eq_dec t' t) as [->|Hne].
      - rewrite map_find_set_same, Etr. split; discriminate.
      - rewrite map_find_set_other by auto. tauto. }
    assert (Hb1 : forall x, getBuffer (global_file_mgr_ c1) x <> None
                            <-> getBuffer (global_file_mgr_ c) x <> None).
    { intros x. unfold c1. simpl.
      destruct (list_eq_dec Z.eq_dec x k) as [->|Hne].
      - rewrite getBuffer_set_buffer_same, Eb. split; discriminate.
      - rewrite getBuffer_set_buffer_other by auto. tauto. }
    destruct (IH c1) as (c' & He & Hc & Hm & Hmax & Htr' & Hb').
    { intros x Hx. destruct (Hall x (or_intror Hx)) as (tx & Etx & Htx & Hbx).
      exists tx. split; [exact Etx|]. split; [now apply Htr1|now apply Hb1]. }
    exists c'. split; [exact He|]. split; [rewrite Hc; reflexivity|].
    split; [rewrite Hm; reflexivity|]. split; [rewrite Hmax; reflexivity|].
    split.
    + intros t'. rewrite Htr'. apply Htr1.
    + intros x. rewrite Hb'. apply Hb1.
Qed.

Lemma collect_table_keys_total :
  forall metadata table_keys,
    (forall k, In k metadata -> get_table_key k <> None) ->
    exists result,
      collect_table_keys metadata table_keys = Some result
      /\ forall k db tb rest,
           In k metadata -> k = db :: tb :: rest -> In [db; tb] result.
Proof.
  induction metadata as [|k metadata IH]; intros acc Hall.
  - exists acc. split; [reflexivity|]. intros k db tb rest [].
  - assert (Hk := Hall k (or_introl eq_refl)).
    destruct k as [|db [|tb rest]]; simpl in Hk; try congruence.
    simpl.
    assert (Hkeep : forall metadata acc x result,
               collect_table_keys metadata acc = Some result ->
               In x acc -> In x result).
    { clear. induction metadata as [|k metadata IH]; intros acc x result H Hx;
        simpl in H.
      - inversion H; subst. exact Hx.
      - destruct k as [|db [|tb rest]]; try discriminate.
        eapply IH; [exact H|]. apply In_set_emplace. now right. }
    destruct (IH (set_emplace [db; tb] acc)) as (result & He & Hin).
    { intros x Hx. apply Hall. now right. }
    exists result. split; [exact He|].
    intros x db' tb' rest' [E|Hx] Ex.
    + subst x. inversion Ex; subst.
      eapply Hkeep; [exact He|]. apply In_set_emplace. now left.
    + eapply Hin; eauto.
Qed.

Lemma getBuffer_remove_tables :
  forall table_keys fm k db tb rest,
    In [db; tb] table_keys ->
    k = db :: tb :: rest ->
    getBuffer (remove_tables table_keys fm) k = None.
Proof.
  unfold remove_tables.
  assert (Hstay : forall table_keys fm k,
             getBuffer fm k = None ->
             getBuffer
               (fold_left
                  (fun fm table_key =>
                     match table_key with
                     | db :: tb :: _ => removeTableRelatedDS fm db tb
                     | _ => fm
                     end) table_keys fm) k = None).
  { induction table_keys as [|t ts IH]; intros fm k H; simpl; [exact H|].
    apply IH. destruct t as [|d [|b r]]; auto.
    rewrite getBuffer_removeTableRelatedDS.
    now destruct (has_table_prefix_of d b k). }
  induction table_keys as [|t ts IH]; intros fm k db tb rest Hin Ek; simpl;
    [contradiction|].
  destruct Hin as [E|Hin].
  - subst t. apply Hstay. rewrite getBuffer_removeTableRelatedDS.
    subst k. simpl. now rewrite !Z.eqb_refl.
  - eapply IH; eauto.
Qed.

(** X6.  On a cache where every cached chunk has the tracker of its table
    and a file buffer, and every metadata key names a table, [clear]
    returns with both sets empty; the file manager no longer holds a buffer
    for any key that had cached metadata, and the budget is as it was. *)
Theorem clear_empties_the_cache :
  forall c,
    (forall k, In k (cached_chunks_ c) ->
       exists t,
         get_table_key k = Some t
         /\ map_find t (eviction_tracker_map_ c) <> None
         /\ getBuffer (global_file_mgr_ c) k <> None) ->
    (forall k, In k (cached_metadata_ c) -> get_table_key k <> None) ->
    exists c',
      clear c = Ok tt c'
      /\ cached_chunks_ c' = []
      /\ cached_metadata_ c' = []
      /\ (forall k, In k (cached_metadata_ c) ->
            getBuffer (global_file_mgr_ c') k = None)
      /\ (forall k, getCachedChunksForKeyPrefix c' k = [])
      /\ (forall k, hasCachedMetadataForKeyPrefix c' k = false)
      /\ max_pages_per_table_ c' = max_pages_per_table_ c.
Proof.
  intros c Hchunks Hmeta. unfold clear.
  destruct (erase_chunks_in_order_all (cached_chunks_ c) c Hchunks)
    as (c1 & He & Hc & Hm & Hmax & _ & _).
  rewrite He.
  destruct (collect_table_keys_total (cached_metadata_ c1) [])
    as (table_keys & Hk & Hin).
  { rewrite Hm. exact Hmeta. }
  rewrite Hk. eexists. split; [reflexivity|]. simpl.
  assert (Hempty : cached_chunks_ c1 = []).
  { rewrite Hc. destruct (erase_keys (cached_chunks_ c) (cached_chunks_ c))
      as [|x l] eqn:E; [reflexivity|].
    assert (Hx : In x (erase_keys (cached_chunks_ c) (cached_chunks_ c)))
      by (rewrite E; now left).
    apply In_erase_keys in Hx. tauto. }
  split; [exact Hempty|]. split; [reflexivity|].
  split.
  { intros k Hk'. rewrite <- Hm in Hk'.
    assert (Hk2 : get_table_key k <> None) by (apply Hmeta; now rewrite <- Hm).
    destruct k as [|db [|tb rest]]; simpl in Hk2; try congruence.
    eapply getBuffer_remove_tables; [|reflexivity].
    eapply Hin; [exact Hk'|reflexivity]. }
  split.
  { intros k. unfold getCachedChunksForKeyPrefix. simpl. now rewrite Hempty. }
  split; [reflexivity|exact Hmax].
Qed.

Lemma clear_empties_the_cache_witness :
  exists c',
    clear example_two_tables = Ok tt c'
    /\ cached_chunks_ c' = []
    /\ cached_metadata_ c' = []
    /\ (forall k, In k (cached_metadata_ example_two_tables) ->
          getBuffer (global_file_mgr_ c') k = None)
    /\ (forall k, getCachedChunksForKeyPrefix c' k = [])
    /\ (forall k, hasCachedMetadataForKeyPrefix c' k = false)
    /\ max_pages_per_table_ c' = max_pages_per_table_ example_two_tables.
Proof.
  apply (clear_empties_the_cache example_two_tables).
  - intros k Hin. simpl in Hin.
    destruct Hin as [<-|[<-|[<-|[]]]]; eexists;
      (split; [reflexivity|]; split; vm_compute; discriminate).
  - intros k Hin. simpl in Hin.
    destruct Hin as [<-|[<-|[<-|[]]]]; discriminate.
Defined.

(** ** Caching metadata *)

Lemma evictThenEraseChunkUnlocked_effect :
  forall c k c',
    evictThenEraseChunkUnlocked c k = Ok tt c' ->
    cached_metadata_ c' = cached_metadata_ c
    /\ num_metadata_added_ c' = num_metadata_added_ c
    /\ max_pages_per_table_ c' = max_pages_per_table_ c
    /\ (forall x, In x (cached_chunks_ c') -> In x (cached_chunks_ c))
    /\ (forall t, map_find t (eviction_tracker_map_ c') <> None
                  <-> map_find t (eviction_tracker_map_ c) <> None)
    /\ (forall t, get_table_key k = Some t ->
                  map_find t (eviction_tracker_map_ c) <> None ->
                  ~ In k (cached_chunks_ c'))
    /\ (forall x b0, getBuffer (global_file_mgr_ c) x = Some b0 ->
          exists b, getBuffer (global_file_mgr_ c') x = Some b
                    /\ fb_size b = fb_size b0)
    /\ (forall x, getBuffer (global_file_mgr_ c) x = None ->
                  getBuffer (global_file_mgr_ c') x = None).
Proof.
  intros c k c'. unfold evictThenEraseChunkUnlocked.
  destruct (get_table_key k) as [t0|] eqn:Et; [|discriminate].
  destruct (map_find t0 (eviction_tracker_map_ c)) as [tr|] eqn:Etr.
  2:{ intros H. inversion H; subst c'.
      split; [reflexivity|]. split; [reflexivity|]. split; [reflexivity|].
      split; [auto|]. split; [tauto|].
      split; [intros t E; inversion E; subst; congruence|].
      split; [eauto|auto]. }
  assert (Htr : forall v t,
             map_find t (map_set t0 v (eviction_tracker_map_ c)) <> None
             <-> map_find t (eviction_tracker_map_ c) <> None).
  { intros v t. destruct (list_eq_dec Z.eq_dec t t0) as [->|Hne].
    - rewrite map_find_set_same, Etr. split; discriminate.
    - rewrite map_find_set_other by auto. tauto. }
  unfold eraseChunk.
  destruct (set_find k (cached_chunks_ c)) eqn:Ef.
  - destruct (getBuffer (global_file_mgr_ c) k) as [b|] eqn:Eb; [|discriminate].
    simpl. intros H. inversion H; subst c'; clear H. simpl.
    split; [reflexivity|]. split; [reflexivity|]. split; [reflexivity|].
    split; [intros x Hx; apply In_set_erase in Hx; tauto|].
    split; [apply Htr|].
    split; [intros t _ _ Hin; apply In_set_erase in Hin; tauto|].
    split.
    + intros x b0 Hx. destruct (list_eq_dec Z.eq_dec x k) as [->|Hne].
      * rewrite getBuffer_set_buffer_same. eexists. split; [reflexivity|].
        simpl. congruence.
      * rewrite getBuffer_set_buffer_other by auto. eauto.
    + intros x Hx. destruct (list_eq_dec Z.eq_dec x k) as [->|Hne];
        [congruence|]. now rewrite getBuffer_set_buffer_other.
  - intros H. inversion H; subst c'; clear H. simpl.
    split; [reflexivity|]. split; [reflexivity|]. split; [reflexivity|].
    split; [auto|]. split; [apply Htr|].
    split; [intros t _ _; now apply set_find_not_In|].
    split; [eauto|auto].
Qed.

Lemma cacheMetadata_one_effect :
  forall c k meta c',
    cacheMetadata_one c k meta = Ok tt c' ->
    cached_metadata_ c' = set_emplace k (cached_metadata_ c)
    /\ num_metadata_added_ c' = wrap (num_metadata_added_ c + 1)
    /\ max_pages_per_table_ c' = max_pages_per_table_ c
    /\ (forall x, In x (cached_chunks_ c') -> In x (cached_chunks_ c))
    /\ (forall t, map_find t (eviction_tracker_map_ c') <> None
                  <-> map_find t (eviction_tracker_map_ c) <> None)
    /\ (forall t, get_table_key k = Some t ->
                  map_find t (eviction_tracker_map_ c) <> None ->
                  ~ In k (cached_chunks_ c'))
    /\ (exists b, getBuffer (global_file_mgr_ c') k = Some b
                  /\ fb_size b = numBytes meta)
    /\ (forall x b0, x <> k -> getBuffer (global_file_mgr_ c) x = Some b0 ->
          exists b, getBuffer (global_file_mgr_ c') x = Some b
                    /\ fb_size b = fb_size b0).
Proof.
  intros c k meta c'. unfold cacheMetadata_one.
  destruct (is_varlen_key k && negb (is_varlen_data_key k)); [discriminate|].
  set (ik := if is_varlen_key k then index_chunk_key_of k else None).
  set (c0 := set_cached_metadata c (set_emplace k (cached_metadata_ c))).
  set (fm := global_file_mgr_ c0).
  match goal with
  | |- match ?created with _ => _ end = _ -> _ => set (mk := created)
  end.
  assert (Hmk : forall fm1, mk = Some fm1 ->
             forall x b0, x <> k -> getBuffer fm x = Some b0 ->
                          getBuffer fm1 x = Some b0).
  { intros fm1 E x b0 Hx Hb. unfold mk in E.
    assert (Hck : getBuffer (createBuffer fm k) x = Some b0)
      by (unfold createBuffer; now rewrite getBuffer_set_buffer_other).
    destruct (negb (isBufferOnDevice fm k)).
    - destruct ik as [i|].
      + destruct (isBufferOnDevice fm i) eqn:Ei; [discriminate|].
        inversion E; subst fm1. unfold createBuffer at 1.
        destruct (list_eq_dec Z.eq_dec x i) as [->|Hne].
        * unfold isBufferOnDevice in Ei. unfold getBuffer in Hb.
          rewrite Hb in Ei. discriminate.
        * now rewrite getBuffer_set_buffer_other.
      + inversion E; subst fm1. exact Hck.
    - destruct ik as [i|].
      + destruct (isBufferOnDevice fm i); [|discriminate].
        inversion E; subst fm1. exact Hb.
      + inversion E; subst fm1. exact Hb. }
  destruct mk as [fm1|]; [|discriminate].
  specialize (Hmk fm1 eq_refl).
  destruct (getBuffer fm1 k) as [buf|] eqn:Ebuf; [|discriminate].
  set (c1 := set_file_mgr c0 (set_metadata_for_buffer fm1 k buf meta)).
  pose proof (evictThenEraseChunkUnlocked_effect c1 k) as H1.
  destruct (evictThenEraseChunkUnlocked c1 k) as [[] c2|e c2|]; try discriminate.
  destruct (H1 c2 eq_refl) as (Hm1 & Hn1 & Hx1 & Hc1 & Ht1 & Hk1 & Hs1 & _).
  assert (Hsize1 : exists b, getBuffer (global_file_mgr_ c2) k = Some b
                             /\ fb_size b = numBytes meta).
  { destruct (Hs1 k (mkFileBuffer (numBytes meta) (fb_pages buf))) as [b [Hb Hsz]].
    - unfold c1, set_metadata_for_buffer. simpl.
      apply getBuffer_set_buffer_same.
    - exists b. split; [exact Hb|]. exact Hsz. }
  assert (Hother1 : forall x b0, x <> k -> getBuffer fm x = Some b0 ->
             exists b, getBuffer (global_file_mgr_ c2) x = Some b
                       /\ fb_size b = fb_size b0).
  { intros x b0 Hx Hb. apply Hs1. unfold c1, set_metadata_for_buffer. simpl.
    rewrite getBuffer_set_buffer_other by auto. now apply Hmk. }
  destruct ik as [i|].
  - pose proof (evictThenEraseChunkUnlocked_effect c2 i) as H2.
    destruct (evictThenEraseChunkUnlocked c2 i) as [[] c3|e c3|];
      try discriminate.
    destruct (H2 c3 eq_refl) as (Hm2 & Hn2 & Hx2 & Hc2 & Ht2 & _ & Hs2 & _).
    intros H. inversion H; subst c'; clear H. simpl.
    split; [rewrite Hm2, Hm1; reflexivity|].
    split; [rewrite Hn2, Hn1; reflexivity|].
    split; [rewrite Hx2, Hx1; reflexivity|].
    split; [intros x Hx; apply (Hc1 x), Hc2, Hx|].
    split; [intros t; rewrite Ht2, Ht1; reflexivity|].
    split.
    { intros t Et Htr Hin. apply (Hk1 t Et); [exact Htr|]. now apply Hc2. }
    split.
    { destruct Hsize1 as [b [Hb Hsz]]. destruct (Hs2 k b Hb) as [b' [Hb' Hsz']].
      exists b'. split; [exact Hb'|congruence]. }
    intros x b0 Hx Hb. destruct (Hother1 x b0 Hx Hb) as [b [Hb2 Hsz]].
    destruct (Hs2 x b Hb2) as [b' [Hb' Hsz']].
    exists b'. split; [exact Hb'|congruence].
  - intros H. inversion H; subst c'; clear H. simpl.
    split; [rewrite Hm1; reflexivity|].
    split; [rewrite Hn1; reflexivity|].
    split; [rewrite Hx1; reflexivity|].
    split; [exact Hc1|]. split; [exact Ht1|]. split; [exact Hk1|].
    split; [exact Hsize1|exact Hother1].
Qed.

Lemma wrap_succ : forall x n, wrap (wrap (x + 1) + n) = wrap (x + (1 + n)).
Proof.
  intros x n. unfold wrap, SIZE_MOD.
  rewrite Z.add_mod_idemp_l by lia. f_equal. lia.
Qed.

Lemma of_nat_length_cons :
  forall (A : Type) (x : A) l,
    Z.of_nat (List.length (x :: l)) = 1 + Z.of_nat (List.length l).
Proof. intros. simpl List.length. lia. Qed.

Lemma wrap_wrap : forall x, wrap (wrap x) = wrap x.
Proof. intros x. unfold wrap, SIZE_MOD. apply Z.mod_mod. lia. Qed.

Lemma cacheMetadataVec_effect :
  forall metadata_vec c c',
    cacheMetadataVec c metadata_vec = Ok tt c' ->
    (forall k, In k (cached_metadata_ c')
               <-> In k (cached_metadata_ c) \/ In k (map fst metadata_vec))
    /\ wrap (num_metadata_added_ c')
       = wrap (num_metadata_added_ c + Z.of_nat (List.length metadata_vec))
    /\ max_pages_per_table_ c' = max_pages_per_table_ c
    /\ (forall x, In x (cached_chunks_ c') -> In x (cached_chunks_ c))
    /\ (forall t, map_find t (eviction_tracker_map_ c') <> None
                  <-> map_find t (eviction_tracker_map_ c) <> None)
    /\ (forall k t, In k (map fst metadata_vec) ->
                    get_table_key k = Some t ->
                    map_find t (eviction_tracker_map_ c) <> None ->
                    ~ In k (cached_chunks_ c'))
    /\ (forall x b0, ~ In x (map fst metadata_vec) ->
          getBuffer (global_file_mgr_ c) x = Some b0 ->
          exists b, getBuffer (global_file_mgr_ c') x = Some b
                    /\ fb_size b = fb_size b0)
    /\ (NoDup (map fst metadata_vec) ->
        forall k meta, In (k, meta) metadata_vec ->
          exists b, getBuffer (global_file_mgr_ c') k = Some b
                    /\ fb_size b = numBytes meta).
Proof.
  induction metadata_vec as [|[k0 meta0] rest IH]; intros c c' H.
  - simpl in H. inversion H; subst c'. simpl.
    split; [tauto|]. split; [now rewrite Z.add_0_r|]. split; [reflexivity|].
    split; [auto|]. split; [tauto|]. split; [intros k t []|].
    split; [eauto|]. intros _ k meta [].
  - cbn [cacheMetadataVec] in H.
    pose proof (cacheMetadata_one_effect c k0 meta0) as H1.
    destruct (cacheMetadata_one c k0 meta0) as [[] c1|e c1|]; try discriminate.
    destruct (H1 c1 eq_refl) as (Hm1 & Hn1 & Hx1 & Hc1 & Ht1 & Hk1 & Hs1 & Ho1).
    destruct (IH c1 c' H) as (Hm & Hn & Hx & Hc & Ht & Hk & Ho & Hs).
    split.
    { intros k. rewrite Hm, Hm1, In_set_emplace. simpl.
      split; [intros [[->|A]|B]; auto|intros [A|[<-|B]]; auto]. }
    split.
    { rewrite Hn, Hn1.
      rewrite of_nat_length_cons. apply wrap_succ. }
    split; [rewrite Hx, Hx1; reflexivity|].
    split; [intros x Hin; apply (Hc1 x), Hc, Hin|].
    split; [intros t; rewrite Ht, Ht1; reflexivity|].
    split.
    { intros k t [<-|Hin] Et Htr.
      - intros Hin. apply (Hk1 t Et Htr). now apply Hc.
      - apply (Hk k t Hin Et). now apply Ht1. }
    split.
    { intros x b0 Hnin Hb. simpl in Hnin.
      destruct (Ho1 x b0) as [b [Hb1 Hsz1]]; [intros ->; tauto|exact Hb|].
      destruct (Ho x b) as [b' [Hb' Hsz']]; [tauto|exact Hb1|].
      exists b'. split; [exact Hb'|congruence]. }
    intros Hnd k meta [E|Hin].
    + inversion E; subst k0 meta0.
      simpl in Hnd. inversion Hnd as [|y l Hnin Hnd']; subst.
      destruct Hs1 as [b [Hb1 Hsz1]].
      destruct (Ho k b Hnin Hb1) as [b' [Hb' Hsz']].
      exists b'. split; [exact Hb'|congruence].
    + simpl in Hnd. inversion Hnd as [|y l Hnin Hnd']; subst.
      now apply Hs.
Qed.

(** X7.  When [cacheMetadataVec] returns, the metadata set holds what it held
    and every key of the vector; [num_metadata_added_] has grown by the
    length of the vector (on [size_t]); no chunk has been added to the
    cached chunks, and a key of the vector whose table has a tracker is no
    longer a cached chunk; and when the keys of the vector are distinct,
    the file buffer of each has the size its metadata gives. *)
Theorem cacheMetadataVec_caches_metadata_and_evicts_chunks :
  forall c metadata_vec c',
    cacheMetadataVec c metadata_vec = Ok tt c' ->
    (forall k, isMetadataCached c' k = true
               <-> isMetadataCached c k = true \/ In k (map fst metadata_vec))
    /\ wrap (num_metadata_added_ c')
       = wrap (num_metadata_added_ c + Z.of_nat (List.length metadata_vec))
    /\ (forall x, In x (cached_chunks_ c') -> In x (cached_chunks_ c))
    /\ (forall k t, In k (map fst metadata_vec) ->
                    get_table_key k = Some t ->
                    map_find t (eviction_tracker_map_ c) <> None ->
                    ~ In k (cached_chunks_ c'))
    /\ (NoDup (map fst metadata_vec) ->
        forall k meta, In (k, meta) metadata_vec ->
          exists b, getBuffer (global_file_mgr_ c') k = Some b
                    /\ fb_size b = numBytes meta)
    /\ max_pages_per_table_ c' = max_pages_per_table_ c.
Proof.
  intros c vec c' H.
  destruct (cacheMetadataVec_effect vec c c' H)
    as (Hm & Hn & Hx & Hc & _ & Hk & _ & Hs).
  split.
  { intros k. unfold isMetadataCached. rewrite !set_find_In. apply Hm. }
  split; [exact Hn|]. split; [exact Hc|]. split; [exact Hk|].
  split; [exact Hs|exact Hx].
Qed.

(** X8.  When [cacheMetadataWithFragIdGreaterOrEqualTo] returns, the
    metadata set holds what it held and the keys of the vector whose
    fragment id is at least [frag_id]; the file buffer of every other key
    keeps its size. *)
Theorem cacheMetadataWithFragIdGreaterOrEqualTo_filters :
  forall c metadata_vec frag_id c',
    cacheMetadataWithFragIdGreaterOrEqualTo c metadata_vec frag_id = Ok tt c' ->
    (forall k, isMetadataCached c' k = true
               <-> isMetadataCached c k = true
                   \/ exists meta f,
                        In (k, meta) metadata_vec
                        /\ fragment_id_of k = Some f /\ frag_id <= f)
    /\ (forall k b0,
          (forall meta f, In (k, meta) metadata_vec ->
                          fragment_id_of k = Some f -> f < frag_id) ->
          getBuffer (global_file_mgr_ c) k = Some b0 ->
          exists b, getBuffer (global_file_mgr_ c') k = Some b
                    /\ fb_size b = fb_size b0)
    /\ (forall x, In x (cached_chunks_ c') -> In x (cached_chunks_ c)).
Proof.
  intros c vec frag_id c'. unfold cacheMetadataWithFragIdGreaterOrEqualTo.
  destruct (forallb _ vec); [|discriminate].
  intros H.
  destruct (cacheMetadataVec_effect _ c c' H)
    as (Hm & _ & _ & Hc & _ & _ & Ho & _).
  assert (Hin : forall k,
             In k (map fst
                     (filter (fun km => match fragment_id_of (fst km) with
                                        | Some f => f >=? frag_id
                                        | None => false
                                        end) vec))
             <-> exists meta f,
                   In (k, meta) vec
                   /\ fragment_id_of k = Some f /\ frag_id <= f).
  { intros k. rewrite in_map_iff. split.
    - intros [[k' meta] [E Hf]]. simpl in E. subst k'.
      apply filter_In in Hf. destruct Hf as [Hv Hf]. simpl in Hf.
      destruct (fragment_id_of k) as [f|]; [|discriminate].
      exists meta, f. split; [exact Hv|]. split; [reflexivity|].
      apply Z.geb_le in Hf. lia.
    - intros [meta [f [Hv [Ef Hle]]]]. exists (k, meta). split; [reflexivity|].
      apply filter_In. split; [exact Hv|]. simpl. rewrite Ef.
      apply Z.geb_le. lia. }
  split.
  { intros k. unfold isMetadataCached. rewrite !set_find_In, Hm, Hin.
    reflexivity. }
  split; [|exact Hc].
  intros k b0 Hlow Hb. apply Ho; [|exact Hb].
  rewrite Hin. intros [meta [f [Hv [Ef Hle]]]].
  specialize (Hlow meta f Hv Ef). lia.
Qed.

Lemma cacheMetadataVec_caches_metadata_and_evicts_chunks_witness :
  exists c',
    cacheMetadataVec example_cached_table [([1; 1; 1; 0], mkChunkMetadata 8)]
    = Ok tt c'
    /\ In [1; 1; 1; 0] (cached_chunks_ example_cached_table)
    /\ ~ In [1; 1; 1; 0] (cached_chunks_ c')
    /\ wrap (num_metadata_added_ c') = wrap (0 + 1)
    /\ exists b, getBuffer (global_file_mgr_ c') [1; 1; 1; 0] = Some b
                 /\ fb_size b = 8.
Proof.
  eexists. split; [vm_compute; reflexivity|].
  destruct (cacheMetadataVec_caches_metadata_and_evicts_chunks
              example_cached_table [([1; 1; 1; 0], mkChunkMetadata 8)] _ eq_refl)
    as (_ & Hn & _ & Hk & Hs & _).
  split; [now left|].
  split.
  { apply (Hk [1; 1; 1; 0] [1; 1]); [now left|reflexivity|].
    vm_compute. discriminate. }
  split; [exact Hn|].
  apply (Hs ltac:(repeat constructor; intros []) [1; 1; 1; 0] (mkChunkMetadata 8)).
  now left.
Defined.

Lemma cacheMetadataWithFragIdGreaterOrEqualTo_filters_witness :
  exists c',
    cacheMetadataWithFragIdGreaterOrEqualTo example_cached_table
      [([1; 1; 1; 0], mkChunkMetadata 8); ([1; 1; 1; 1], mkChunkMetadata 12)] 1
    = Ok tt c'
    /\ isMetadataCached c' [1; 1; 1; 1] = true
    /\ exists b, getBuffer (global_file_mgr_ c') [1; 1; 1; 0] = Some b
                 /\ fb_size b = 4.
Proof.
  eexists. split; [vm_compute; reflexivity|].
  destruct (cacheMetadataWithFragIdGreaterOrEqualTo_filters
              example_cached_table
              [([1; 1; 1; 0], mkChunkMetadata 8);
               ([1; 1; 1; 1], mkChunkMetadata 12)] 1 _ eq_refl)
    as (Hm & Ho & _).
  split.
  { apply Hm. right. exists (mkChunkMetadata 12), 1.
    split; [right; now left|]. split; [reflexivity|lia]. }
  apply (Ho [1; 1; 1; 0] (mkFileBuffer 4 1)); [|reflexivity].
  intros meta f [E|[E|[]]] Ef; inversion E; subst; inversion Ef; lia.
Defined.

(** ** Buffers handed out for caching, and chunks cached by table *)

(** X9.  [getChunkBuffersForCaching] never throws, and it returns exactly
    when every key is not a cached chunk and has a file buffer without
    pages; it then leaves the sets and the trackers as they were, empties
    the buffer of every key and keeps every other buffer. *)
Theorem getChunkBuffersForCaching_iff :
  forall chunk_keys c,
    (forall e c', getChunkBuffersForCaching c chunk_keys <> Throw e c')
    /\ ((exists c', getChunkBuffersForCaching c chunk_keys = Ok tt c')
        <-> forall k, In k chunk_keys ->
              set_find k (cached_chunks_ c) = false
              /\ exists b, getBuffer (global_file_mgr_ c) k = Some b
                           /\ fb_pages b = 0)
    /\ forall c',
         getChunkBuffersForCaching c chunk_keys = Ok tt c' ->
         cached_chunks_ c' = cached_chunks_ c
         /\ cached_metadata_ c' = cached_metadata_ c
         /\ eviction_tracker_map_ c' = eviction_tracker_map_ c
         /\ (forall k, In k chunk_keys ->
               getBuffer (global_file_mgr_ c') k = Some (mkFileBuffer 0 0))
         /\ (forall k, ~ In k chunk_keys ->
               getBuffer (global_file_mgr_ c') k
               = getBuffer (global_file_mgr_ c) k).
Proof.
  intros keys. induction keys as [|k0 rest IH]; intros c.
  - simpl. split; [discriminate|]. split.
    + split; [intros _ k []|intros _; now exists c].
    + intros c' H. inversion H; subst c'. repeat split; auto. intros k [].
  - cbn [getChunkBuffersForCaching].
    destruct (set_find k0 (cached_chunks_ c)) eqn:Ef.
    { split; [discriminate|]. split; [|discriminate].
      split; [intros [c' H]; discriminate|].
      intros H. destruct (H k0 (or_introl eq_refl)) as [H1 _]. congruence. }
    destruct (getBuffer (global_file_mgr_ c) k0) as [b0|] eqn:Eb.
    2:{ split; [discriminate|]. split; [|discriminate].
        split; [intros [c' H]; discriminate|].
        intros H. destruct (H k0 (or_introl eq_refl)) as [_ [b [H1 _]]].
        congruence. }
    destruct (fb_pages b0 =? 0) eqn:Ep.
    2:{ split; [discriminate|]. split; [|discriminate].
        split; [intros [c' H]; discriminate|].
        intros H. destruct (H k0 (or_introl eq_refl)) as [_ [b [H1 H2]]].
        rewrite Eb in H1. inversion H1; subst b.
        rewrite H2 in Ep. discriminate. }
    apply Z.eqb_eq in Ep.
    set (c1 := set_file_mgr c
                 (set_buffer (global_file_mgr_ c) k0 (mkFileBuffer 0 0))).
    destruct (IH c1) as (Hthrow & Hiff & Heff).
    assert (Hcond : forall k,
               (set_find k (cached_chunks_ c1) = false
                /\ exists b, getBuffer (global_file_mgr_ c1) k = Some b
                             /\ fb_pages b = 0)
               <-> (set_find k (cached_chunks_ c) = false
                    /\ exists b, getBuffer (global_file_mgr_ c) k = Some b
                                 /\ fb_pages b = 0)).
    { intros k. unfold c1. simpl.
      destruct (list_eq_dec Z.eq_dec k k0) as [->|Hne].
      - rewrite getBuffer_set_buffer_same, Eb, Ef.
        split; intros _; (split; [reflexivity|]); eexists;
          (split; [reflexivity|]); [exact Ep|reflexivity].
      - rewrite getBuffer_set_buffer_other by auto. tauto. }
    split; [exact Hthrow|]. split.
    + rewrite Hiff. split.
      * intros H k [<-|Hin].
        -- split; [exact Ef|]. exists b0. auto.
        -- apply Hcond. now apply H.
      * intros H k Hin. apply Hcond. apply H. now right.
    + intros c' H. destruct (Heff c' H) as (H1 & H2 & H3 & H4 & H5).
      split; [exact H1|]. split; [exact H2|]. split; [exact H3|].
      split.
      * intros k [<-|Hin]; [|now apply H4].
        destruct (in_dec (list_eq_dec Z.eq_dec) k0 rest) as [Hr|Hr];
          [now apply H4|].
        rewrite (H5 k0 Hr). unfold c1. simpl.
        apply getBuffer_set_buffer_same.
      * intros k Hnin. rewrite H5 by (intros Hin; apply Hnin; now right).
        unfold c1. simpl. apply getBuffer_set_buffer_other.
        intros ->. apply Hnin. now left.
Qed.

Lemma evict_while_buffers :
  forall over q num_pages chunks fm tr' chunks' fm',
    survivor (evict_while over q num_pages chunks fm) = Some (tr', chunks', fm') ->
    forall x, getBuffer fm' x <> None <-> getBuffer fm x <> None.
Proof.
  induction q as [|victim q IH]; intros np chunks fm tr' chunks' fm' H x;
    simpl in H.
  - destruct (over np); simpl in H; inversion H; subst; tauto.
  - destruct (over np).
    + unfold eraseChunk in H.
      destruct (set_find victim chunks).
      * destruct (getBuffer fm victim) as [b|] eqn:Eb; [|discriminate].
        simpl in H. rewrite (IH _ _ _ _ _ _ H x).
        destruct (list_eq_dec Z.eq_dec x victim) as [->|Hne].
        -- rewrite getBuffer_set_buffer_same, Eb. split; discriminate.
        -- rewrite getBuffer_set_buffer_other by auto. tauto.
      * apply (IH _ _ _ _ _ _ H x).
    + simpl in H. inversion H; subst. tauto.
Qed.

Lemma insertChunkIntoEvictionAlg_frame :
  forall c k size r c',
    insertChunkIntoEvictionAlg c k size = Ok r c' ->
    num_chunks_added_ c' = num_chunks_added_ c
    /\ cached_metadata_ c' = cached_metadata_ c
    /\ num_metadata_added_ c' = num_metadata_added_ c
    /\ max_pages_per_table_ c' = max_pages_per_table_ c
    /\ (forall x, getBuffer (global_file_mgr_ c') x <> None
                  <-> getBuffer (global_file_mgr_ c) x <> None)
    /\ (r = false -> c' = c)
    /\ (r = true -> In k (cached_chunks_ c')).
Proof.
  intros c k size r c'. unfold insertChunkIntoEvictionAlg.
  destruct (get_table_key k) as [t|]; [|discriminate].
  destruct (map_find t (eviction_tracker_map_ c)) as [tr|]; [|discriminate].
  destruct (_ >? max_pages_per_table_ c).
  { intros H. inversion H; subst. repeat split; auto; discriminate. }
  destruct (evict_while _ (eviction_alg_ tr) (num_pages_ tr) (cached_chunks_ c)
              (global_file_mgr_ c)) as [u [[tr' chunks'] fm']|e [[tr' chunks'] fm']|]
    eqn:Ee; try discriminate.
  intros H. inversion H; subst r c'; clear H. simpl.
  split; [reflexivity|]. split; [reflexivity|]. split; [reflexivity|].
  split; [reflexivity|].
  split; [eapply evict_while_buffers; rewrite Ee; reflexivity|].
  split; [discriminate|]. intros _. apply In_set_emplace. now left.
Qed.

Lemma cacheTableChunks_loop_effect :
  forall db_id table_id chunk_keys c c',
    cacheTableChunks_loop db_id table_id chunk_keys c = Ok tt c' ->
    (forall k, In k chunk_keys -> has_table_prefix_of db_id table_id k = true)
    /\ (forall k, In k chunk_keys -> getBuffer (global_file_mgr_ c) k <> None)
    /\ wrap (num_chunks_added_ c')
       = wrap (num_chunks_added_ c + Z.of_nat (List.length chunk_keys))
    /\ cached_metadata_ c' = cached_metadata_ c
    /\ max_pages_per_table_ c' = max_pages_per_table_ c.
Proof.
  intros db tb keys. induction keys as [|k0 rest IH]; intros c c' H.
  - simpl in H. inversion H; subst c'. simpl.
    split; [intros k []|]. split; [intros k []|].
    split; [now rewrite Z.add_0_r|]. split; reflexivity.
  - cbn [cacheTableChunks_loop] in H.
    destruct k0 as [|d [|t kr]]; try discriminate.
    destruct (negb (d =? db) || negb (t =? tb)) eqn:Ed; [discriminate|].
    apply orb_false_iff in Ed. destruct Ed as [Ed1 Ed2].
    apply negb_false_iff in Ed1. apply negb_false_iff in Ed2.
    destruct (getBuffer (global_file_mgr_ c) (d :: t :: kr)) as [b|] eqn:Eb;
      [|discriminate].
    pose proof (insertChunkIntoEvictionAlg_frame (incr_chunks_added c)
                  (d :: t :: kr) (fb_size b)) as Hf.
    destruct (insertChunkIntoEvictionAlg (incr_chunks_added c) (d :: t :: kr)
                (fb_size b)) as [r c1|e c1|]; try discriminate.
    destruct (Hf r c1 eq_refl) as (Hn1 & Hm1 & _ & Hx1 & Hb1 & _).
    destruct (IH c1 c' H) as (Hp & Hb & Hn & Hm & Hx).
    split.
    { intros k [<-|Hin]; [|now apply Hp]. simpl. now rewrite Ed1, Ed2. }
    split.
    { intros k [<-|Hin]; [congruence|]. apply (Hb1 k). now apply Hb. }
    split.
    { rewrite Hn, Hn1. simpl num_chunks_added_.
      rewrite of_nat_length_cons. apply wrap_succ. }
    split; [rewrite Hm, Hm1; reflexivity|].
    rewrite Hx, Hx1. reflexivity.
Qed.

(** X10.  When [cacheTableChunks] returns, the vector was not empty, all its
    keys are keys of the table of the first one, and each had a file buffer;
    [num_chunks_added_] has grown by the length of the vector (on [size_t]),
    whether or not a chunk fitted the budget; the metadata set and the
    budget are as they were. *)
Theorem cacheTableChunks_counts_every_key :
  forall c chunk_keys c',
    cacheTableChunks c chunk_keys = Ok tt c' ->
    (exists db_id table_id rest others,
        chunk_keys = (db_id :: table_id :: rest) :: others
        /\ (forall k, In k chunk_keys ->
              has_table_prefix_of db_id table_id k = true))
    /\ (forall k, In k chunk_keys -> getBuffer (global_file_mgr_ c) k <> None)
    /\ wrap (num_chunks_added_ c')
       = wrap (num_chunks_added_ c + Z.of_nat (List.length chunk_keys))
    /\ cached_metadata_ c' = cached_metadata_ c
    /\ max_pages_per_table_ c' = max_pages_per_table_ c.
Proof.
  intros c keys c' H. unfold cacheTableChunks in H.
  destruct keys as [|[|db [|tb rest]] others]; try discriminate.
  unfold createTrackerMapEntryIfNoneExists in H. simpl negb in H.
  cbn iota in H.
  destruct (map_find [db; tb] (eviction_tracker_map_ c)) as [tr|] eqn:Etr.
  - destruct (cacheTableChunks_loop_effect db tb _ c c' H)
      as (Hp & Hb & Hn & Hm & Hx).
    split; [exists db, tb, rest, others; split; [reflexivity|exact Hp]|].
    split; [exact Hb|]. split; [exact Hn|]. split; [exact Hm|exact Hx].
  - destruct (cacheTableChunks_loop_effect db tb _ _ c' H)
      as (Hp & Hb & Hn & Hm & Hx).
    split; [exists db, tb, rest, others; split; [reflexivity|exact Hp]|].
    split; [exact Hb|]. split; [exact Hn|]. split; [exact Hm|exact Hx].
Qed.

(** A chunk of three pages offered through [cacheTableChunks] to a budget of
    two is counted and not cached. *)
Example cacheTableChunks_counts_a_rejected_chunk :
  let c :=
    mkCache [] [] [] (mkGlobalFileMgr 4 [([1; 1; 1; 0], mkFileBuffer 12 0)])
      2 0 0 0 in
  exists c',
    cacheTableChunks c [[1; 1; 1; 0]] = Ok tt c'
    /\ num_chunks_added_ c' = 1
    /\ cached_chunks_ c' = [].
Proof. eexists. split; [vm_compute; reflexivity|]. split; reflexivity. Qed.

Lemma cacheTableChunks_counts_every_key_witness :
  exists c',
    cacheTableChunks
      (mkCache [] [] [] (mkGlobalFileMgr 4 [([1; 1; 1; 0], mkFileBuffer 12 0)])
         2 0 0 0)
      [[1; 1; 1; 0]] = Ok tt c'
    /\ wrap (num_chunks_added_ c') = wrap (0 + 1)
    /\ cached_metadata_ c' = [].
Proof.
  eexists. split; [vm_compute; reflexivity|].
  destruct (cacheTableChunks_counts_every_key
              (mkCache [] [] []
                 (mkGlobalFileMgr 4 [([1; 1; 1; 0], mkFileBuffer 12 0)]) 2 0 0 0)
              [[1; 1; 1; 0]] _ eq_refl)
    as (_ & _ & Hn & Hm & _).
  split; [exact Hn|exact Hm].
Defined.

(** ** Recovering the cache of a table *)

Lemma evict_while_paged_buffers :
  forall over q num_pages chunks fm tr' chunks' fm',
    survivor (evict_while over q num_pages chunks fm) = Some (tr', chunks', fm') ->
    (forall x, In x chunks' -> In x chunks)
    /\ forall x b, getBuffer fm' x = Some b -> fb_pages b > 0 ->
                   getBuffer fm x = Some b.
Proof.
  induction q as [|victim q IH]; intros np chunks fm tr' chunks' fm' H;
    simpl in H.
  - destruct (over np); simpl in H; inversion H; subst; auto.
  - destruct (over np).
    + unfold eraseChunk in H.
      destruct (set_find victim chunks).
      * destruct (getBuffer fm victim) as [b0|] eqn:Eb; [|discriminate].
        simpl in H. destruct (IH _ _ _ _ _ _ H) as [Hc Hb]. split.
        -- intros x Hx. apply Hc in Hx. apply In_set_erase in Hx. tauto.
        -- intros x b Hx Hp. specialize (Hb x b Hx Hp).
           destruct (list_eq_dec Z.eq_dec x victim) as [->|Hne].
           ++ rewrite getBuffer_set_buffer_same in Hb. inversion Hb; subst b.
              simpl in Hp. lia.
           ++ now rewrite getBuffer_set_buffer_other in Hb.
      * apply (IH _ _ _ _ _ _ H).
    + simpl in H. inversion H; subst. auto.
Qed.

Lemma insertChunkIntoEvictionAlg_chunks :
  forall c k size r c',
    insertChunkIntoEvictionAlg c k size = Ok r c' ->
    (forall x, In x (cached_chunks_ c') -> In x (cached_chunks_ c) \/ x = k)
    /\ (forall t, map_find t (eviction_tracker_map_ c) <> None ->
                  map_find t (eviction_tracker_map_ c') <> None)
    /\ (forall x b, getBuffer (global_file_mgr_ c') x = Some b ->
                    fb_pages b > 0 ->
                    getBuffer (global_file_mgr_ c) x = Some b).
Proof.
  intros c k size r c'. unfold insertChunkIntoEvictionAlg.
  destruct (get_table_key k) as [t|]; [|discriminate].
  destruct (map_find t (eviction_tracker_map_ c)) as [tr|]; [|discriminate].
  destruct (_ >? max_pages_per_table_ c).
  { intros H. inversion H; subst. auto. }
  destruct (evict_while _ (eviction_alg_ tr) (num_pages_ tr) (cached_chunks_ c)
              (global_file_mgr_ c)) as [u [[tr' chunks'] fm']|e [[tr' chunks'] fm']|]
    eqn:Ee; try discriminate.
  intros H. inversion H; subst r c'; clear H. simpl.
  destruct (evict_while_paged_buffers _ _ _ _ _ tr' chunks' fm'
              ltac:(rewrite Ee; reflexivity)) as [Hc Hb].
  split.
  - intros x Hx. apply In_set_emplace in Hx. destruct Hx as [->|Hx]; auto.
  - split; [intros t0 Ht0; now apply map_find_set_present|exact Hb].
Qed.

Lemma recover_loop_effect :
  forall meta_vec c c',
    recover_loop c meta_vec = Ok tt c' ->
    (forall k, In k (cached_metadata_ c')
               <-> In k (cached_metadata_ c) \/ In k (map fst meta_vec))
    /\ (forall t, map_find t (eviction_tracker_map_ c) <> None ->
                  map_find t (eviction_tracker_map_ c') <> None)
    /\ (forall x, In x (cached_chunks_ c') ->
          In x (cached_chunks_ c)
          \/ (In x (map fst meta_vec)
              /\ exists b, getBuffer (global_file_mgr_ c) x = Some b
                           /\ fb_pages b > 0))
    /\ (forall x b, getBuffer (global_file_mgr_ c') x = Some b ->
                    fb_pages b > 0 ->
                    getBuffer (global_file_mgr_ c) x = Some b).
Proof.
  induction meta_vec as [|[k0 meta0] rest IH]; intros c c' H.
  - simpl in H. inversion H; subst c'. simpl.
    split; [tauto|]. split; [auto|]. split; auto.
  - cbn [recover_loop] in H.
    set (c1 := set_cached_metadata c (set_emplace k0 (cached_metadata_ c))) in *.
    destruct (getBuffer (global_file_mgr_ c1) k0) as [buf|] eqn:Eb;
      [|discriminate].
    destruct (fb_pages buf >? 0) eqn:Ep.
    + pose proof (insertChunkIntoEvictionAlg_chunks c1 k0 (fb_size buf)) as Hi.
      pose proof (insertChunkIntoEvictionAlg_frame c1 k0 (fb_size buf)) as Hf.
      destruct (insertChunkIntoEvictionAlg c1 k0 (fb_size buf)) as [r c2|e c2|];
        try discriminate.
      destruct (Hi r c2 eq_refl) as (Hc2 & Ht2 & Hb2).
      destruct (Hf r c2 eq_refl) as (_ & Hm2 & _).
      destruct (IH c2 c' H) as (Hm & Ht & Hc & Hb).
      rewrite Z.gtb_ltb, Z.ltb_lt in Ep.
      split.
      { intros k. rewrite Hm, Hm2. unfold c1. simpl. rewrite In_set_emplace.
        split; [intros [[->|A]|B]; auto|intros [A|[<-|B]]; auto]. }
      split; [intros t Ht0; apply Ht, Ht2, Ht0|].
      split.
      { intros x Hx. destruct (Hc x Hx) as [Hx2|[Hin [b [Hgb Hpb]]]].
        - destruct (Hc2 x Hx2) as [Hx1| ->]; [left; exact Hx1|].
          right. split; [now left|]. exists buf. split; [exact Eb|lia].
        - right. split; [now right|]. exists b. split; [|exact Hpb].
          now apply (Hb2 x b). }
      intros x b Hx Hp. apply (Hb2 x b); [|exact Hp]. now apply Hb.
    + destruct (IH c1 c' H) as (Hm & Ht & Hc & Hb).
      split.
      { intros k. rewrite Hm. unfold c1. simpl. rewrite In_set_emplace.
        split; [intros [[->|A]|B]; auto|intros [A|[<-|B]]; auto]. }
      split; [exact Ht|].
      split; [|exact Hb].
      intros x Hx. destruct (Hc x Hx) as [Hx1|[Hin Hex]]; [left; exact Hx1|].
      right. split; [now right|exact Hex].
Qed.

(** X11.  When [recoverCacheForTable] returns, it reports whether the file
    manager had any metadata for the table; the table has a tracker; the
    metadata set holds what it held and every key the file manager reported;
    and a chunk that is newly cached is one of the reported keys whose file
    buffer has pages: a buffer without pages is recovered as metadata only. *)
Theorem recoverCacheForTable_recovers_paged_buffers :
  forall c table_key found meta_vec c',
    recoverCacheForTable c table_key = Ok (found, meta_vec) c' ->
    (found = true <-> meta_vec <> [])
    /\ is_table_key table_key = true
    /\ map_find table_key (eviction_tracker_map_ c') <> None
    /\ (forall k, isMetadataCached c' k = true
                  <-> isMetadataCached c k = true \/ In k (map fst meta_vec))
    /\ (forall x, In x (cached_chunks_ c') ->
          In x (cached_chunks_ c)
          \/ (In x (map fst meta_vec)
              /\ exists b, getBuffer (global_file_mgr_ c) x = Some b
                           /\ fb_pages b > 0)).
Proof.
  intros c t found vec c'. unfold recoverCacheForTable.
  unfold createTrackerMapEntryIfNoneExists.
  destruct (is_table_key t) eqn:Et; simpl; [|discriminate].
  assert (Hmain : forall c1,
             cached_chunks_ c1 = cached_chunks_ c ->
             cached_metadata_ c1 = cached_metadata_ c ->
             global_file_mgr_ c1 = global_file_mgr_ c ->
             map_find t (eviction_tracker_map_ c1) <> None ->
             match recover_loop c1 (fm_metadata_for_prefix (global_file_mgr_ c1) t)
             with
             | Ok _ c2 =>
                 Ok (match fm_metadata_for_prefix (global_file_mgr_ c1) t with
                     | [] => false
                     | _ :: _ => true
                     end, fm_metadata_for_prefix (global_file_mgr_ c1) t) c2
             | Throw e c2 => Throw e c2
             | Abort => Abort
             end = Ok (found, vec) c' ->
             (found = true <-> vec <> [])
             /\ true = true
             /\ map_find t (eviction_tracker_map_ c') <> None
             /\ (forall k, isMetadataCached c' k = true
                           <-> isMetadataCached c k = true \/ In k (map fst vec))
             /\ (forall x, In x (cached_chunks_ c') ->
                   In x (cached_chunks_ c)
                   \/ (In x (map fst vec)
                       /\ exists b, getBuffer (global_file_mgr_ c) x = Some b
                                    /\ fb_pages b > 0))).
  { intros c1 Hc Hm Hfm Htr.
    pose proof (recover_loop_effect
                  (fm_metadata_for_prefix (global_file_mgr_ c1) t) c1) as He.
    destruct (recover_loop c1 (fm_metadata_for_prefix (global_file_mgr_ c1) t))
      as [[] c2|e c2|]; try discriminate.
    intros H. inversion H; subst c'.
    destruct (He c2 eq_refl) as (Hm2 & Ht2 & Hc2 & _).
    split.
    { destruct (fm_metadata_for_prefix (global_file_mgr_ c1) t);
        split; congruence. }
    split; [reflexivity|]. split; [now apply Ht2|].
    split.
    { intros k. unfold isMetadataCached. rewrite !set_find_In, Hm2, Hm.
      reflexivity. }
    intros x Hx. rewrite <- Hc, <- Hfm. now apply Hc2. }
  destruct (map_find t (eviction_tracker_map_ c)) as [tr|] eqn:Etr.
  - apply Hmain; auto. congruence.
  - apply Hmain; auto. simpl. rewrite map_find_set_same. discriminate.
Qed.

(** The file manager holds a chunk with a page and a buffer that carries
    metadata only; the recovery caches the one and records both. *)
Lemma recoverCacheForTable_recovers_paged_buffers_witness :
  let c :=
    mkCache [] [] []
      (mkGlobalFileMgr 4
         [([1; 1; 1; 0], mkFileBuffer 4 1); ([1; 1; 2; 0], mkFileBuffer 4 0)])
      2 0 0 0 in
  exists found meta_vec c',
    recoverCacheForTable c [1; 1] = Ok (found, meta_vec) c'
    /\ found = true
    /\ cached_chunks_ c' = [[1; 1; 1; 0]]
    /\ isMetadataCached c' [1; 1; 2; 0] = true
    /\ forall x, In x (cached_chunks_ c') ->
         In x (cached_chunks_ c)
         \/ (In x (map fst meta_vec)
             /\ exists b, getBuffer (global_file_mgr_ c) x = Some b
                          /\ fb_pages b > 0).
Proof.
  intros c. do 3 eexists. split; [vm_compute; reflexivity|].
  destruct (recoverCacheForTable_recovers_paged_buffers c [1; 1] _ _ _ eq_refl)
    as (_ & _ & _ & _ & Hc).
  split; [reflexivity|]. split; [reflexivity|]. split; [reflexivity|].
  exact Hc.
Defined.

(** ** The data wrappers and the temporary buffers of the manager *)

(** X12.  [createDataWrapperIfNotExists] on a key of table [t]: with a
    wrapper for [t] it returns false and changes nothing; without one, and
    with a wrapper type that is neither CSV nor Parquet, it throws a runtime
    error and changes nothing; otherwise it returns true, the table has a
    wrapper of the catalog's type, the wrappers of the other tables and the
    temporary buffers are as they were, and the next call returns false. *)
Theorem createDataWrapperIfNotExists_creates_once :
  forall env m chunk_key t,
    get_table_key chunk_key = Some t ->
    (hasDataWrapper m t = true ->
       createDataWrapperIfNotExists env m chunk_key = Ok false m)
    /\ (hasDataWrapper m t = false ->
        env_data_wrapper_type env t = OTHER_WRAPPER ->
        createDataWrapperIfNotExists env m chunk_key
        = Throw (RuntimeError "Unsupported data wrapper") m)
    /\ (hasDataWrapper m t = false ->
        env_data_wrapper_type env t <> OTHER_WRAPPER ->
        exists m',
          createDataWrapperIfNotExists env m chunk_key = Ok true m'
          /\ map_find t (data_wrapper_map_ m')
             = Some (env_data_wrapper_type env t)
          /\ hasDataWrapper m' t = true
          /\ (forall t2, t2 <> t ->
                map_find t2 (data_wrapper_map_ m')
                = map_find t2 (data_wrapper_map_ m))
          /\ temp_chunk_buffer_map_ m' = temp_chunk_buffer_map_ m
          /\ createDataWrapperIfNotExists env m' chunk_key = Ok false m').
Proof.
  intros env m k t Et. unfold createDataWrapperIfNotExists, hasDataWrapper.
  rewrite Et.
  destruct (map_find t (data_wrapper_map_ m)) as [w|] eqn:Ew.
  { split; [reflexivity|]. split; discriminate. }
  split; [discriminate|]. split.
  - intros _ E. now rewrite E.
  - intros _ Hne.
    destruct (env_data_wrapper_type env t) eqn:Ety; [| |congruence];
      (eexists; split; [reflexivity|]; simpl; rewrite map_find_set_same;
       split; [reflexivity|]; split; [reflexivity|];
       split; [intros t2 Hne2; now apply map_find_set_other|];
       split; reflexivity).
Qed.

Lemma createDataWrapperIfNotExists_creates_once_witness :
  exists m',
    createDataWrapperIfNotExists (example_storage_env (inr [])) (mkMgr [] [])
      [1; 1; 1; 0] = Ok true m'
    /\ map_find [1; 1] (data_wrapper_map_ m') = Some CSV
    /\ createDataWrapperIfNotExists (example_storage_env (inr [])) m'
         [1; 1; 1; 0] = Ok false m'.
Proof.
  destruct (proj2 (proj2 (createDataWrapperIfNotExists_creates_once
                            (example_storage_env (inr [])) (mkMgr [] [])
                            [1; 1; 1; 0] [1; 1] eq_refl))
              eq_refl ltac:(discriminate))
    as (m' & H1 & H2 & _ & _ & _ & H3).
  exists m'. split; [exact H1|]. split; [exact H2|exact H3].
Defined.

Lemma map_find_None_iff :
  forall (V : Type) k (m : KeyMap V),
    map_find k m = None <-> ~ In k (map_keys m).
Proof.
  unfold map_keys. induction m as [|[x v] m IH]; simpl.
  - tauto.
  - destruct (key_eqb k x) eqn:E.
    + apply key_eqb_eq in E. subst x. split; [discriminate|tauto].
    + apply key_eqb_neq in E. rewrite IH. split.
      * intros H [A|B]; [congruence|tauto].
      * tauto.
Qed.

Lemma map_find_erase_all :
  forall (V : Type) ks (m : KeyMap V) k,
    map_find k (fold_left (fun t x => map_erase x t) ks m)
    = if existsb (key_eqb k) ks then None else map_find k m.
Proof.
  induction ks as [|x ks IH]; intros m k; simpl; [reflexivity|].
  rewrite IH. destruct (key_eqb k x) eqn:E; simpl.
  - apply key_eqb_eq in E. subst x. rewrite map_find_erase_same.
    now destruct (existsb (key_eqb k) ks).
  - apply key_eqb_neq in E. now rewrite map_find_erase_other.
Qed.

(** X13.  [removeTableRelatedDS] of the manager, on an ordered map of
    temporary buffers: afterwards the table has no data wrapper, the
    wrappers of the other tables are as they were, and a temporary buffer is
    gone exactly when its key lies between the table key and the table key
    followed by [INT_MAX]; no fetch for such a key is served from a
    temporary buffer. *)
Theorem removeTableRelatedDS_drops_wrapper_and_temp_buffers :
  forall m db_id table_id,
    StronglySorted key_lt (map_keys (temp_chunk_buffer_map_ m)) ->
    exists m',
      removeTableRelatedDS_mgr m db_id table_id = Some m'
      /\ hasDataWrapper m' [db_id; table_id] = false
      /\ (forall t, t <> [db_id; table_id] ->
            map_find t (data_wrapper_map_ m') = map_find t (data_wrapper_map_ m))
      /\ (forall k,
            map_find k (temp_chunk_buffer_map_ m')
            = if in_prefix_range [db_id; table_id] k then None
              else map_find k (temp_chunk_buffer_map_ m))
      /\ (forall env k destination num_bytes,
            in_prefix_range [db_id; table_id] k = true ->
            fetchBufferIfTempBufferMapEntryExists env m' k destination num_bytes
            = None).
Proof.
  intros m db tb Hs. unfold removeTableRelatedDS_mgr,
    clearTempChunkBufferMapEntriesForTable. simpl is_table_key. cbn iota.
  eexists. split; [reflexivity|].
  assert (Htemp : forall k,
             map_find k
               (fold_left (fun t x => map_erase x t)
                  (prefix_range [db; tb] (map_keys (temp_chunk_buffer_map_ m)))
                  (temp_chunk_buffer_map_ m))
             = if in_prefix_range [db; tb] k then None
               else map_find k (temp_chunk_buffer_map_ m)).
  { intros k. rewrite map_find_erase_all.
    destruct (existsb (key_eqb k)
                (prefix_range [db; tb] (map_keys (temp_chunk_buffer_map_ m))))
      eqn:Ex.
    - fold (set_find k (prefix_range [db; tb]
                          (map_keys (temp_chunk_buffer_map_ m)))) in Ex.
      apply set_find_In, In_prefix_range in Ex; [|exact Hs].
      destruct Ex as [_ Hr]. now rewrite Hr.
    - fold (set_find k (prefix_range [db; tb]
                          (map_keys (temp_chunk_buffer_map_ m)))) in Ex.
      destruct (in_prefix_range [db; tb] k) eqn:Hr; [|reflexivity].
      apply map_find_None_iff. intros Hin.
      apply set_find_not_In in Ex. apply Ex.
      apply In_prefix_range; auto. }
  unfold hasDataWrapper. simpl.
  split; [now rewrite map_find_erase_same|].
  split; [intros t Hne; now apply map_find_erase_other|].
  split; [exact Htemp|].
  intros env k dst n Hr. unfold fetchBufferIfTempBufferMapEntryExists. simpl.
  now rewrite Htemp, Hr.
Qed.

Lemma removeTableRelatedDS_drops_wrapper_and_temp_buffers_witness :
  let m :=
    mkMgr [([1; 1], CSV); ([1; 2], CSV)]
      [([1; 1; 1; 0], ForeignStorageBuffer); ([1; 2; 1; 0], ForeignStorageBuffer)]
  in
  exists m',
    removeTableRelatedDS_mgr m 1 1 = Some m'
    /\ hasDataWrapper m' [1; 1] = false
    /\ (forall t, t <> [1; 1] ->
          map_find t (data_wrapper_map_ m') = map_find t (data_wrapper_map_ m))
    /\ (forall k,
          map_find k (temp_chunk_buffer_map_ m')
          = if in_prefix_range [1; 1] k then None
            else map_find k (temp_chunk_buffer_map_ m))
    /\ (forall env k destination num_bytes,
          in_prefix_range [1; 1] k = true ->
          fetchBufferIfTempBufferMapEntryExists env m' k destination num_bytes
          = None).
Proof.
  intros m.
  apply (removeTableRelatedDS_drops_wrapper_and_temp_buffers m 1 1).
  repeat constructor.
Defined.

Lemma map_find_set_all :
  forall (V : Type) (v : V) ks (m : KeyMap V) k,
    map_find k (fold_left (fun t x => map_set x v t) ks m)
    = if existsb (key_eqb k) ks then Some v else map_find k m.
Proof.
  induction ks as [|x ks IH]; intros m k; simpl; [reflexivity|].
  rewrite IH. destruct (key_eqb k x) eqn:E; simpl.
  - apply key_eqb_eq in E. subst x. rewrite map_find_set_same.
    now destruct (existsb (key_eqb k) ks).
  - apply key_eqb_neq in E. now rewrite map_find_set_other.
Qed.

Lemma write_temp_buffers_frame :
  forall temp_keys written (t : KeyMap AbstractBuffer) x,
    (map_find x t <> None ->
     map_find x
       (fold_left
          (fun t kb =>
             if set_find (fst kb) temp_keys
             then map_set (fst kb) (mkAbstractBuffer (snd kb) false) t
             else t) written t) <> None)
    /\ (~ In x temp_keys ->
        map_find x
          (fold_left
             (fun t kb =>
                if set_find (fst kb) temp_keys
                then map_set (fst kb) (mkAbstractBuffer (snd kb) false) t
                else t) written t)
        = map_find x t).
Proof.
  intros temp_keys. induction written as [|[k bytes] written IH];
    intros t x; simpl; [tauto|].
  destruct (set_find k temp_keys) eqn:Ef.
  - destruct (IH (map_set k (mkAbstractBuffer bytes false) t) x) as [H1 H2].
    split.
    + intros Hx. apply H1. now apply map_find_set_present.
    + intros Hnin. rewrite (H2 Hnin). apply map_find_set_other.
      intros ->. apply Hnin. now apply set_find_In.
  - apply IH.
Qed.

Lemma createAndPopulateDataWrapperIfNotExists_temp :
  forall env m k r m',
    createAndPopulateDataWrapperIfNotExists env m k = Ok r m' ->
    temp_chunk_buffer_map_ m' = temp_chunk_buffer_map_ m.
Proof.
  intros env m k r m'. unfold createAndPopulateDataWrapperIfNotExists.
  destruct (get_table_key k) as [t|]; [|discriminate].
  unfold createDataWrapperIfNotExists.
  destruct (get_table_key t) as [t2|]; [|discriminate].
  destruct (map_find t2 (data_wrapper_map_ m)).
  { intros H. inversion H; subst. reflexivity. }
  destruct (env_data_wrapper_type env t2); try discriminate;
    destruct (env_populateChunkMetadata env t); try discriminate;
    intros H; inversion H; subst; reflexivity.
Qed.

(** X14.  A [fetchBuffer] that finds no temporary buffer for its key and
    returns through the data wrapper leaves a temporary buffer for every
    other chunk of the key's logical column and fragment, none for the key
    itself, and the temporary buffers of all other keys as they were. *)
Theorem fetchBuffer_leaves_temp_buffers_for_siblings :
  forall env m chunk_key destination num_bytes destination' m' all_keys,
    map_find chunk_key (temp_chunk_buffer_map_ m) = None ->
    get_keys_set_from_table env chunk_key = Some all_keys ->
    fetchBuffer env m chunk_key destination num_bytes = Ok destination' m' ->
    (forall k, In k all_keys -> k <> chunk_key ->
               map_find k (temp_chunk_buffer_map_ m') <> None)
    /\ map_find chunk_key (temp_chunk_buffer_map_ m') = None
    /\ (forall k, ~ In k all_keys ->
                  map_find k (temp_chunk_buffer_map_ m')
                  = map_find k (temp_chunk_buffer_map_ m)).
Proof.
  intros env m k dst n dst' m' all_keys Hnone Hkeys. unfold fetchBuffer.
  destruct (buf_dirty dst); [discriminate|].
  unfold fetchBufferIfTempBufferMapEntryExists. rewrite Hnone.
  unfold fetchBufferThroughDataWrapper.
  pose proof (createAndPopulateDataWrapperIfNotExists_temp env m k) as Htemp.
  destruct (createAndPopulateDataWrapperIfNotExists env m k) as [r m1|e m1|];
    try discriminate.
  specialize (Htemp r m1 eq_refl).
  rewrite Hkeys.
  destruct (get_table_key k) as [t|]; [|discriminate].
  destruct (hasDataWrapper _ t); [|discriminate].
  destruct (env_populateChunkBuffers env t _) as [e|written]; [discriminate|].
  intros H. inversion H; subst dst' m'; clear H.
  unfold write_temp_buffers, allocateTempBuffersForChunks. simpl.
  rewrite Htemp.
  set (allocated :=
         fold_left (fun t0 k0 => map_set k0 ForeignStorageBuffer t0)
           (set_erase k all_keys) (temp_chunk_buffer_map_ m)).
  assert (Halloc : forall x,
             map_find x allocated
             = if set_find x (set_erase k all_keys)
               then Some ForeignStorageBuffer
               else map_find x (temp_chunk_buffer_map_ m))
    by (intros x; apply map_find_set_all).
  split.
  { intros x Hin Hne.
    apply (proj1 (write_temp_buffers_frame (set_erase k all_keys) written
                    allocated x)).
    rewrite Halloc.
    assert (Hf : set_find x (set_erase k all_keys) = true)
      by (apply set_find_In, In_set_erase; auto).
    rewrite Hf. discriminate. }
  assert (Hk : ~ In k (set_erase k all_keys))
    by (intros Hin; apply In_set_erase in Hin; tauto).
  split.
  { rewrite (proj2 (write_temp_buffers_frame (set_erase k all_keys) written
                      allocated k) Hk).
    rewrite Halloc. apply set_find_not_In in Hk. now rewrite Hk. }
  intros x Hnin.
  assert (Hx : ~ In x (set_erase k all_keys))
    by (intros Hin; apply In_set_erase in Hin; tauto).
  rewrite (proj2 (write_temp_buffers_frame (set_erase k all_keys) written
                    allocated x) Hx).
  rewrite Halloc. apply set_find_not_In in Hx. now rewrite Hx.
Qed.

Lemma fetchBuffer_leaves_temp_buffers_for_siblings_witness :
  exists destination' m',
    fetchBuffer example_varlen_storage_env (mkMgr [] []) [1; 1; 1; 0; 1]
      ForeignStorageBuffer 4 = Ok destination' m'
    /\ map_find [1; 1; 1; 0; 2] (temp_chunk_buffer_map_ m') <> None
    /\ map_find [1; 1; 1; 0; 1] (temp_chunk_buffer_map_ m') = None.
Proof.
  do 2 eexists. split; [vm_compute; reflexivity|].
  destruct (fetchBuffer_leaves_temp_buffers_for_siblings
              example_varlen_storage_env (mkMgr [] []) [1; 1; 1; 0; 1]
              ForeignStorageBuffer 4 _ _ [[1; 1; 1; 0; 1]; [1; 1; 1; 0; 2]]
              eq_refl eq_refl eq_refl)
    as (H1 & H2 & _).
  split; [|exact H2].
  apply H1; [right; now left|discriminate].
Defined.

(** ** The caching manager *)

Lemma getCachedMetadataVecForKeyPrefix_keys :
  forall c chunk_prefix metadata_vec,
    getCachedMetadataVecForKeyPrefix c chunk_prefix = Some metadata_vec ->
    map fst metadata_vec = prefix_range chunk_prefix (cached_metadata_ c).
Proof.
  intros c p. unfold getCachedMetadataVecForKeyPrefix.
  induction (prefix_range p (cached_metadata_ c)) as [|k l IH]; intros vec H;
    simpl in H.
  - inversion H. reflexivity.
  - destruct (getBuffer (global_file_mgr_ c) k) as [b|]; [|discriminate].
    match type of H with
    | match ?x with _ => _ end = _ => destruct x as [l'|] eqn:El
    end; [|discriminate].
    inversion H; subst vec. simpl. f_equal. now apply IH.
Qed.

Lemma highest_frag_fold :
  forall (l : ChunkMetadataVector) a r,
    fold_left
      (fun acc km =>
         match acc, fragment_id_of (fst km) with
         | Some last_frag_id, Some f => Some (Z.max last_frag_id f)
         | _, _ => None
         end) l (Some a) = Some r ->
    a <= r
    /\ (forall km, In km l ->
          exists f, fragment_id_of (fst km) = Some f /\ f <= r)
    /\ (r = a \/ exists km, In km l /\ fragment_id_of (fst km) = Some r).
Proof.
  assert (Hnone : forall l : ChunkMetadataVector,
             fold_left
               (fun acc km =>
                  match acc, fragment_id_of (fst km) with
                  | Some last_frag_id, Some f => Some (Z.max last_frag_id f)
                  | _, _ => None
                  end) l None = None)
    by (induction l; simpl; auto).
  induction l as [|km l IH]; intros a r H; simpl in H.
  - inversion H; subst. split; [lia|]. split; [intros km []|now left].
  - destruct (fragment_id_of (fst km)) as [f|] eqn:Ef.
    + destruct (IH _ _ H) as (Hle & Hall & Hex).
      split; [lia|]. split.
      * intros km' [<-|Hin]; [|now apply Hall]. exists f. split; [exact Ef|lia].
      * destruct Hex as [E|[km' [Hin E]]].
        -- destruct (Z.max_spec a f) as [[_ Em]|[_ Em]].
           ++ right. exists km. split; [now left|]. congruence.
           ++ left. congruence.
        -- right. exists km'. split; [now right|exact E].
    + rewrite Hnone in H. discriminate.
Qed.

(** X15.  On an ordered metadata set, the fragment id that
    [getHighestCachedFragId] returns is not negative, is at least the
    fragment id of every cached metadata key in the range of the table, and
    is zero or the fragment id of one of them. *)
Theorem getHighestCachedFragId_is_the_maximum :
  forall c table_key r,
    StronglySorted key_lt (cached_metadata_ c) ->
    getHighestCachedFragId c table_key = Some r ->
    0 <= r
    /\ (forall k, In k (cached_metadata_ c) ->
          in_prefix_range table_key k = true ->
          exists f, fragment_id_of k = Some f /\ f <= r)
    /\ (r = 0
        \/ exists k, In k (cached_metadata_ c)
                     /\ in_prefix_range table_key k = true
                     /\ fragment_id_of k = Some r).
Proof.
  intros c t r Hs. unfold getHighestCachedFragId, hasCachedMetadataForKeyPrefix.
  destruct (prefix_range t (cached_metadata_ c)) as [|x l] eqn:Er.
  - intros H. inversion H; subst r. split; [lia|]. split; [|now left].
    intros k Hin Hr.
    assert (Hk : In k (prefix_range t (cached_metadata_ c)))
      by (apply In_prefix_range; auto).
    rewrite Er in Hk. contradiction.
  - pose proof (getCachedMetadataVecForKeyPrefix_keys c t) as Hkeys.
    destruct (getCachedMetadataVecForKeyPrefix c t) as [vec|]; [|discriminate].
    specialize (Hkeys vec eq_refl).
    intros H. destruct (highest_frag_fold vec 0 r H) as (H0 & Hall & Hex).
    split; [exact H0|]. split.
    + intros k Hin Hr.
      assert (Hk : In k (map fst vec))
        by (rewrite Hkeys; apply In_prefix_range; auto).
      apply in_map_iff in Hk. destruct Hk as [km [E Hkm]]. subst k.
      now apply Hall.
    + destruct Hex as [E|[km [Hin E]]]; [now left|]. right.
      exists (fst km).
      assert (Hk : In (fst km) (prefix_range t (cached_metadata_ c)))
        by (rewrite <- Hkeys; now apply in_map).
      apply In_prefix_range in Hk; [|exact Hs]. tauto.
Qed.

Lemma getHighestCachedFragId_is_the_maximum_witness :
  let c :=
    mkCache [] [[1; 1; 1; 0]; [1; 1; 1; 3]; [1; 2; 1; 7]] []
      (mkGlobalFileMgr 4
         [([1; 1; 1; 0], mkFileBuffer 4 0); ([1; 1; 1; 3], mkFileBuffer 4 0);
          ([1; 2; 1; 7], mkFileBuffer 4 0)])
      2 0 0 0 in
  getHighestCachedFragId c [1; 1] = Some 3
  /\ 0 <= 3
  /\ (forall k, In k (cached_metadata_ c) ->
        in_prefix_range [1; 1] k = true ->
        exists f, fragment_id_of k = Some f /\ f <= 3)
  /\ (3 = 0
      \/ exists k, In k (cached_metadata_ c)
                   /\ in_prefix_range [1; 1] k = true
                   /\ fragment_id_of k = Some 3).
Proof.
  intros c. split; [reflexivity|].
  apply (getHighestCachedFragId_is_the_maximum c [1; 1] 3).
  - repeat constructor.
  - reflexivity.
Defined.

Lemma erase_chunks_in_order_sets :
  forall visited c c',
    erase_chunks_in_order visited c = Ok tt c' ->
    cached_chunks_ c' = erase_keys visited (cached_chunks_ c)
    /\ cached_metadata_ c' = cached_metadata_ c.
Proof.
  induction visited as [|k visited IH]; intros c c' H; simpl in H.
  - inversion H; subst. split; reflexivity.
  - unfold eraseChunkByIterator in H.
    destruct (get_table_key k) as [t|]; [|discriminate].
    destruct (map_find t (eviction_tracker_map_ c)) as [tr|]; [|discriminate].
    destruct (getBuffer (global_file_mgr_ c) k) as [b|]; [|discriminate].
    simpl in H. destruct (IH _ _ H) as [H1 H2].
    split; [exact H1|exact H2].
Qed.

Lemma prefix_range_erased :
  forall p s,
    StronglySorted key_lt s ->
    prefix_range p (erase_keys (prefix_range p s) s) = [].
Proof.
  intros p s Hs.
  destruct (prefix_range p (erase_keys (prefix_range p s) s)) as [|x l] eqn:E;
    [reflexivity|].
  assert (Hx : In x (prefix_range p (erase_keys (prefix_range p s) s)))
    by (rewrite E; now left).
  apply In_prefix_range in Hx; [|now apply sorted_erase_keys].
  destruct Hx as [Hin Hr]. apply In_erase_keys in Hin.
  destruct Hin as [Hin Hnot]. exfalso. apply Hnot.
  apply In_prefix_range; auto.
Qed.

(** X16.  [refreshTable] with eviction does not consult the storage: its
    outcome is the same whatever the data wrappers would answer.  When it
    returns on a cache with ordered sets, the table has no cached chunk and
    no cached metadata left in the range of its key, no temporary buffer in
    that range either, and its data wrapper is kept. *)
Theorem refreshTable_evict_clears_the_table :
  forall env cm table_key,
    (forall env', refreshTable env' cm table_key true
                  = refreshTable env cm table_key true)
    /\ forall cm',
         StronglySorted key_lt (cached_chunks_ (disk_cache_ cm)) ->
         StronglySorted key_lt (cached_metadata_ (disk_cache_ cm)) ->
         StronglySorted key_lt
           (map_keys (temp_chunk_buffer_map_ (base_mgr cm))) ->
         refreshTable env cm table_key true = Ok tt cm' ->
         getCachedChunksForKeyPrefix (disk_cache_ cm') table_key = []
         /\ hasCachedMetadataForKeyPrefix (disk_cache_ cm') table_key = false
         /\ (forall k, in_prefix_range table_key k = true ->
               map_find k (temp_chunk_buffer_map_ (base_mgr cm')) = None)
         /\ data_wrapper_map_ (base_mgr cm') = data_wrapper_map_ (base_mgr cm).
Proof.
  intros env cm t. split; [reflexivity|].
  intros cm' Hsc Hsm Hst. unfold refreshTable,
    clearTempChunkBufferMapEntriesForTable.
  destruct (is_table_key t) eqn:Et; [|discriminate].
  destruct (is_table_key_inv t Et) as [db [tb ->]].
  cbn [disk_cache_ base_mgr lift_cache]. unfold clearForTablePrefix.
  pose proof (erase_chunks_in_order_sets
                (prefix_range [db; tb] (cached_chunks_ (disk_cache_ cm)))
                (disk_cache_ cm)) as He.
  destruct (erase_chunks_in_order
              (prefix_range [db; tb] (cached_chunks_ (disk_cache_ cm)))
              (disk_cache_ cm)) as [[] c1|e c1|]; try discriminate.
  destruct (He c1 eq_refl) as [Hc Hm].
  cbn [lift_cache]. intros H. inversion H; subst cm'; clear H.
  cbn [disk_cache_ base_mgr]. unfold getCachedChunksForKeyPrefix,
    hasCachedMetadataForKeyPrefix. simpl.
  split; [rewrite Hc; now apply prefix_range_erased|].
  split; [rewrite Hm; now rewrite prefix_range_erased|].
  split; [|reflexivity].
  intros k Hr. rewrite map_find_erase_all.
  destruct (existsb (key_eqb k)
              (prefix_range [db; tb]
                 (map_keys (temp_chunk_buffer_map_ (base_mgr cm))))) eqn:Ex;
    [reflexivity|].
  fold (set_find k (prefix_range [db; tb]
                      (map_keys (temp_chunk_buffer_map_ (base_mgr cm))))) in Ex.
  apply map_find_None_iff. intros Hin.
  apply set_find_not_In in Ex. apply Ex. apply In_prefix_range; auto.
Qed.

(** ** The caches of the join hash table *)

Lemma scan_chunk_keys_persistent :
  forall key,
    scan_chunk_keys key = AllTablesPersistent
    <-> Forall persistent_chunk_key key.
Proof.
  induction key as [|ck key IH]; simpl.
  - split; [constructor|reflexivity].
  - destruct ck as [|db [|t rest]].
    + split; [discriminate|]. intros H. inversion H as [|x l Hp _]; subst.
      destruct Hp as (d & t & r & E & _). discriminate.
    + split; [discriminate|]. intros H. inversion H as [|x l Hp _]; subst.
      destruct Hp as (d & t & r & E & _). discriminate.
    + destruct (t <? 0) eqn:Et.
      * apply Z.ltb_lt in Et. split; [discriminate|].
        intros H. inversion H as [|x l Hp _]; subst.
        destruct Hp as (d & t' & r & E & Hge). inversion E; subst. lia.
      * apply Z.ltb_ge in Et. rewrite IH. split.
        -- intros H. constructor; [|exact H]. exists db, t, rest. auto.
        -- intros H. now inversion H.
Qed.

Lemma scan_chunk_keys_temporary :
  forall key,
    scan_chunk_keys key = TemporaryTable <-> names_temporary_table key.
Proof.
  unfold names_temporary_table.
  induction key as [|ck key IH]; simpl.
  - split; [discriminate|].
    intros (before & d & t & r & after & E & _). destruct before; discriminate.
  - destruct ck as [|db [|t rest]].
    + split; [discriminate|].
      intros (before & d & t & r & after & E & Hb & _).
      destruct before as [|b before]; [discriminate|].
      inversion E; subst. inversion Hb as [|x l Hp _]; subst.
      destruct Hp as (d' & t' & r' & E' & _). discriminate.
    + split; [discriminate|].
      intros (before & d & t & r & after & E & Hb & _).
      destruct before as [|b before]; [discriminate|].
      inversion E; subst. inversion Hb as [|x l Hp _]; subst.
      destruct Hp as (d' & t' & r' & E' & _). discriminate.
    + destruct (t <? 0) eqn:Et.
      * apply Z.ltb_lt in Et. split; [intros _|reflexivity].
        exists [], db, t, rest, key. split; [reflexivity|].
        split; [constructor|exact Et].
      * apply Z.ltb_ge in Et. rewrite IH. split.
        -- intros (before & d & t' & r & after & E & Hb & Hlt).
           exists ((db :: t :: rest) :: before), d, t', r, after.
           split; [now subst|]. split; [|exact Hlt].
           constructor; [|exact Hb]. exists db, t, rest. auto.
        -- intros (before & d & t' & r & after & E & Hb & Hlt).
           destruct before as [|b before].
           ++ inversion E; subst. lia.
           ++ inversion E; subst. exists before, d, t', r, after.
              split; [reflexivity|]. split; [now inversion Hb|exact Hlt].
Qed.

(** X17.  [HashTypeCache::set] followed by [HashTypeCache::get]: for chunk
    keys of persistent tables the layout that was set is returned, with the
    flag that it was found, and the entries of all other keys are as they
    were; when the first chunk key that is not of a persistent table names a
    temporary one (a negative table id), [set] records nothing; [get] of a
    key without an entry answers OneToOne, not found. *)
Theorem HashTypeCache_set_then_get :
  forall m key hash_type,
    (Forall persistent_chunk_key key ->
       exists m',
         HashTypeCache_set m key hash_type = Some m'
         /\ HashTypeCache_get m' key = (hash_type, true)
         /\ forall key', key' <> key ->
              HashTypeCache_get m' key' = HashTypeCache_get m key')
    /\ (names_temporary_table key ->
          HashTypeCache_set m key hash_type = Some m)
    /\ (hash_type_find key m = None ->
          HashTypeCache_get m key = (OneToOne, false)).
Proof.
  intros m key ht. unfold HashTypeCache_set, HashTypeCache_get.
  split; [|split].
  - intros Hp. apply scan_chunk_keys_persistent in Hp. rewrite Hp.
    eexists. split; [reflexivity|].
    rewrite hash_type_find_assign_same. split; [reflexivity|].
    intros key' Hne. now rewrite hash_type_find_assign_other.
  - intros Ht. apply scan_chunk_keys_temporary in Ht. now rewrite Ht.
  - intros H. now rewrite H.
Qed.

(** The layout recorded for the columns of table 7 is found again; nothing
    is recorded for the temporary table -3. *)
Example HashTypeCache_examples :
  (exists m',
      HashTypeCache_set [] [[1; 7; 1]; [1; 7; 2]] OneToMany = Some m'
      /\ HashTypeCache_get m' [[1; 7; 1]; [1; 7; 2]] = (OneToMany, true))
  /\ HashTypeCache_set [] [[1; 7; 1]; [1; -3; 2]] OneToMany = Some []
  /\ HashTypeCache_get [] [[1; -3; 2]] = (OneToOne, false).
Proof.
  split; [eexists; split; reflexivity|]. split; reflexivity.
Qed.

Lemma HashTableCacheKey_eqb_refl :
  forall k, HashTableCacheKey_eqb k k = true.
Proof.
  intros [n ks op]. unfold HashTableCacheKey_eqb. simpl.
  rewrite Z.eqb_refl, chunk_keys_eqb_refl. now destruct op.
Qed.

Lemma HashTableCacheKey_eqb_eq :
  forall a b, HashTableCacheKey_eqb a b = true -> a = b.
Proof.
  intros [n ks op] [n' ks' op']. unfold HashTableCacheKey_eqb. simpl.
  intros H. apply andb_true_iff in H. destruct H as [H Hop].
  apply andb_true_iff in H. destruct H as [Hn Hk].
  apply Z.eqb_eq in Hn. apply chunk_keys_eqb_eq in Hk. subst.
  destruct op, op'; try discriminate; reflexivity.
Qed.

Lemma hash_table_cache_find_put_same :
  forall key t m, hash_table_cache_find key (hash_table_cache_put key t m) = Some t.
Proof.
  intros key t. induction m as [|[k v] m IH]; simpl.
  - now rewrite HashTableCacheKey_eqb_refl.
  - destruct (HashTableCacheKey_eqb k key) eqn:E; simpl; now rewrite E.
Qed.

Lemma hash_table_cache_find_put_other :
  forall key key' t m,
    key' <> key ->
    hash_table_cache_find key' (hash_table_cache_put key t m)
    = hash_table_cache_find key' m.
Proof.
  intros key key' t m Hne. induction m as [|[k v] m IH]; simpl.
  - destruct (HashTableCacheKey_eqb key key') eqn:E; [|reflexivity].
    apply HashTableCacheKey_eqb_eq in E. congruence.
  - destruct (HashTableCacheKey_eqb k key) eqn:E; simpl.
    + apply HashTableCacheKey_eqb_eq in E. subst k.
      destruct (HashTableCacheKey_eqb key key') eqn:E'; [|reflexivity].
      apply HashTableCacheKey_eqb_eq in E'. congruence.
    + now rewrite IH.
Qed.

Lemma hash_table_cache_put_length :
  forall key t m,
    List.length (hash_table_cache_put key t m)
    = match hash_table_cache_find key m with
      | Some _ => List.length m
      | None => S (List.length m)
      end.
Proof.
  intros key t. induction m as [|[k v] m IH]; simpl; [reflexivity|].
  destruct (HashTableCacheKey_eqb k key); simpl; [reflexivity|].
  rewrite IH. now destruct (hash_table_cache_find key m).
Qed.

(** X18.  [putHashTableOnCpuToCache] followed by the lookups of the cache:
    for a cache key whose chunk keys are of persistent tables, the table
    that was put is what [initHashTableOnCpuFromCache] returns, and
    [getApproximateTupleCountFromCache] answers half its entry count and its
    emitted keys count; the entries of other keys are as they were, and the
    cache has grown by one entry only if the key had none.  A cache key that
    names a temporary table is not stored and has no tuple count. *)
Theorem putHashTableOnCpuToCache_then_lookup :
  forall s key hash_table,
    (Forall persistent_chunk_key (chunk_keys key) ->
       exists s',
         putHashTableOnCpuToCache s key hash_table = Some s'
         /\ initHashTableOnCpuFromCache s' key = Some hash_table
         /\ getApproximateTupleCountFromCache s' key
            = Some (Some (ht_entry_count hash_table / 2),
                    ht_emitted_keys_count hash_table)
         /\ (forall key', key' <> key ->
               initHashTableOnCpuFromCache s' key'
               = initHashTableOnCpuFromCache s key')
         /\ List.length (hash_table_cache_ s')
            = match initHashTableOnCpuFromCache s key with
              | Some _ => List.length (hash_table_cache_ s)
              | None => S (List.length (hash_table_cache_ s))
              end
         /\ table_ s' = table_ s
         /\ hash_type_cache_ s' = hash_type_cache_ s)
    /\ (names_temporary_table (chunk_keys key) ->
          putHashTableOnCpuToCache s key hash_table = Some s
          /\ getApproximateTupleCountFromCache s key = Some (None, 0)).
Proof.
  intros s key t.
  unfold putHashTableOnCpuToCache, getApproximateTupleCountFromCache,
    initHashTableOnCpuFromCache.
  split.
  - intros Hp. apply scan_chunk_keys_persistent in Hp. rewrite Hp.
    eexists. split; [reflexivity|]. simpl.
    rewrite hash_table_cache_find_put_same.
    split; [reflexivity|]. split; [reflexivity|].
    split; [intros key' Hne; now apply hash_table_cache_find_put_other|].
    split; [apply hash_table_cache_put_length|]. split; reflexivity.
  - intros Ht. apply scan_chunk_keys_temporary in Ht. rewrite Ht.
    split; reflexivity.
Qed.

Lemma key_component_width_of_cases :
  forall pairs,
    (key_component_width_of pairs = Some 4
     <-> forall p, In p pairs -> inner_logical_size p <= 4)
    /\ (key_component_width_of pairs = Some 8
        <-> exists before p after,
              pairs = before ++ p :: after
              /\ (forall q, In q before -> inner_logical_size q <= 4)
              /\ inner_logical_size p = 8)
    /\ (key_component_width_of pairs = None
        <-> exists before p after,
              pairs = before ++ p :: after
              /\ (forall q, In q before -> inner_logical_size q <= 4)
              /\ inner_logical_size p > 4
              /\ inner_logical_size p <> 8).
Proof.
  induction pairs as [|p pairs (IH4 & IH8 & IHn)]; simpl.
  - split; [split; [intros _ p []|reflexivity]|].
    split; (split; [discriminate|]);
      intros (before & p & after & E & _); destruct before; discriminate.
  - destruct (inner_logical_size p >? 4) eqn:Egt.
    + rewrite Z.gtb_ltb, Z.ltb_lt in Egt.
      destruct (inner_logical_size p =? 8) eqn:E8.
      * apply Z.eqb_eq in E8. split; [|split].
        -- split; [discriminate|]. intros H.
           specialize (H p (or_introl eq_refl)). lia.
        -- split; [intros _|reflexivity].
           exists [], p, pairs. split; [reflexivity|].
           split; [intros q []|exact E8].
        -- split; [discriminate|].
           intros (before & q & after & E & Hb & Hq & Hne).
           destruct before as [|b before]; inversion E; subst.
           ++ congruence.
           ++ specialize (Hb b (or_introl eq_refl)). lia.
      * apply Z.eqb_neq in E8. split; [|split].
        -- split; [discriminate|]. intros H.
           specialize (H p (or_introl eq_refl)). lia.
        -- split; [discriminate|].
           intros (before & q & after & E & Hb & Hq).
           destruct before as [|b before]; inversion E; subst.
           ++ congruence.
           ++ specialize (Hb b (or_introl eq_refl)). lia.
        -- split; [intros _|reflexivity].
           exists [], p, pairs. split; [reflexivity|].
           split; [intros q []|]. split; [lia|exact E8].
    + rewrite Z.gtb_ltb, Z.ltb_ge in Egt. split; [|split].
      * rewrite IH4. split.
        -- intros H q [<-|Hq]; auto.
        -- intros H q Hq. apply H. now right.
      * rewrite IH8. split.
        -- intros (before & q & after & E & Hb & Hq).
           exists (p :: before), q, after. split; [now subst|].
           split; [|exact Hq]. intros x [<-|Hx]; auto.
        -- intros (before & q & after & E & Hb & Hq).
           destruct before as [|b before]; inversion E; subst.
           ++ lia.
           ++ exists before, q, after. split; [reflexivity|].
              split; [|exact Hq]. intros x Hx. apply Hb. now right.
      * rewrite IHn. split.
        -- intros (before & q & after & E & Hb & Hq).
           exists (p :: before), q, after. split; [now subst|].
           split; [|exact Hq]. intros x [<-|Hx]; auto.
        -- intros (before & q & after & E & Hb & Hq).
           destruct before as [|b before]; inversion E; subst.
           ++ lia.
           ++ exists before, q, after. split; [reflexivity|].
              split; [|exact Hq]. intros x Hx. apply Hb. now right.
Qed.

(** X19.  [getKeyComponentWidth] is decided by the first inner column whose
    logical size exceeds 4: it returns 4 exactly when there is none, 8
    exactly when that column is 8 bytes wide, and its CHECK fails exactly
    when that column has another width; it returns no other value. *)
Theorem getKeyComponentWidth_cases :
  forall env,
    (getKeyComponentWidth env = Some 4
     <-> forall p, In p (inner_outer_pairs_ env) -> inner_logical_size p <= 4)
    /\ (getKeyComponentWidth env = Some 8
        <-> exists before p after,
              inner_outer_pairs_ env = before ++ p :: after
              /\ (forall q, In q before -> inner_logical_size q <= 4)
              /\ inner_logical_size p = 8)
    /\ (getKeyComponentWidth env = None
        <-> exists before p after,
              inner_outer_pairs_ env = before ++ p :: after
              /\ (forall q, In q before -> inner_logical_size q <= 4)
              /\ inner_logical_size p > 4
              /\ inner_logical_size p <> 8)
    /\ forall w, getKeyComponentWidth env = Some w -> w = 4 \/ w = 8.
Proof.
  intros env. unfold getKeyComponentWidth.
  destruct (key_component_width_of_cases (inner_outer_pairs_ env))
    as (H4 & H8 & Hn).
  split; [exact H4|]. split; [exact H8|]. split; [exact Hn|].
  generalize (inner_outer_pairs_ env). clear.
  induction l as [|p l IH]; simpl; intros w H.
  - inversion H. now left.
  - destruct (inner_logical_size p >? 4).
    + destruct (inner_logical_size p =? 8); inversion H. now right.
    + now apply IH.
Qed.

(** ** The table functions *)

Lemma column_set_spec :
  forall (T : Type) (col : Column T) p v,
    0 <= p < getSize col ->
    exists col',
      column_set col p v = Some col'
      /\ getSize col' = getSize col
      /\ column_get col' p = Some v
      /\ forall q, q <> p -> column_get col' q = column_get col q.
Proof.
  intros T col p v Hp. unfold column_set, column_get, getSize in *.
  assert (Hb : (0 <=? p) && (p <? Z.of_nat (List.length col)) = true).
  { apply andb_true_iff. split; [apply Z.leb_le|apply Z.ltb_lt]; lia. }
  rewrite Hb. eexists. split; [reflexivity|].
  rewrite set_slot_length. split; [reflexivity|]. split.
  - rewrite Hb. apply nth_error_set_slot_same. lia.
  - intros q Hq.
    destruct ((0 <=? q) && (q <? Z.of_nat (List.length col))) eqn:Eq;
      [|reflexivity].
    apply andb_true_iff in Eq. destruct Eq as [Eq1 Eq2].
    apply Z.leb_le in Eq1. apply nth_error_set_slot_other. lia.
Qed.

Lemma position_unique :
  forall n i c i' c',
    0 <= i < n -> 0 <= i' < n -> i + c * n = i' + c' * n -> i = i' /\ c = c'.
Proof.
  intros n i c i' c' Hi Hi' E.
  destruct (Z.lt_trichotomy c c') as [H|[H|H]].
  - exfalso. assert (c * n + n <= c' * n) by nia. lia.
  - subst. lia.
  - exfalso. assert (c' * n + n <= c * n) by nia. lia.
Qed.

Lemma write_copies_spec :
  forall (T : Type) copies (out : Column T) i stride x c,
    0 <= i < stride ->
    0 <= c ->
    (c + Z.of_nat copies) * stride <= getSize out ->
    exists out',
      write_copies out i stride (Some x) c copies = Some out'
      /\ getSize out' = getSize out
      /\ (forall c', c <= c' < c + Z.of_nat copies ->
            column_get out' (i + c' * stride) = Some x)
      /\ (forall q,
            (forall c', c <= c' < c + Z.of_nat copies -> q <> i + c' * stride) ->
            column_get out' q = column_get out q).
Proof.
  intros T. induction copies as [|copies IH]; intros out i stride x c Hi Hc Hfit.
  - exists out. simpl. split; [reflexivity|]. split; [reflexivity|].
    split; [intros c' Hc'; lia|reflexivity].
  - cbn [write_copies].
    destruct (column_set_spec T out (i + c * stride) x) as (out1 & E1 & S1 & G1 & F1);
      [nia|].
    rewrite E1.
    destruct (IH out1 i stride x (c + 1) Hi ltac:(lia)) as (out' & E & S & G & F);
      [rewrite S1; nia|].
    exists out'. split; [exact E|]. split; [congruence|]. split.
    + intros c' Hc'. destruct (Z.eq_dec c' c) as [->|Hne].
      * rewrite F; [exact G1|]. intros c2 Hc2 E2.
        apply (position_unique stride i c i c2) in E2; lia.
      * apply G. lia.
    + intros q Hq. rewrite F.
      * apply F1. apply Hq. lia.
      * intros c' Hc'. apply Hq. lia.
Qed.

Lemma fill_rows_spec :
  forall (T : Type) (value : Z -> option T) n m rows (out : Column T) i,
    0 <= m -> 0 <= i -> i + Z.of_nat rows = n ->
    m * n <= getSize out ->
    (forall i', 0 <= i' < n -> value i' <> None) ->
    exists out',
      fill_rows value n m out i rows = Some out'
      /\ getSize out' = getSize out
      /\ (forall i' c, i <= i' < n -> 0 <= c < m ->
            column_get out' (i' + c * n) = value i')
      /\ (forall q,
            (forall i' c, i <= i' < n -> 0 <= c < m -> q <> i' + c * n) ->
            column_get out' q = column_get out q).
Proof.
  intros T value n m. induction rows as [|rows IH];
    intros out i Hm Hi Hn Hfit Hval.
  - exists out. simpl. split; [reflexivity|]. split; [reflexivity|].
    split; [intros i' c Hi'; lia|reflexivity].
  - cbn [fill_rows].
    destruct (value i) as [x|] eqn:Ex; [|exfalso; apply (Hval i); [lia|exact Ex]].
    destruct (write_copies_spec T (Z.to_nat m) out i n x 0)
      as (out1 & E1 & S1 & G1 & F1); [lia|lia|rewrite Z2Nat.id by lia; lia|].
    rewrite E1. rewrite Z2Nat.id in G1, F1 by lia.
    destruct (IH out1 (i + 1) Hm ltac:(lia) ltac:(lia)) as (out' & E & S & G & F);
      [rewrite S1; exact Hfit|exact Hval|].
    exists out'. split; [exact E|]. split; [congruence|]. split.
    + intros i' c Hi' Hc. destruct (Z.eq_dec i' i) as [->|Hne].
      * rewrite F; [rewrite Ex; apply G1; lia|].
        intros i2 c2 Hi2 Hc2 E2.
        apply (position_unique n i c i2 c2) in E2; lia.
      * apply G; lia.
    + intros q Hq. rewrite F.
      * apply F1. intros c' Hc'. apply Hq; lia.
      * intros i' c Hi' Hc. apply Hq; lia.
Qed.

Lemma to_int32_small : forall x, - 2 ^ 31 <= x < 2 ^ 31 -> to_int32 x = x.
Proof.
  intros x H. unfold to_int32. rewrite Z.mod_small by lia. lia.
Qed.

(** X20.  [row_copier] returns -1 and writes nothing when the number of
    output rows, [copy_multiplier] times the size of the input, exceeds 100
    or differs from the size of the output column.  Otherwise, for a
    multiplier that is not negative, it returns that number, and the output
    column holds the input column [copy_multiplier] times over: its element
    [i + c * size] is the input's element [i], for every row [i] and every
    copy [c]. *)
Theorem row_copier_repeats_the_input :
  forall (T : Type) (input_col : Column T) copy_multiplier (output_col : Column T),
    let rows := copy_multiplier * getSize input_col in
    (100 < rows < 2 ^ 31 ->
       row_copier input_col copy_multiplier output_col = Some (-1, output_col))
    /\ (- 2 ^ 31 <= rows <= 100 -> getSize output_col <> rows ->
          row_copier input_col copy_multiplier output_col = Some (-1, output_col))
    /\ (0 <= copy_multiplier -> rows <= 100 -> getSize output_col = rows ->
          exists output_col',
            row_copier input_col copy_multiplier output_col
            = Some (rows, output_col')
            /\ getSize output_col' = rows
            /\ forall i c,
                 0 <= i < getSize input_col -> 0 <= c < copy_multiplier ->
                 column_get output_col' (i + c * getSize input_col)
                 = column_get input_col i).
Proof.
  intros T input m output rows. unfold row_copier. fold rows.
  split; [|split].
  - intros H. rewrite to_int32_small by lia.
    assert (E : (rows >? 100) = true) by (rewrite Z.gtb_ltb; apply Z.ltb_lt; lia).
    now rewrite E.
  - intros H Hne. rewrite to_int32_small by lia.
    assert (E : (rows >? 100) = false) by (rewrite Z.gtb_ltb; apply Z.ltb_ge; lia).
    rewrite E. apply Z.eqb_neq in Hne. now rewrite Hne.
  - intros Hm Hle Hsize.
    assert (H0 : 0 <= rows) by (unfold rows, getSize; nia).
    rewrite to_int32_small by lia.
    assert (E : (rows >? 100) = false) by (rewrite Z.gtb_ltb; apply Z.ltb_ge; lia).
    rewrite E. rewrite (proj2 (Z.eqb_eq _ _) Hsize). simpl negb. cbn iota.
    destruct (fill_rows_spec T (column_get input) (getSize input) m
                (Z.to_nat (getSize input)) output 0 Hm ltac:(lia))
      as (out' & Ef & S & G & _).
    + unfold getSize. rewrite Nat2Z.id. lia.
    + fold rows. lia.
    + intros i Hi. unfold column_get.
      assert (Hb : (0 <=? i) && (i <? getSize input) = true).
      { apply andb_true_iff. split; [apply Z.leb_le|apply Z.ltb_lt]; lia. }
      rewrite Hb. apply nth_error_Some. unfold getSize in Hi. lia.
    + rewrite Ef. exists out'. split; [reflexivity|].
      split; [congruence|]. intros i c Hi Hc. apply G; lia.
Qed.

Lemma row_copier_repeats_the_input_witness :
  exists output_col',
    row_copier [10; 20] 2 [0; 0; 0; 0] = Some (4, output_col')
    /\ getSize output_col' = 4
    /\ forall i c,
         0 <= i < 2 -> 0 <= c < 2 ->
         column_get output_col' (i + c * 2) = column_get [10; 20] i.
Proof.
  apply (proj2 (proj2 (row_copier_repeats_the_input Z [10; 20] 2 [0; 0; 0; 0])));
    [lia|unfold getSize; simpl; lia|reflexivity].
Defined.

(** Two rows copied twice, and a request for 101 rows. *)
Example row_copier_examples :
  row_copier [10; 20] 2 [0; 0; 0; 0] = Some (4, [10; 20; 10; 20])
  /\ row_copier (repeat 7 101) 1 (repeat 0 101) = Some (-1, repeat 0 101).
Proof. split; vm_compute; reflexivity. Qed.

(** X21.  [row_adder] returns -1 and writes nothing when the number of
    output rows, [copy_multiplier] times the size of the first input,
    exceeds 100 or differs from the size of the output column.  Otherwise,
    for a multiplier that is not negative and a second input at least as
    long as the first, it returns that number, and the element
    [i + c * size] of the output column is the sum of the elements [i] of
    the two inputs, for every row [i] of the first input and every copy
    [c]. *)
Theorem row_adder_adds_the_inputs :
  forall (T : Type) (add : T -> T -> T) copy_multiplier
         (input_col1 input_col2 output_col : Column T),
    let rows := copy_multiplier * getSize input_col1 in
    (100 < rows < 2 ^ 31 ->
       row_adder add copy_multiplier input_col1 input_col2 output_col
       = Some (-1, output_col))
    /\ (- 2 ^ 31 <= rows <= 100 -> getSize output_col <> rows ->
          row_adder add copy_multiplier input_col1 input_col2 output_col
          = Some (-1, output_col))
    /\ (0 <= copy_multiplier -> rows <= 100 -> getSize output_col = rows ->
        getSize input_col1 <= getSize input_col2 ->
          exists output_col',
            row_adder add copy_multiplier input_col1 input_col2 output_col
            = Some (rows, output_col')
            /\ getSize output_col' = rows
            /\ forall i c,
                 0 <= i < getSize input_col1 -> 0 <= c < copy_multiplier ->
                 exists a b,
                   column_get input_col1 i = Some a
                   /\ column_get input_col2 i = Some b
                   /\ column_get output_col' (i + c * getSize input_col1)
                      = Some (add a b)).
Proof.
  intros T add m in1 in2 output rows. unfold row_adder. fold rows.
  split; [|split].
  - intros H. rewrite to_int32_small by lia.
    assert (E : (rows >? 100) = true) by (rewrite Z.gtb_ltb; apply Z.ltb_lt; lia).
    now rewrite E.
  - intros H Hne. rewrite to_int32_small by lia.
    assert (E : (rows >? 100) = false) by (rewrite Z.gtb_ltb; apply Z.ltb_ge; lia).
    rewrite E. apply Z.eqb_neq in Hne. now rewrite Hne.
  - intros Hm Hle Hsize Hlen.
    assert (H0 : 0 <= rows) by (unfold rows, getSize; nia).
    rewrite to_int32_small by lia.
    assert (E : (rows >? 100) = false) by (rewrite Z.gtb_ltb; apply Z.ltb_ge; lia).
    rewrite E. rewrite (proj2 (Z.eqb_eq _ _) Hsize). simpl negb. cbn iota.
    assert (Hget : forall (col : Column T) i,
               0 <= i < getSize col -> exists a, column_get col i = Some a).
    { intros col i Hi. unfold column_get.
      assert (Hb : (0 <=? i) && (i <? getSize col) = true).
      { apply andb_true_iff. split; [apply Z.leb_le|apply Z.ltb_lt]; lia. }
      rewrite Hb. destruct (nth_error col (Z.to_nat i)) as [a|] eqn:En;
        [eauto|]. apply nth_error_None in En. unfold getSize in Hi. lia. }
    set (value := fun i =>
                    match column_get in1 i, column_get in2 i with
                    | Some a, Some b => Some (add a b)
                    | _, _ => None
                    end).
    destruct (fill_rows_spec T value (getSize in1) m
                (Z.to_nat (getSize in1)) output 0 Hm ltac:(lia))
      as (out' & Ef & S & G & _).
    + unfold getSize. rewrite Nat2Z.id. lia.
    + fold rows. lia.
    + intros i Hi. unfold value.
      destruct (Hget in1 i Hi) as [a Ea].
      destruct (Hget in2 i ltac:(lia)) as [b Eb].
      rewrite Ea, Eb. discriminate.
    + rewrite Ef. exists out'. split; [reflexivity|].
      split; [congruence|]. intros i c Hi Hc.
      destruct (Hget in1 i Hi) as [a Ea].
      destruct (Hget in2 i ltac:(lia)) as [b Eb].
      exists a, b. split; [exact Ea|]. split; [exact Eb|].
      rewrite G by lia. unfold value. now rewrite Ea, Eb.
Qed.

Lemma row_adder_adds_the_inputs_witness :
  exists output_col',
    row_adder Z.add 2 [1; 2] [10; 20] [0; 0; 0; 0] = Some (4, output_col')
    /\ getSize output_col' = 4
    /\ forall i c,
         0 <= i < 2 -> 0 <= c < 2 ->
         exists a b,
           column_get [1; 2] i = Some a
           /\ column_get [10; 20] i = Some b
           /\ column_get output_col' (i + c * 2) = Some (a + b).
Proof.
  apply (proj2 (proj2 (row_adder_adds_the_inputs Z Z.add 2 [1; 2] [10; 20]
                         [0; 0; 0; 0])));
    [lia|unfold getSize; simpl; lia|reflexivity|unfold getSize; simpl; lia].
Defined.

(** The size of the second input is not checked: a second input shorter
    than the first is read out of bounds. *)
Example row_adder_reads_past_a_short_input :
  row_adder Z.add 1 [1; 2] [10] [0; 0] = None.
Proof. vm_compute. reflexivity. Qed.

Lemma max_scan_spec :
  forall rest done curr_max curr_max_row,
    (forall x, In x rest -> INT32_MIN <= x) ->
    (forall x, In x done -> x <= curr_max) ->
    (curr_max_row = -1 /\ curr_max = INT32_MIN
     /\ (forall x, In x done -> x = INT32_MIN)
     \/ 0 <= curr_max_row < Z.of_nat (List.length done)
        /\ nth_error done (Z.to_nat curr_max_row) = Some curr_max
        /\ (forall j y, (j < Z.to_nat curr_max_row)%nat ->
                        nth_error done j = Some y -> y < curr_max)) ->
    forall mx row,
      max_scan rest (Z.of_nat (List.length done)) curr_max curr_max_row
      = (mx, row) ->
      (forall x, In x (done ++ rest) -> x <= mx)
      /\ (row = -1 /\ mx = INT32_MIN
          /\ (forall x, In x (done ++ rest) -> x = INT32_MIN)
          \/ 0 <= row < Z.of_nat (List.length (done ++ rest))
             /\ nth_error (done ++ rest) (Z.to_nat row) = Some mx
             /\ (forall j y, (j < Z.to_nat row)%nat ->
                             nth_error (done ++ rest) j = Some y -> y < mx)).
Proof.
  induction rest as [|x rest IH]; intros done cm cr Hmin Hle Hinv mx row H.
  - simpl in H. inversion H; subst. rewrite app_nil_r. auto.
  - cbn [max_scan] in H.
    replace (done ++ x :: rest) with ((done ++ [x]) ++ rest)
      by (rewrite <- app_assoc; reflexivity).
    assert (Hlen : Z.of_nat (List.length done) + 1
                   = Z.of_nat (List.length (done ++ [x])))
      by (rewrite length_app; simpl; lia).
    rewrite Hlen in H.
    assert (Hx : INT32_MIN <= x) by (apply Hmin; now left).
    destruct (x >? cm) eqn:Egt.
    + rewrite Z.gtb_ltb, Z.ltb_lt in Egt.
      apply (IH (done ++ [x]) x (Z.of_nat (List.length done)));
        [intros y Hy; apply Hmin; now right| | |exact H].
      * intros y Hy. apply in_app_iff in Hy. destruct Hy as [Hy|[<-|[]]];
          [specialize (Hle y Hy); lia|lia].
      * right. rewrite Nat2Z.id. split; [lia|]. split.
        -- rewrite nth_error_app2 by lia. now rewrite Nat.sub_diag.
        -- intros j y Hj Hy. rewrite nth_error_app1 in Hy by lia.
           apply nth_error_In in Hy. specialize (Hle y Hy). lia.
    + rewrite Z.gtb_ltb, Z.ltb_ge in Egt.
      apply (IH (done ++ [x]) cm cr);
        [intros y Hy; apply Hmin; now right| | |exact H].
      * intros y Hy. apply in_app_iff in Hy. destruct Hy as [Hy|[<-|[]]];
          [now apply Hle|lia].
      * destruct Hinv as [(E1 & E2 & Hall)|(Hr & Hn & Hlt)].
        -- left. split; [exact E1|]. split; [exact E2|].
           intros y Hy. apply in_app_iff in Hy. destruct Hy as [Hy|[<-|[]]];
             [now apply Hall|lia].
        -- right. split; [lia|]. split.
           ++ rewrite nth_error_app1 by lia. exact Hn.
           ++ intros j y Hj Hy. rewrite nth_error_app1 in Hy by lia.
              now apply (Hlt j).
Qed.

(** X22.  [get_max_with_row_offset] returns -1 and writes nothing unless both
    output columns have one element.  With such outputs, for an input of
    [int] values, it returns 1; the first output holds a value that no input
    element exceeds, and the second holds the first row where the input has
    that value, every earlier row being smaller; but when no element
    exceeds [INT32_MIN] (the input is empty, or holds nothing but
    [INT32_MIN]) the outputs are [INT32_MIN] and the row -1. *)
Theorem get_max_with_row_offset_finds_the_first_maximum :
  forall input_col output_max_col output_max_row_col,
    (getSize output_max_col <> 1 \/ getSize output_max_row_col <> 1 ->
       get_max_with_row_offset input_col output_max_col output_max_row_col
       = (-1, output_max_col, output_max_row_col))
    /\ (getSize output_max_col = 1 -> getSize output_max_row_col = 1 ->
        (forall x, In x input_col -> INT32_MIN <= x) ->
        exists mx row,
          get_max_with_row_offset input_col output_max_col output_max_row_col
          = (1, [mx], [row])
          /\ (forall x, In x input_col -> x <= mx)
          /\ (row = -1 /\ mx = INT32_MIN
              /\ (forall x, In x input_col -> x = INT32_MIN)
              \/ 0 <= row < getSize input_col
                 /\ column_get input_col row = Some mx
                 /\ (forall j y, 0 <= j < row ->
                                 column_get input_col j = Some y -> y < mx))).
Proof.
  intros input out1 out2. unfold get_max_with_row_offset. split.
  - intros [H|H]; apply Z.eqb_neq in H; rewrite H; simpl;
      [reflexivity|now rewrite orb_true_r].
  - intros H1 H2 Hmin.
    rewrite (proj2 (Z.eqb_eq _ _) H1), (proj2 (Z.eqb_eq _ _) H2). simpl.
    destruct (max_scan input 0 INT32_MIN (-1)) as [mx row] eqn:E.
    destruct (max_scan_spec input [] INT32_MIN (-1) Hmin
                ltac:(intros x []) ltac:(left; split; [reflexivity|];
                                         split; [reflexivity|intros x []])
                mx row E) as (Hle & Hcase).
    simpl in Hle, Hcase.
    exists mx, row. split; [reflexivity|]. split; [exact Hle|].
    destruct Hcase as [Hc|(Hr & Hn & Hlt)]; [left; exact Hc|right].
    split; [exact Hr|].
    assert (Hb : (0 <=? row) && (row <? getSize input) = true).
    { apply andb_true_iff. split; [apply Z.leb_le|apply Z.ltb_lt];
        unfold getSize; lia. }
    split; [unfold column_get; now rewrite Hb|].
    intros j y Hj Hy. unfold column_get in Hy.
    destruct ((0 <=? j) && (j <? getSize input)); [|discriminate].
    apply (Hlt (Z.to_nat j)); [lia|exact Hy].
Qed.

Lemma get_max_with_row_offset_finds_the_first_maximum_witness :
  exists mx row,
    get_max_with_row_offset [3; 9; 4; 9] [0] [0] = (1, [mx], [row])
    /\ (forall x, In x [3; 9; 4; 9] -> x <= mx)
    /\ (row = -1 /\ mx = INT32_MIN
        /\ (forall x, In x [3; 9; 4; 9] -> x = INT32_MIN)
        \/ 0 <= row < getSize [3; 9; 4; 9]
           /\ column_get [3; 9; 4; 9] row = Some mx
           /\ (forall j y, 0 <= j < row ->
                           column_get [3; 9; 4; 9] j = Some y -> y < mx)).
Proof.
  apply (proj2 (get_max_with_row_offset_finds_the_first_maximum
                  [3; 9; 4; 9] [0] [0]));
    [reflexivity|reflexivity|].
  intros x Hx. simpl in Hx. unfold INT32_MIN.
  destruct Hx as [<-|[<-|[<-|[<-|[]]]]]; lia.
Defined.

(** The first of two equal maxima is reported; an input that holds nothing
    but [INT32_MIN] is reported without a row. *)
Example get_max_with_row_offset_examples :
  get_max_with_row_offset [3; 9; 4; 9] [0] [0] = (1, [9], [1])
  /\ get_max_with_row_offset [INT32_MIN; INT32_MIN] [0] [0]
     = (1, [INT32_MIN], [-1])
  /\ get_max_with_row_offset [] [0] [0] = (1, [INT32_MIN], [-1]).
Proof. split; [|split]; vm_compute; reflexivity. Qed.

(** ** Runs of the properties above on concrete caches *)

Lemma getCachedChunkIfExists_touches_only_the_queue_witness :
  exists r c',
    getCachedChunkIfExists example_cached_table [1; 1; 1; 0] = Ok r c'
    /\ r = getBuffer (global_file_mgr_ example_cached_table) [1; 1; 1; 0]
    /\ r <> None
    /\ cached_chunks_ c' = cached_chunks_ example_cached_table
    /\ global_file_mgr_ c' = global_file_mgr_ example_cached_table.
Proof.
  do 2 eexists. split; [vm_compute; reflexivity|].
  destruct (proj2 (proj2 (getCachedChunkIfExists_touches_only_the_queue
                            example_cached_table [1; 1; 1; 0]))
              _ _ eq_refl eq_refl)
    as (H1 & H2 & H3 & _ & H5 & _).
  split; [exact H1|]. split; [exact H2|]. split; [exact H3|exact H5].
Defined.

Lemma deleteBufferIfExists_effect_witness :
  exists c',
    deleteBufferIfExists example_cached_table [1; 1; 1; 0] = Ok tt c'
    /\ ~ In [1; 1; 1; 0] (cached_chunks_ c')
    /\ ~ In [1; 1; 1; 0] (cached_metadata_ c')
    /\ getBuffer (global_file_mgr_ c') [1; 1; 1; 0] = None
    /\ map_find [1; 1] (eviction_tracker_map_ c') = Some (mkTracker [] 1).
Proof.
  eexists. split; [vm_compute; reflexivity|].
  destruct (proj2 (deleteBufferIfExists_effect example_cached_table [1; 1; 1; 0])
              _ eq_refl eq_refl)
    as (H1 & H2 & H3 & _ & H5).
  split; [exact H1|]. split; [exact H2|]. split; [exact H3|].
  exact (proj2 (H5 [1; 1]) eq_refl).
Defined.

Lemma getChunkBuffersForCaching_iff_witness :
  let c :=
    mkCache [] [[1; 1; 2; 0]] []
      (mkGlobalFileMgr 4 [([1; 1; 2; 0], mkFileBuffer 4 0)]) 2 0 0 0 in
  exists c',
    getChunkBuffersForCaching c [[1; 1; 2; 0]] = Ok tt c'
    /\ cached_chunks_ c' = cached_chunks_ c
    /\ getBuffer (global_file_mgr_ c') [1; 1; 2; 0] = Some (mkFileBuffer 0 0).
Proof.
  intros c. eexists. split; [vm_compute; reflexivity|].
  destruct (proj2 (proj2 (getChunkBuffersForCaching_iff [[1; 1; 2; 0]] c))
              _ eq_refl)
    as (H1 & _ & _ & H4 & _).
  split; [exact H1|]. apply H4. now left.
Defined.

Lemma refreshTable_evict_clears_the_table_witness :
  let cm := mkCachingMgr (mkMgr [([1; 1], CSV)] []) example_two_tables in
  exists cm',
    refreshTable (example_storage_env (inr [])) cm [1; 1] true = Ok tt cm'
    /\ getCachedChunksForKeyPrefix (disk_cache_ cm') [1; 1] = []
    /\ hasCachedMetadataForKeyPrefix (disk_cache_ cm') [1; 1] = false
    /\ data_wrapper_map_ (base_mgr cm') = data_wrapper_map_ (base_mgr cm).
Proof.
  intros cm. eexists. split; [vm_compute; reflexivity|].
  destruct (proj2 (refreshTable_evict_clears_the_table
                     (example_storage_env (inr [])) cm [1; 1])
              _ ltac:(repeat constructor) ltac:(repeat constructor)
              ltac:(constructor) eq_refl)
    as (H1 & H2 & _ & H4).
  split; [exact H1|]. split; [exact H2|exact H4].
Defined.

Lemma HashTypeCache_set_then_get_witness :
  exists m',
    HashTypeCache_set [] [[1; 7; 1]; [1; 7; 2]] OneToMany = Some m'
    /\ HashTypeCache_get m' [[1; 7; 1]; [1; 7; 2]] = (OneToMany, true)
    /\ forall key', key' <> [[1; 7; 1]; [1; 7; 2]] ->
         HashTypeCache_get m' key' = HashTypeCache_get [] key'.
Proof.
  apply (proj1 (HashTypeCache_set_then_get [] [[1; 7; 1]; [1; 7; 2]] OneToMany)).
  repeat constructor.
  - exists 1, 7, [1]. split; [reflexivity|lia].
  - exists 1, 7, [2]. split; [reflexivity|lia].
Defined.

Lemma putHashTableOnCpuToCache_then_lookup_witness :
  let key := mkHashTableCacheKey 3 [[1; 7; 1]] kEQ in
  let hash_table := mkHashTable OneToMany 6 3 (KeyBuckets []) in
  exists s',
    putHashTableOnCpuToCache (fresh_join_state 0) key hash_table = Some s'
    /\ initHashTableOnCpuFromCache s' key = Some hash_table
    /\ getApproximateTupleCountFromCache s' key = Some (Some 3, 3).
Proof.
  intros key hash_table.
  destruct (proj1 (putHashTableOnCpuToCache_then_lookup (fresh_join_state 0)
                     key hash_table))
    as (s' & H1 & H2 & H3 & _).
  - repeat constructor. exists 1, 7, [1]. split; [reflexivity|lia].
  - exists s'. split; [exact H1|]. split; [exact H2|exact H3].
Defined.

(** ** The chunk keys of a logical column *)

Lemma keys_for_columns_In :
  forall env db_id table_id fragment_id columns column_id k,
    In k (keys_for_columns env db_id table_id fragment_id column_id columns)
    <-> exists col,
          column_id <= col < column_id + Z.of_nat columns
          /\ (if env_is_varlen_indeed env db_id table_id col
              then k = [db_id; table_id; col; fragment_id; 1]
                   \/ k = [db_id; table_id; col; fragment_id; 2]
              else k = [db_id; table_id; col; fragment_id]).
Proof.
  intros env db tb frag. induction columns as [|n IH]; intros col k.
  - simpl. split; [intros []|]. intros [c [Hc _]]. lia.
  - cbn [keys_for_columns]. rewrite in_app_iff, IH. split.
    + intros [Hk|[c [Hc Hs]]].
      * exists col. split; [lia|].
        destruct (env_is_varlen_indeed env db tb col); simpl in Hk.
        -- destruct Hk as [<-|[<-|[]]]; auto.
        -- destruct Hk as [<-|[]]; auto.
      * exists c. split; [lia|exact Hs].
    + intros [c [Hc Hs]]. destruct (Z.eq_dec c col) as [->|Hne].
      * left. destruct (env_is_varlen_indeed env db tb col); simpl.
        -- destruct Hs as [->| ->]; auto.
        -- subst k. auto.
      * right. exists c. split; [lia|exact Hs].
Qed.

Lemma emplace_all_In :
  forall keys acc k,
    In k (fold_left (fun s x => set_emplace x s) keys acc)
    <-> In k acc \/ In k keys.
Proof.
  induction keys as [|x keys IH]; intros acc k; simpl.
  - tauto.
  - rewrite IH, In_set_emplace. split.
    + intros [[->|A]|B]; auto.
    + intros [A|[<-|B]]; auto.
Qed.

Lemma emplace_all_sorted :
  forall keys acc,
    StronglySorted key_lt acc ->
    StronglySorted key_lt (fold_left (fun s x => set_emplace x s) keys acc).
Proof.
  induction keys as [|x keys IH]; intros acc Hs; simpl; [exact Hs|].
  apply IH. now apply sorted_set_emplace.
Qed.

(** X23.  For a destination key with its four leading components,
    [get_keys_vec_from_table] and [get_keys_set_from_table] return the same
    keys, the set in ascending order: for every column from the logical
    column of the destination to its last physical column, the key of the
    column and the destination's fragment when the column has a fixed
    width, and the data key (1) and the index key (2) when its length
    varies; nothing else. *)
Theorem get_keys_from_table_keys :
  forall env db_id table_id destination_column_id fragment_id rest,
    exists keys chunk_keys,
      get_keys_vec_from_table env
        (db_id :: table_id :: destination_column_id :: fragment_id :: rest)
      = Some keys
      /\ get_keys_set_from_table env
           (db_id :: table_id :: destination_column_id :: fragment_id :: rest)
         = Some chunk_keys
      /\ StronglySorted key_lt chunk_keys
      /\ forall k,
           (In k chunk_keys <-> In k keys)
           /\ (In k keys
               <-> exists col,
                     fst (env_logical_column env db_id table_id
                            destination_column_id) <= col
                     /\ col <= fst (env_logical_column env db_id table_id
                                      destination_column_id)
                               + snd (env_logical_column env db_id table_id
                                        destination_column_id)
                     /\ (if env_is_varlen_indeed env db_id table_id col
                         then k = [db_id; table_id; col; fragment_id; 1]
                              \/ k = [db_id; table_id; col; fragment_id; 2]
                         else k = [db_id; table_id; col; fragment_id])).
Proof.
  intros env db tb dcol frag rest.
  unfold get_keys_set_from_table, get_keys_vec_from_table.
  destruct (env_logical_column env db tb dcol) as [logical physical]. simpl.
  do 2 eexists. split; [reflexivity|]. split; [reflexivity|].
  split; [apply emplace_all_sorted; constructor|].
  intros k. split.
  - rewrite emplace_all_In. simpl. tauto.
  - rewrite keys_for_columns_In. split.
    + intros [c [Hc Hs]]. exists c.
      split; [lia|]. split; [lia|exact Hs].
    + intros [c [Hc1 [Hc2 Hs]]]. exists c. split; [lia|exact Hs].
Qed.

(** ** The table function with two outputs *)

Lemma write_copies2_split :
  forall (T : Type) copies (o1 o2 : Column T) i stride v c,
    write_copies2 o1 o2 i stride v c copies
    = match write_copies o1 i stride (option_map fst v) c copies,
            write_copies o2 i stride (option_map snd v) c copies with
      | Some a, Some b => Some (a, b)
      | _, _ => None
      end.
Proof.
  intros T. induction copies as [|n IH]; intros o1 o2 i stride v c.
  - reflexivity.
  - cbn [write_copies2 write_copies]. destruct v as [[x y]|]; simpl;
      [|reflexivity].
    destruct (column_set o1 (i + c * stride) x) as [o1'|]; [|reflexivity].
    destruct (column_set o2 (i + c * stride) y) as [o2'|].
    + apply (IH o1' o2' i stride (Some (x, y)) (c + 1)).
    + now destruct (write_copies o1' i stride (Some x) (c + 1) n).
Qed.

Lemma fill_rows2_split :
  forall (T : Type) (value : Z -> option (T * T)) stride m rows
         (o1 o2 : Column T) i,
    fill_rows2 value stride m o1 o2 i rows
    = match fill_rows (fun i => option_map fst (value i)) stride m o1 i rows,
            fill_rows (fun i => option_map snd (value i)) stride m o2 i rows with
      | Some a, Some b => Some (a, b)
      | _, _ => None
      end.
Proof.
  intros T value stride m. induction rows as [|n IH]; intros o1 o2 i.
  - reflexivity.
  - cbn [fill_rows2 fill_rows]. rewrite write_copies2_split.
    destruct (write_copies o1 i stride (option_map fst (value i)) 0 (Z.to_nat m))
      as [a|]; [|reflexivity].
    destruct (write_copies o2 i stride (option_map snd (value i)) 0 (Z.to_nat m))
      as [b|].
    + apply IH.
    + now destruct (fill_rows (fun i0 => option_map fst (value i0)) stride m a
                      (i + 1) n).
Qed.

(** X24.  [row_addsub] returns -1 and writes nothing when the number of
    output rows, [copy_multiplier] times the size of the first input,
    exceeds 100 or differs from the size of one of the output columns.
    Otherwise, for a multiplier that is not negative and a second input at
    least as long as the first, it returns that number, and the elements
    [i + c * size] of the two output columns are the sum and the difference
    of the elements [i] of the two inputs, for every row [i] of the first
    input and every copy [c]. *)
Theorem row_addsub_adds_and_subtracts :
  forall (T : Type) (add sub : T -> T -> T) copy_multiplier
         (input_col1 input_col2 output_col1 output_col2 : Column T),
    let rows := copy_multiplier * getSize input_col1 in
    (100 < rows < 2 ^ 31 ->
       row_addsub add sub copy_multiplier input_col1 input_col2 output_col1
         output_col2
       = Some (-1, output_col1, output_col2))
    /\ (- 2 ^ 31 <= rows <= 100 ->
        getSize output_col1 <> rows \/ getSize output_col2 <> rows ->
          row_addsub add sub copy_multiplier input_col1 input_col2 output_col1
            output_col2
          = Some (-1, output_col1, output_col2))
    /\ (0 <= copy_multiplier -> rows <= 100 ->
        getSize output_col1 = rows -> getSize output_col2 = rows ->
        getSize input_col1 <= getSize input_col2 ->
          exists output_col1' output_col2',
            row_addsub add sub copy_multiplier input_col1 input_col2
              output_col1 output_col2
            = Some (rows, output_col1', output_col2')
            /\ getSize output_col1' = rows
            /\ getSize output_col2' = rows
            /\ forall i c,
                 0 <= i < getSize input_col1 -> 0 <= c < copy_multiplier ->
                 exists a b,
                   column_get input_col1 i = Some a
                   /\ column_get input_col2 i = Some b
                   /\ column_get output_col1' (i + c * getSize input_col1)
                      = Some (add a b)
                   /\ column_get output_col2' (i + c * getSize input_col1)
                      = Some (sub a b)).
Proof.
  intros T add sub m in1 in2 out1 out2 rows. unfold row_addsub. fold rows.
  split; [|split].
  - intros H. rewrite to_int32_small by lia.
    assert (E : (rows >? 100) = true) by (rewrite Z.gtb_ltb; apply Z.ltb_lt; lia).
    now rewrite E.
  - intros H Hne. rewrite to_int32_small by lia.
    assert (E : (rows >? 100) = false) by (rewrite Z.gtb_ltb; apply Z.ltb_ge; lia).
    rewrite E.
    destruct Hne as [Hne|Hne]; apply Z.eqb_neq in Hne; rewrite Hne; simpl;
      [reflexivity|now rewrite orb_true_r].
  - intros Hm Hle Hsize1 Hsize2 Hlen.
    assert (H0 : 0 <= rows) by (unfold rows, getSize; nia).
    rewrite to_int32_small by lia.
    assert (E : (rows >? 100) = false) by (rewrite Z.gtb_ltb; apply Z.ltb_ge; lia).
    rewrite E.
    rewrite (proj2 (Z.eqb_eq _ _) Hsize1), (proj2 (Z.eqb_eq _ _) Hsize2).
    simpl negb. cbn [orb]. cbn iota.
    assert (Hget : forall (col : Column T) i,
               0 <= i < getSize col -> exists a, column_get col i = Some a).
    { intros col i Hi. unfold column_get.
      assert (Hb : (0 <=? i) && (i <? getSize col) = true).
      { apply andb_true_iff. split; [apply Z.leb_le|apply Z.ltb_lt]; lia. }
      rewrite Hb. destruct (nth_error col (Z.to_nat i)) as [a|] eqn:En;
        [eauto|]. apply nth_error_None in En. unfold getSize in Hi. lia. }
    set (value := fun i =>
                    match column_get in1 i, column_get in2 i with
                    | Some a, Some b => Some (add a b, sub a b)
                    | _, _ => None
                    end).
    rewrite fill_rows2_split.
    assert (Hval : forall (pick : T * T -> T) i,
               0 <= i < getSize in1 -> option_map pick (value i) <> None).
    { intros pick i Hi. unfold value.
      destruct (Hget in1 i Hi) as [a Ea].
      destruct (Hget in2 i ltac:(lia)) as [b Eb].
      rewrite Ea, Eb. discriminate. }
    destruct (fill_rows_spec T (fun i => option_map fst (value i)) (getSize in1) m
                (Z.to_nat (getSize in1)) out1 0 Hm ltac:(lia))
      as (o1 & Ef1 & S1 & G1 & _);
      [unfold getSize; rewrite Nat2Z.id; lia|fold rows; lia|apply Hval|].
    destruct (fill_rows_spec T (fun i => option_map snd (value i)) (getSize in1) m
                (Z.to_nat (getSize in1)) out2 0 Hm ltac:(lia))
      as (o2 & Ef2 & S2 & G2 & _);
      [unfold getSize; rewrite Nat2Z.id; lia|fold rows; lia|apply Hval|].
    rewrite Ef1, Ef2. exists o1, o2. split; [reflexivity|].
    split; [congruence|]. split; [congruence|].
    intros i c Hi Hc.
    destruct (Hget in1 i Hi) as [a Ea].
    destruct (Hget in2 i ltac:(lia)) as [b Eb].
    exists a, b. split; [exact Ea|]. split; [exact Eb|].
    rewrite G1, G2 by lia. unfold value. rewrite Ea, Eb. split; reflexivity.
Qed.

Lemma row_addsub_adds_and_subtracts_witness :
  exists output_col1' output_col2',
    row_addsub Z.add Z.sub 2 [5; 7] [1; 2] [0; 0; 0; 0] [0; 0; 0; 0]
    = Some (4, output_col1', output_col2')
    /\ getSize output_col1' = 4
    /\ getSize output_col2' = 4
    /\ forall i c,
         0 <= i < 2 -> 0 <= c < 2 ->
         exists a b,
           column_get [5; 7] i = Some a
           /\ column_get [1; 2] i = Some b
           /\ column_get output_col1' (i + c * 2) = Some (a + b)
           /\ column_get output_col2' (i + c * 2) = Some (a - b).
Proof.
  apply (proj2 (proj2 (row_addsub_adds_and_subtracts Z Z.add Z.sub 2 [5; 7]
                         [1; 2] [0; 0; 0; 0] [0; 0; 0; 0])));
    [lia|unfold getSize; simpl; lia|reflexivity|reflexivity
    |unfold getSize; simpl; lia].
Defined.

Example row_addsub_example :
  row_addsub Z.add Z.sub 2 [5; 7] [1; 2] [0; 0; 0; 0] [0; 0; 0; 0]
  = Some (4, [6; 9; 6; 9], [4; 5; 4; 5]).
Proof. vm_compute. reflexivity. Qed.
